(** * unisearch: normalisation, rank parsing, matching, merging and scoring

    A shallow embedding of the data-cleaning pipeline
    ([data_pipeline/processors/data_cleaner.py]), of the Google-Sheets / QS
    integrator ([backend/google_sheets_integration.py]) and of the
    recommendation scorer ([app/routes/recommendations.py]).

    Conventions.
    - Python [str] values are lists of characters ([list ascii]); the
      character classes below are those of Python on the ASCII range
      (characters above 127 are classified as uncased symbols).
    - [None] / [NaN] is [option]'s [None].
    - A Python exception is the [Raise] constructor of [res].
    - Python floats that hold scores and weights are exact rationals ([Q]). *)

From Stdlib Require Import ZArith QArith Qminmax String Ascii List Bool Lia Lqa.
From stdpp Require Import gmap strings.
Import ListNotations.

Local Open Scope Z_scope.

(** ** Python strings *)

Module PyStr.

Definition str := list ascii.

(** A string literal of the source. *)
Definition py (s : string) : str := list_ascii_of_string s.

Definition code (c : ascii) : N := N_of_ascii c.

Definition in_range (lo hi : N) (c : ascii) : bool :=
  (N.leb lo (code c) && N.leb (code c) hi)%bool.

Definition is_upper : ascii -> bool := in_range 65 90.
Definition is_lower : ascii -> bool := in_range 97 122.
Definition is_digit : ascii -> bool := in_range 48 57.
Definition is_alpha (c : ascii) : bool := (is_upper c || is_lower c)%bool.

(** [\w]: letters, digits and the underscore. *)
Definition is_word (c : ascii) : bool :=
  (is_alpha c || is_digit c || N.eqb (code c) 95)%bool.

(** [str.isspace] and [\s]: TAB..CR, FS..US and the space. *)
Definition is_space (c : ascii) : bool :=
  (in_range 9 13 c || in_range 28 32 c)%bool.

Definition eqc (a b : ascii) : bool := Ascii.eqb a b.

(** [str.lower] and [str.upper] on a character of ASCII text. *)
Definition lower_c (c : ascii) : ascii :=
  if is_upper c then ascii_of_N (code c + 32) else c.
Definition upper_c (c : ascii) : ascii :=
  if is_lower c then ascii_of_N (code c - 32) else c.

Definition lower (s : str) : str := map lower_c s.

(** [str.capitalize] on ASCII text: first character upper-cased, the rest
    lower-cased. *)
Definition capitalize (s : str) : str :=
  match s with
  | [] => []
  | c :: t => upper_c c :: lower t
  end.

(** [str.title] on ASCII text: a cased character is upper-cased when the
    character before it is not cased and lower-cased when it is.  (On other
    text Python's casing is not this one: it can change the length of the
    text, and [str.title] is not idempotent there.) *)
Fixpoint title_from (prev_cased : bool) (s : str) : str :=
  match s with
  | [] => []
  | c :: t =>
      (if is_alpha c
       then (if prev_cased then lower_c c else upper_c c)
       else c) :: title_from (is_alpha c) t
  end.
Definition title (s : str) : str := title_from false s.

(** [str.strip()] with no argument. *)
Fixpoint lstrip (s : str) : str :=
  match s with
  | c :: t => if is_space c then lstrip t else s
  | [] => []
  end.
Definition rstrip (s : str) : str := rev (lstrip (rev s)).
Definition strip (s : str) : str := rstrip (lstrip s).

(** [str.split()] with no argument: the maximal runs of non-space
    characters.  [cur] is the word being read, reversed. *)
Fixpoint split_from (cur : str) (s : str) : list str :=
  match s with
  | [] => match cur with [] => [] | _ => [rev cur] end
  | c :: t =>
      if is_space c
      then match cur with
           | [] => split_from [] t
           | _ => rev cur :: split_from [] t
           end
      else split_from (c :: cur) t
  end.
Definition split (s : str) : list str := split_from [] s.

(** [sep.join(words)]. *)
Fixpoint join (sep : str) (ws : list str) : str :=
  match ws with
  | [] => []
  | [w] => w
  | w :: rest => w ++ sep ++ join sep rest
  end.

(** [s.split(c)[0]]: the text before the first occurrence of [c]. *)
Fixpoint before_first (c : ascii) (s : str) : str :=
  match s with
  | [] => []
  | x :: t => if eqc x c then [] else x :: before_first c t
  end.

Definition contains_char (c : ascii) (s : str) : bool := existsb (eqc c) s.

Fixpoint is_prefix (p s : str) : bool :=
  match p, s with
  | [], _ => true
  | a :: p', b :: s' => (eqc a b && is_prefix p' s')%bool
  | _ :: _, [] => false
  end.

(** [w in s] for strings: [w] occurs as a contiguous substring. *)
Fixpoint contains (w s : str) : bool :=
  (is_prefix w s ||
   match s with
   | [] => false
   | _ :: t => contains w t
   end)%bool.

(** [s.replace(c, '')] for a one-character [c]. *)
Definition remove_char (c : ascii) (s : str) : str :=
  filter (fun x => negb (eqc x c)) s.

Definition str_eqb (a b : str) : bool := bool_decide (a = b).

End PyStr.
Import PyStr.

(** ** Regular expressions of the [re] module

    The fragment the source uses: literals and classes, concatenation, greedy
    [?], greedy [*] / [+] / [{2,}] on a class, [^], [$], [\b] and a
    look-ahead.  The matcher backtracks in the order Python does: a greedy
    operator tries the longest alternative first. *)

Module Re.

Inductive re : Type :=
| Eps
| Chr (p : ascii -> bool)
| Seq (r1 r2 : re)
| Opt (r : re)
| Star (p : ascii -> bool)
| Bol
| Eol
| Wordb
| Ahead (r : re).

Definition Plus (p : ascii -> bool) : re := Seq (Chr p) (Star p).
Definition AtLeast2 (p : ascii -> bool) : re := Seq (Chr p) (Plus p).

(** A literal, case-sensitive or under [re.IGNORECASE]. *)
Definition chr_is (c : ascii) : ascii -> bool := eqc c.
Definition chr_ci (c : ascii) : ascii -> bool :=
  fun x => eqc (lower_c x) (lower_c c).
Fixpoint lit_with (f : ascii -> ascii -> bool) (s : str) : re :=
  match s with
  | [] => Eps
  | [c] => Chr (f c)
  | c :: t => Seq (Chr (f c)) (lit_with f t)
  end.
Definition Lit (s : string) : re := lit_with chr_is (py s).
Definition LitI (s : string) : re := lit_with chr_ci (py s).

Fixpoint seqs (rs : list re) : re :=
  match rs with
  | [] => Eps
  | [r] => r
  | r :: rest => Seq r (seqs rest)
  end.

Definition any_of (s : string) : ascii -> bool :=
  fun x => existsb (eqc x) (py s).
Definition none_of (s : string) : ascii -> bool :=
  fun x => negb (existsb (eqc x) (py s)).
(** [.] matches everything but a newline. *)
Definition dot : ascii -> bool := none_of (String (ascii_of_N 10) "").

Definition word_opt (o : option ascii) : bool :=
  match o with Some c => is_word c | None => false end.

Definition K := option ascii -> str -> option str.

(** Greedy repetition of a class, longest first. *)
Fixpoint star_m (p : ascii -> bool) (prev : option ascii) (rest : str) (k : K)
  : option str :=
  match rest with
  | c :: t =>
      if p c
      then match star_m p (Some c) t k with
           | Some x => Some x
           | None => k prev rest
           end
      else k prev rest
  | [] => k prev rest
  end.

(** [m r prev rest k]: match [r] at a position whose preceding character
    is [prev] ([None] at the start of the text) and whose remaining text is
    [rest], then continue with [k]; the result is the text left after the
    whole match. *)
Fixpoint m (r : re) (prev : option ascii) (rest : str) (k : K) : option str :=
  match r with
  | Eps => k prev rest
  | Chr p =>
      match rest with
      | c :: t => if p c then k (Some c) t else None
      | [] => None
      end
  | Seq a b => m a prev rest (fun prev' rest' => m b prev' rest' k)
  | Opt a =>
      match m a prev rest k with
      | Some x => Some x
      | None => k prev rest
      end
  | Star p => star_m p prev rest k
  | Bol => match prev with None => k prev rest | Some _ => None end
  | Eol =>
      match rest with
      | [] => k prev rest
      | [c] => if N.eqb (code c) 10 then k prev rest else None
      | _ => None
      end
  | Wordb =>
      if xorb (word_opt prev) (word_opt (head rest)) then k prev rest else None
  | Ahead a =>
      match m a prev rest (fun _ r' => Some r') with
      | Some _ => k prev rest
      | None => None
      end
  end.

(** A match starting exactly here: the number of characters it consumes. *)
Definition match_len (r : re) (prev : option ascii) (rest : str) : option nat :=
  match m r prev rest (fun _ r' => Some r') with
  | Some r' => Some (length rest - length r')%nat
  | None => None
  end.

(** [re.search(r, s)]: the text of the leftmost match. *)
Fixpoint search_from (r : re) (prev : option ascii) (s : str) : option str :=
  match match_len r prev s with
  | Some n => Some (firstn n s)
  | None =>
      match s with
      | [] => None
      | c :: t => search_from r (Some c) t
      end
  end.
Definition search (r : re) (s : str) : option str := search_from r None s.

(** [re.sub(r, repl, s)]: every leftmost non-overlapping match is replaced.
    [skip] counts the characters of the current match still to be dropped.
    (No pattern of the source matches the empty string; an empty match
    inserts [repl] and moves on by one character.) *)
Fixpoint sub_from (r : re) (repl : str) (prev : option ascii) (s : str)
  (skip : nat) {struct s} : str :=
  match skip with
  | S n =>
      match s with
      | [] => []
      | c :: t => sub_from r repl (Some c) t n
      end
  | O =>
      match match_len r prev s with
      | Some (S n) =>
          repl ++ match s with
                  | [] => []
                  | c :: t => sub_from r repl (Some c) t n
                  end
      | Some O =>
          repl ++ match s with
                  | [] => []
                  | c :: t => c :: sub_from r repl (Some c) t O
                  end
      | None =>
          match s with
          | [] => []
          | c :: t => c :: sub_from r repl (Some c) t O
          end
      end
  end.
Definition sub (r : re) (repl : string) (s : str) : str :=
  sub_from r (py repl) None s O.

End Re.
Import Re.


(** ** Exceptions *)

Inductive exn : Type := ValueError.

Inductive res (A : Type) : Type :=
| Ret (a : A)
| Raise (e : exn).
Arguments Ret {A} a.
Arguments Raise {A} e.

#[global] Instance res_ret : MRet res := fun A a => Ret a.
#[global] Instance res_bind : MBind res := fun A B f c =>
  match c with
  | Ret a => f a
  | Raise e => Raise e
  end.

(** [try: c  except ValueError: h]. *)
Definition try_except {A} (c : res A) (h : res A) : res A :=
  match c with
  | Ret a => Ret a
  | Raise ValueError => h
  end.

(** ** Built-in conversions *)

Module Builtins.

Definition digit_val (c : ascii) : Z := Z.of_N (code c) - 48.

(** The white space [int()] skips around a literal. *)
Definition is_c_space (c : ascii) : bool :=
  (in_range 9 13 c || N.eqb (code c) 32)%bool.

Fixpoint lskip (s : str) : str :=
  match s with
  | c :: t => if is_c_space c then lskip t else s
  | [] => []
  end.
Definition skip_space (s : str) : str := rev (lskip (rev (lskip s))).

(** Digits with single underscores between them. [after_digit] tells
    whether the previous character was a digit. *)
Fixpoint int_digits (acc : Z) (after_digit : bool) (s : str) : option Z :=
  match s with
  | [] => if after_digit then Some acc else None
  | c :: t =>
      if is_digit c then int_digits (acc * 10 + digit_val c) true t
      else if (N.eqb (code c) 95 && after_digit)%bool then int_digits acc false t
      else None
  end.

(** [sys.int_max_str_digits]: the most digits [int()] converts from a
    string, 0 for no limit (4300 by default since CPython 3.11). *)
Class Interpreter : Type := { int_max_str_digits : nat }.

Definition cpython : Interpreter := {| int_max_str_digits := 4300 |}.

Definition count_digits (t : str) : nat := length (List.filter is_digit t).

Definition exceeds_limit `{Interpreter} (digits : nat) : bool :=
  (negb (int_max_str_digits =? 0)%nat && (int_max_str_digits <? digits)%nat)%bool.

(** [int(s)] for a string, base ten. *)
Definition py_int `{Interpreter} (s : str) : res Z :=
  let body (t : str) :=
    match int_digits 0 false t with
    | Some n => if exceeds_limit (count_digits t) then Raise ValueError else Ret n
    | None => Raise ValueError
    end in
  match skip_space s with
  | c :: t =>
      if N.eqb (code c) 43 then body t
      else if N.eqb (code c) 45 then n ← body t; mret (- n)
      else body (c :: t)
  | [] => Raise ValueError
  end.

(** Python's [float]: the values, the conversion of a string ([None]
    when [float()] raises [ValueError]) and the division by ten. *)
Class PyFloat : Type := {
  float : Type;
  float_of_str : str -> option float;
  float_div10 : float -> float
}.

Definition py_float `{PyFloat} (s : str) : res float :=
  match float_of_str s with
  | Some f => Ret f
  | None => Raise ValueError
  end.

End Builtins.
Import Builtins.

(** ** data_pipeline/processors/data_cleaner.py *)

Module Cleaner.

Definition dot_opt : re := Opt (Chr (chr_is ".")).

(** [\bWORD\b\.?] under [re.IGNORECASE]. *)
Definition abbr (w : string) : re := seqs [Wordb; LitI w; Wordb; dot_opt].

(** The abbreviation table of [clean_university_name], in the order of
    the dictionary; every pattern is used with [re.IGNORECASE]. *)
Definition abbreviations : list (re * string) :=
  [ (abbr "Univ", "University");
    (seqs [Wordb; LitI "U"; Wordb; dot_opt; Ahead (Chr is_space)], "University");
    (abbr "Inst", "Institute");
    (abbr "Tech", "Technology");
    (abbr "Coll", "College");
    (abbr "Sci", "Science");
    (abbr "Eng", "Engineering");
    (abbr "Med", "Medical");
    (abbr "Bus", "Business");
    (seqs [Wordb; LitI "Int"; Opt (Chr (chr_is "'")); LitI "l"; Wordb; dot_opt],
      "International");
    (seqs [Wordb; LitI "Nat"; Opt (Chr (chr_is "'")); LitI "l"; Wordb; dot_opt],
      "National");
    (seqs [Wordb; LitI "St"; Wordb; Lit "."], "Saint");
    (seqs [Wordb; LitI "Mt"; Wordb; Lit "."], "Mount") ].

(** [\s*\([^)]*\)$] *)
Definition paren_suffix : re :=
  seqs [Star is_space; Lit "("; Star (none_of ")"); Lit ")"; Eol].

Definition noise_patterns : list re :=
  [ paren_suffix;
    seqs [Star is_space; Lit "-"; Star is_space; AtLeast2 is_upper; Eol];
    seqs [Star is_space; Lit ","; Star is_space; AtLeast2 is_upper; Eol] ].

(** [re.sub(r'\s+', ' ', s)] *)
Definition collapse_ws (s : str) : str := sub (Plus is_space) " " s.

Definition lowercase_words : list str :=
  map py ["of"; "the"; "and"; "in"; "at"; "by"; "for"; "to"; "into";
          "with"; "from"; "up"; "on"; "off"; "over"; "under"].

Definition in_words (w : str) (ws : list str) : bool := existsb (str_eqb w) ws.

Definition _title_case_university_name (name : str) : str :=
  match split name with
  | [] => name
  | first :: others =>
      join (py " ")
        (capitalize first ::
         map (fun word =>
                if in_words (lower word) lowercase_words
                then lower word
                else capitalize word) others)
  end.

(** The rewriting steps of [clean_university_name], up to the title-casing:
    white space, abbreviations, noise suffixes and the leading "The". *)
Definition rewrite_name (name : str) : str :=
  let name := collapse_ws (strip name) in
  let name :=
    fold_left (fun n '(pattern, replacement) => sub pattern replacement n)
      abbreviations name in
  let name := fold_left (fun n pattern => sub pattern "" n) noise_patterns name in
  sub (seqs [Bol; Lit "The"; Plus is_space]) "" name.

(** The body of [clean_university_name] below the cache look-up. *)
Definition clean_name_uncached (name : str) : str :=
  _title_case_university_name (rewrite_name name).

(** [clean_university_name], threading [self.university_name_cache]. *)
Definition clean_university_name (cache : gmap str str) (name : option str)
  : str * gmap str str :=
  match name with
  | None => ([], cache)
  | Some name =>
      match cache !! name with
      | Some cached => (cached, cache)
      | None =>
          let result := clean_name_uncached name in
          (result, <[name := result]> cache)
      end
  end.

(** [_load_country_mappings] *)
Definition country_mappings : list (string * string) :=
  [ ("US", "United States");
    ("USA", "United States");
    ("United States of America", "United States");
    ("UK", "United Kingdom");
    ("Great Britain", "United Kingdom");
    ("England", "United Kingdom");
    ("Scotland", "United Kingdom");
    ("Wales", "United Kingdom");
    ("Northern Ireland", "United Kingdom");
    ("Russia", "Russian Federation");
    ("South Korea", "Republic of Korea");
    ("North Korea", "Democratic People's Republic of Korea");
    ("Iran", "Islamic Republic of Iran");
    ("Vietnam", "Viet Nam");
    ("Czech Republic", "Czechia");
    ("Macedonia", "North Macedonia");
    ("Myanmar", "Myanmar (Burma)");
    ("Congo", "Democratic Republic of the Congo") ].

Fixpoint lookup_mapping (k : str) (tbl : list (string * string)) : option str :=
  match tbl with
  | [] => None
  | (a, b) :: rest => if str_eqb k (py a) then Some (py b) else lookup_mapping k rest
  end.

Definition ci (c : string) : re := LitI c.

Definition standardizations : list (re * string) :=
  [ (seqs [Wordb; LitI "US"; Opt (ci "A"); Wordb], "United States");
    (seqs [Wordb; LitI "UK"; Wordb], "United Kingdom");
    (seqs [Wordb; ci "U"; dot_opt; ci "S"; dot_opt; ci "A"; dot_opt; Wordb],
      "United States");
    (seqs [Wordb; ci "U"; dot_opt; ci "K"; dot_opt; Wordb], "United Kingdom") ].

(** The steps of [clean_country_name] between the alias look-up and the
    title-casing: white space and the standardization patterns. *)
Definition rewrite_country (country : str) : str :=
  let country := collapse_ws country in
  fold_left (fun c '(pattern, replacement) => sub pattern replacement c)
    standardizations country.

Definition clean_country_name (country : option str) : str :=
  match country with
  | None => []
  | Some country =>
      let country := strip country in
      match lookup_mapping country country_mappings with
      | Some mapped => mapped
      | None => title (rewrite_country country)
      end
  end.

(** [,\s*[A-Z]{2,}$] *)
Definition state_suffix : re :=
  seqs [Lit ","; Star is_space; AtLeast2 is_upper; Eol].

(** The steps of [clean_city_name] before the title-casing. *)
Definition rewrite_city (city : str) : str :=
  let city := sub paren_suffix "" city in
  let city := sub state_suffix "" city in
  collapse_ws (strip city).

Definition clean_city_name (city : option str) : str :=
  match city with
  | None => []
  | Some city => title (rewrite_city city)
  end.

Definition not_ranked_words : list str := map py ["not"; "unranked"; "n/a"; "na"].

(** [_parse_ranking]; the argument is [None] for a null cell and the
    [str()] of the cell otherwise. *)
Definition _parse_ranking `{Interpreter} (rank_value : option str) : res (option Z) :=
  match rank_value with
  | None => Ret None
  | Some v =>
      let rank_str := strip v in
      if existsb (fun word => contains word (lower rank_str)) not_ranked_words
      then Ret None
      else
        let rank_str := sub (seqs [Bol; Chr (any_of "=#+")]) "" rank_str in
        let rank_str :=
          if contains_char "-" rank_str then before_first "-" rank_str else rank_str in
        let rank_str := sub (seqs [Lit "+"; Star dot; Eol]) "" rank_str in
        match search (Plus is_digit) rank_str with
        | Some group => n ← py_int group; mret (Some n)
        | None => Ret None
        end
  end.

(** [_parse_score] *)
Definition _parse_score `{PyFloat} (score_value : option str) : res (option float) :=
  match score_value with
  | None => Ret None
  | Some v =>
      let score_str := strip v in
      if contains_char "%" score_str
      then
        let score_str := remove_char "%" score_str in
        try_except (f ← py_float score_str; mret (Some (float_div10 f))) (Ret None)
      else
        match search (seqs [Plus is_digit; dot_opt; Star is_digit]) score_str with
        | Some group =>
            try_except (f ← py_float group; mret (Some f)) (Ret None)
        | None => Ret None
        end
  end.

(** *** Rows of the cleaned data set

    The columns [_merge_duplicate_rows] reads, with the types the cleaning
    steps before it give them; a column the frame lacks is null in every
    row. *)

Inductive text_field : Type := name | city | country | website_url.
Inductive numeric_field : Type :=
| academic_rigor | student_life | cultural_diversity
| campus_safety | research_quality | overall_quality.
Inductive ranking_field : Type := qs_rank | the_rank | arwu_rank | us_news_rank.
Inductive score_field : Type := qs_score | the_score.

#[global] Instance text_field_eq_dec : EqDecision text_field.
Proof. solve_decision. Defined.
#[global] Instance numeric_field_eq_dec : EqDecision numeric_field.
Proof. solve_decision. Defined.
#[global] Instance ranking_field_eq_dec : EqDecision ranking_field.
Proof. solve_decision. Defined.
#[global] Instance score_field_eq_dec : EqDecision score_field.
Proof. solve_decision. Defined.

Record Row : Type := {
  text : text_field -> option str;
  metric : numeric_field -> option Q;
  rank : ranking_field -> option Z;
  score : score_field -> option Q;
  response_count : option Z
}.

(** [merged[field] = v] *)
Definition set_text (f : text_field) (v : str) (r : Row) : Row :=
  {| text := fun g => if decide (g = f) then Some v else text r g;
     metric := metric r; rank := rank r; score := score r;
     response_count := response_count r |}.
Definition set_metric (f : numeric_field) (v : Q) (r : Row) : Row :=
  {| text := text r;
     metric := fun g => if decide (g = f) then Some v else metric r g;
     rank := rank r; score := score r;
     response_count := response_count r |}.
Definition set_rank (f : ranking_field) (v : Z) (r : Row) : Row :=
  {| text := text r; metric := metric r;
     rank := fun g => if decide (g = f) then Some v else rank r g;
     score := score r;
     response_count := response_count r |}.
Definition set_score (f : score_field) (v : Q) (r : Row) : Row :=
  {| text := text r; metric := metric r; rank := rank r;
     score := fun g => if decide (g = f) then Some v else score r g;
     response_count := response_count r |}.

(** [rows[field].dropna()] *)
Definition dropna {A B} (col : A -> option B) (rows : list A) : list B :=
  omap col rows.

(** [max(values, key=len)]: the first of the longest values. *)
Fixpoint longest_from (best : str) (values : list str) : str :=
  match values with
  | [] => best
  | v :: rest =>
      if (length best <? length v)%nat then longest_from v rest
      else longest_from best rest
  end.

(** [values.mean()] and [values.min()] of a non-empty series. *)
Definition Qsum (values : list Q) : Q := fold_right Qplus 0%Q values.
Definition mean (values : list Q) : Q :=
  (Qsum values / inject_Z (Z.of_nat (length values)))%Q.
Definition minimum (first : Z) (rest : list Z) : Z := fold_left Z.min rest first.

Definition text_fields : list text_field := [name; city; country; website_url].
Definition numeric_fields : list numeric_field :=
  [academic_rigor; student_life; cultural_diversity;
   campus_safety; research_quality; overall_quality].
Definition ranking_fields : list ranking_field := [qs_rank; the_rank; arwu_rank].
Definition score_fields : list score_field := [qs_score; the_score].

Definition merge_text (rows : list Row) (merged : Row) (field : text_field) : Row :=
  match dropna (fun r => text r field) rows with
  | [] => merged
  | v :: rest => set_text field (longest_from v rest) merged
  end.
Definition merge_metric (rows : list Row) (merged : Row) (field : numeric_field) : Row :=
  match dropna (fun r => metric r field) rows with
  | [] => merged
  | values => set_metric field (mean values) merged
  end.
Definition merge_rank (rows : list Row) (merged : Row) (field : ranking_field) : Row :=
  match dropna (fun r => rank r field) rows with
  | [] => merged
  | v :: rest => set_rank field (minimum v rest) merged
  end.
Definition merge_score (rows : list Row) (merged : Row) (field : score_field) : Row :=
  match dropna (fun r => score r field) rows with
  | [] => merged
  | values => set_score field (mean values) merged
  end.

(** [_merge_duplicate_rows]; [None] is the [IndexError] of [rows.iloc[0]]
    on an empty frame. *)
Definition _merge_duplicate_rows (rows : list Row) : option Row :=
  match rows with
  | [] => None
  | first :: _ =>
      let merged := first in
      let merged := fold_left (merge_text rows) text_fields merged in
      let merged := fold_left (merge_metric rows) numeric_fields merged in
      let merged := fold_left (merge_rank rows) ranking_fields merged in
      let merged := fold_left (merge_score rows) score_fields merged in
      Some merged
  end.

End Cleaner.

(** ** thefuzz

    The four similarity measures of the [thefuzz] package, each an integer
    between 0 and 100. *)

Class Fuzz : Type := {
  ratio : str -> str -> Z;
  partial_ratio : str -> str -> Z;
  token_sort_ratio : str -> str -> Z;
  token_set_ratio : str -> str -> Z
}.

(** ** backend/google_sheets_integration.py *)

Module Integrator.

Definition dot_opt : re := Opt (Chr (chr_is ".")).

(** The replacement table of [standardize_university_name], in dictionary
    order; every pattern is used with [re.IGNORECASE]. *)
Definition replacements : list (re * string) :=
  [ (seqs [Wordb; LitI "univ"; Wordb; dot_opt], "University");
    (seqs [Wordb; LitI "university of"; Wordb], "University of");
    (seqs [Wordb; LitI "u"; dot_opt; Plus is_space; LitI "of"; Wordb], "University of");
    (seqs [Wordb; LitI "u"; Lit "."; Star is_space; Eol], "University");
    (seqs [Wordb; LitI "univ"; Lit "."; Star is_space; Eol], "University");
    (seqs [Wordb; LitI "inst"; Wordb; dot_opt], "Institute");
    (seqs [Wordb; LitI "institute of"; Wordb], "Institute of");
    (seqs [Wordb; LitI "tech"; Wordb; dot_opt], "Technology");
    (seqs [Wordb; LitI "technical"; Wordb], "Technology");
    (seqs [Wordb; LitI "coll"; Wordb; dot_opt], "College");
    (seqs [Wordb; LitI "college of"; Wordb], "College of");
    (seqs [Wordb; LitI "state"; Plus is_space; LitI "u"; Wordb; dot_opt],
      "State University");
    (seqs [Wordb; LitI "st"; Lit "."; Plus is_space; LitI "u"; Wordb; dot_opt],
      "State University") ].

Definition suffixes_to_remove : list re :=
  [ seqs [Star is_space; Lit "("; Star (none_of ")"); Lit ")"; Star is_space; Eol];
    seqs [Star is_space; Lit "-"; Star is_space; Star dot; Eol];
    seqs [Star is_space; Lit ","; Star is_space; Star dot; Eol] ].

Definition exceptions : list str :=
  map py ["of"; "the"; "and"; "in"; "at"; "by"; "for"; "to"; "with"; "on"].

Definition in_words (w : str) (ws : list str) : bool := existsb (str_eqb w) ws.

(** The title-casing loop: [first] is [i == 0]. *)
Fixpoint case_words (first : bool) (words : list str) : list str :=
  match words with
  | [] => []
  | word :: rest =>
      (if (first || negb (in_words (lower word) exceptions))%bool
       then capitalize word
       else lower word) :: case_words false rest
  end.

Definition standardize_university_name (name : str) : str :=
  match name with
  | [] => []
  | _ =>
      let name := strip name in
      let name :=
        fold_left (fun n '(pattern, replacement) => sub pattern replacement n)
          replacements name in
      let name := fold_left (fun n suffix => sub suffix "" n) suffixes_to_remove name in
      let name := join (py " ") (split name) in
      join (py " ") (case_words true (split name))
  end.

Section Matching.
Context `{Fuzz}.

(** [ratio * 0.3 + partial * 0.2 + token_sort * 0.25 + token_set * 0.25] *)
Definition combined_score (a b : str) : Q :=
  (inject_Z (ratio a b) * (3 # 10) + inject_Z (partial_ratio a b) * (2 # 10)
   + inject_Z (token_sort_ratio a b) * (25 # 100)
   + inject_Z (token_set_ratio a b) * (25 # 100))%Q.

Definition Qltb (a b : Q) : bool := negb (Qle_bool b a).

(** One turn of the inner loop over [qs_universities]; the state is
    [(best_match, best_score)]. *)
Definition consider (standardized_feedback : str)
  (best : option str * Q) (qs_uni : str) : option str * Q :=
  let standardized_qs := standardize_university_name qs_uni in
  let score :=
    combined_score (lower standardized_feedback) (lower standardized_qs) in
  if (Qltb (snd best) score && Qle_bool 80 score)%bool
  then (Some standardized_qs, score)
  else best.

Definition best_candidate (standardized_feedback : str)
  (qs_universities : list str) : option str * Q :=
  fold_left (consider standardized_feedback) qs_universities (None, 0%Q).

(** What the outer loop stores for a standardized feedback name: the best
    candidate, when there is one and it is not the empty string. *)
Definition kept (qs_universities : list str) (standardized_feedback : str) : option str :=
  match fst (best_candidate standardized_feedback qs_universities) with
  | Some (c :: best_match) => Some (c :: best_match)
  | _ => None
  end.

(** One turn of the outer loop over [feedback_universities]. *)
Definition match_one (qs_universities : list str)
  (matches : gmap str str) (feedback_uni : str) : gmap str str :=
  match feedback_uni with
  | [] => matches
  | _ =>
      let standardized_feedback := standardize_university_name feedback_uni in
      match fst (best_candidate standardized_feedback qs_universities) with
      | Some (c :: best_match) => <[standardized_feedback := c :: best_match]> matches
      | _ => matches
      end
  end.

Definition find_university_matches (feedback_universities qs_universities : list str)
  : gmap str str :=
  fold_left (match_one qs_universities) feedback_universities ∅.

End Matching.

(** [if s.startswith(c): s = s[1:]] *)
Definition drop_leading (c : ascii) (s : str) : str :=
  match s with
  | x :: t => if eqc x c then t else s
  | [] => s
  end.

(** [clean_qs_rank]; the argument is [None] for a null cell and the
    [str()] of the cell otherwise. *)
Definition clean_qs_rank `{Interpreter} (rank_str : option str) : option Z :=
  match rank_str with
  | None => None
  | Some v =>
      let rank_str := strip v in
      let rank_str := drop_leading "=" rank_str in
      let rank_str :=
        if contains_char "-" rank_str then before_first "-" rank_str else rank_str in
      let rank_str :=
        if contains_char "+" rank_str then before_first "+" rank_str else rank_str in
      match try_except (n ← py_int rank_str; mret (Some n)) (Ret None) with
      | Ret r => r
      | Raise _ => None
      end
  end.

(** *** Data frames

    A cell holds text or a number; a null cell is an absent key of the row.
    [columns] lists the column labels in order. *)

Inductive cell : Type :=
| Text (s : str)
| Num (q : Q).

Record DataFrame : Type := {
  columns : list string;
  rows : list (gmap string cell)
}.

Definition has_column (c : string) (cols : list string) : bool :=
  existsb (String.eqb c) cols.

(** [df.empty] *)
Definition empty (df : DataFrame) : bool :=
  match columns df, rows df with
  | [], _ | _, [] => true
  | _, _ => false
  end.

Definition text_of (c : option cell) : str :=
  match c with
  | Some (Text s) => s
  | _ => []
  end.

(** [Series.unique()]: first occurrences, in order. *)
Fixpoint unique_from (seen : list str) (l : list str) : list str :=
  match l with
  | [] => []
  | x :: t =>
      if existsb (str_eqb x) seen then unique_from seen t
      else x :: unique_from (x :: seen) t
  end.
Definition unique (l : list str) : list str := unique_from [] l.

Definition names (df : DataFrame) : list str :=
  map (fun r => text_of (r !! "standardized_name"%string)) (rows df).

(** Equality of join keys; two null keys are equal. *)
Definition key_eqb (a b : option cell) : bool :=
  match a, b with
  | None, None => true
  | Some (Text x), Some (Text y) => str_eqb x y
  | Some (Num x), Some (Num y) => Qeq_bool x y
  | _, _ => false
  end.

(** The label of a column in the merged frame. *)
Definition suffixed (other : list string) (suffix : string) (c : string) : string :=
  if has_column c other then (c ++ suffix)%string else c.

Definition rename_row (cols other : list string) (suffix : string)
  (r : gmap string cell) : gmap string cell :=
  list_to_map (omap (fun c => (fun v => (suffixed other suffix c, v)) <$> r !! c) cols).

(** The merged row of a left row and its partner, if it has one. *)
Definition join_row (left right : DataFrame) (suffixes : string * string)
  (l : gmap string cell) (partner : option (gmap string cell)) : gmap string cell :=
  let lrow := rename_row (columns left) (columns right) (fst suffixes) l in
  match partner with
  | Some r => lrow ∪ rename_row (columns right) (columns left) (snd suffixes) r
  | None => lrow
  end.

(** [left.merge(right, left_on, right_on, how='left', suffixes)] *)
Definition merge_left (left right : DataFrame) (left_on right_on : string)
  (suffixes : string * string) : DataFrame :=
  {| columns :=
       map (suffixed (columns right) (fst suffixes)) (columns left)
       ++ map (suffixed (columns left) (snd suffixes)) (columns right);
     rows :=
       flat_map
         (fun l =>
            match filter (fun r => key_eqb (l !! left_on) (r !! right_on)) (rows right) with
            | [] => [join_row left right suffixes l None]
            | found => map (fun r => join_row left right suffixes l (Some r)) found
            end)
         (rows left) |}.

(** [df[c] = f(row)] for every row; a null result leaves the cell null. *)
Definition assign_row (c : string) (f : gmap string cell -> option cell)
  (r : gmap string cell) : gmap string cell :=
  match f r with
  | Some v => <[c := v]> r
  | None => base.delete c r
  end.

Definition assign (c : string) (f : gmap string cell -> option cell)
  (df : DataFrame) : DataFrame :=
  {| columns := if has_column c (columns df) then columns df else columns df ++ [c];
     rows := map (assign_row c f) (rows df) |}.

(** [merged_df[col + '_feedback'].fillna(merged_df[col + '_qs'] if ... else 0)]
    on one row. *)
Definition filled (cols : list string) (col : string) (r : gmap string cell) : option cell :=
  match r !! (col ++ "_feedback")%string with
  | Some v => Some v
  | None =>
      if has_column (col ++ "_qs") cols
      then r !! (col ++ "_qs")%string
      else Some (Num 0)
  end.

(** One turn of the loop over [['academic_rigor', 'cultural_diversity']]. *)
Definition coalesce (merged_df : DataFrame) (col : string) : DataFrame :=
  if has_column (col ++ "_feedback") (columns merged_df)
  then assign col (filled (columns merged_df) col) merged_df
  else merged_df.

(** [feedback_df['qs_match_name'] = feedback_df['standardized_name'].map(matches)] *)
Definition with_match (matches : gmap str str) (feedback_df : DataFrame) : DataFrame :=
  assign "qs_match_name"
    (fun r => Text <$> matches !! text_of (r !! "standardized_name"%string))
    feedback_df.

Section Merging.
Context `{Fuzz}.

(** The matches [merge_data_sources] computes. *)
Definition frame_matches (feedback_df qs_df : DataFrame) : gmap str str :=
  find_university_matches (unique (names feedback_df)) (unique (names qs_df)).

Definition merge_data_sources (feedback_df qs_df : DataFrame) : DataFrame :=
  if empty feedback_df then qs_df
  else
    let matches := frame_matches feedback_df qs_df in
    let feedback_df := with_match matches feedback_df in
    let merged_df :=
      merge_left qs_df feedback_df "standardized_name" "qs_match_name"
        ("_qs", "_feedback")%string in
    fold_left coalesce ["academic_rigor"; "cultural_diversity"]%string merged_df.

End Merging.

End Integrator.

(** ** app/routes/recommendations.py *)

Module Recommendations.

(** The columns of the [University] table that the scorer reads. *)
Record University : Type := {
  academic_rigor : option Q;
  research_quality : option Q;
  cultural_diversity : option Q;
  student_life : option Q;
  campus_safety : option Q;
  tuition_international : option Q;
  qs_rank : option Z;
  country : option str;
  languages_of_instruction : option (list str);
  climate_type : option str;
  accommodation_available : option bool
}.

Record UserProfile : Type := {
  academic_importance : Z;
  research_importance : Z;
  cultural_diversity_importance : Z;
  student_life_importance : Z;
  campus_safety_importance : Z;
  max_tuition_budget : option Q;
  cost_importance : Z;
  preferred_countries : option (list str);
  preferred_climate : option str;
  language_requirements : option (list str);
  accommodation_required : option bool;
  ranking_importance : Z;
  min_acceptable_rank : option Z
}.

(** The three local variables of [calculate_match_score]. *)
Record state : Type := {
  score : Q;
  reasons : list str;
  max_possible_score : Q
}.

Definition add_score (x : Q) (st : state) : state :=
  {| score := score st + x; reasons := reasons st;
     max_possible_score := max_possible_score st |}.
Definition add_max (x : Q) (st : state) : state :=
  {| score := score st; reasons := reasons st;
     max_possible_score := max_possible_score st + x |}.
Definition append (r : str) (st : state) : state :=
  {| score := score st; reasons := reasons st ++ [r];
     max_possible_score := max_possible_score st |}.

(** [importance / 5.0 * percent] *)
Definition weight (importance : Z) (percent : Q) : Q :=
  (inject_Z importance / 5 * percent)%Q.

Definition Qleb (a b : Q) : bool := Qle_bool a b.
Definition Qltb0 (a : Q) : bool := negb (Qle_bool a 0).

(** Truth values of optional fields. *)
Definition truthy_list {A} (l : option (list A)) : bool :=
  match l with Some (_ :: _) => true | _ => false end.
Definition truthy_bool (b : option bool) : bool :=
  match b with Some true => true | _ => false end.

Definition member (x : str) (l : list str) : bool := existsb (str_eqb x) l.

(** The four metric criteria that only append one reason share a shape. *)
Definition metric_step (value : option Q) (importance : Z) (percent : Q)
  (notable : Q -> bool) (reason : string) (st : state) : state :=
  match value with
  | None => st
  | Some v =>
      let w := weight importance percent in
      let st := add_max w (add_score (v / 10 * w) st) in
      if notable v then append (py reason) st else st
  end.

Definition academic_step (u : University) (p : UserProfile) (st : state) : state :=
  match academic_rigor u with
  | None => st
  | Some v =>
      let academic_weight := weight (academic_importance p) 25 in
      let st := add_max academic_weight (add_score (v / 10 * academic_weight) st) in
      if (Qleb 8 v && (4 <=? academic_importance p))%bool
      then append (py "Excellent academic rigor match") st
      else if Qleb 6 v then append (py "Good academic standards") st
      else st
  end.

Definition research_step (u : University) (p : UserProfile) : state -> state :=
  metric_step (research_quality u) (research_importance p) 15
    (fun v => (Qleb 8 v && (4 <=? research_importance p))%bool)
    "Strong research opportunities".

Definition diversity_step (u : University) (p : UserProfile) : state -> state :=
  metric_step (cultural_diversity u) (cultural_diversity_importance p) 15
    (fun v => (Qleb 8 v && (4 <=? cultural_diversity_importance p))%bool)
    "Highly diverse international environment".

Definition life_step (u : University) (p : UserProfile) : state -> state :=
  metric_step (student_life u) (student_life_importance p) 15
    (fun v => (Qleb 8 v && (4 <=? student_life_importance p))%bool)
    "Excellent student life and activities".

Definition safety_step (u : University) (p : UserProfile) : state -> state :=
  metric_step (campus_safety u) (campus_safety_importance p) 10
    (fun v => Qleb 8 v)
    "Very safe campus environment".

(** The budget the cost criterion uses: set and non-zero. *)
Definition budget (p : UserProfile) : option Q :=
  match max_tuition_budget p with
  | Some b => if Qeq_bool b 0 then None else Some b
  | None => None
  end.

Definition cost_step (u : University) (p : UserProfile) (st : state) : state :=
  match tuition_international u, budget p with
  | Some tuition, Some b =>
      let cost_weight := weight (cost_importance p) 10 in
      let st :=
        if Qleb tuition b
        then append (py "Within your budget") (add_score cost_weight st)
        else
          let ratio := (b / tuition)%Q in
          add_score (cost_weight * Qmax 0 ratio) st in
      add_max cost_weight st
  | _, _ => st
  end.

Definition rank_ok (u_rank : Z) (p : UserProfile) : bool :=
  match min_acceptable_rank p with
  | Some r => (negb (r =? 0) && (u_rank <=? r))%bool
  | None => false
  end.

Definition ranking_step (u : University) (p : UserProfile) (st : state) : state :=
  match qs_rank u with
  | None => st
  | Some r =>
      let ranking_weight := weight (ranking_importance p) 5 in
      let st :=
        if rank_ok r p
        then
          let st := add_score ranking_weight st in
          if r <=? 100 then append (py "Top 100 global ranking") st
          else if r <=? 500 then append (py "Highly ranked university") st
          else st
        else st in
      add_max ranking_weight st
  end.

Definition location_ok (u : University) (p : UserProfile) : bool :=
  (truthy_list (preferred_countries p) &&
   match country u, preferred_countries p with
   | Some c, Some l => member c l
   | _, _ => false
   end)%bool.

Definition location_step (u : University) (p : UserProfile) (st : state) : state :=
  let location_weight := 5%Q in
  let st :=
    if location_ok u p
    then append (py "Located in preferred country: " ++ default [] (country u))
           (add_score location_weight st)
    else st in
  add_max location_weight st.

Definition language_ok (u : University) (p : UserProfile) : bool :=
  (truthy_list (language_requirements p) &&
   truthy_list (languages_of_instruction u) &&
   match language_requirements p, languages_of_instruction u with
   | Some wanted, Some offered => existsb (fun lang => member lang offered) wanted
   | _, _ => false
   end)%bool.

Definition language_step (u : University) (p : UserProfile) (st : state) : state :=
  let language_weight := 5%Q in
  let st :=
    if language_ok u p
    then append (py "Offers programs in your preferred language")
           (add_score language_weight st)
    else st in
  add_max language_weight st.

(** The profile names a climate: [profile.preferred_climate] is truthy. *)
Definition wanted_climate (p : UserProfile) : option str :=
  match preferred_climate p with
  | Some (c :: t) => Some (c :: t)
  | _ => None
  end.

Definition climate_ok (u : University) (p : UserProfile) : bool :=
  match wanted_climate p, climate_type u with
  | Some wanted, Some have => str_eqb have wanted
  | _, _ => false
  end.

Definition climate_step (u : University) (p : UserProfile) (st : state) : state :=
  if climate_ok u p
  then add_max 5
         (append (py "Perfect climate match: " ++ default [] (preferred_climate p))
            (add_score 5 st))
  else st.

Definition accommodation_ok (u : University) (p : UserProfile) : bool :=
  (truthy_bool (accommodation_required p) &&
   truthy_bool (accommodation_available u))%bool.

Definition accommodation_step (u : University) (p : UserProfile) (st : state) : state :=
  if accommodation_ok u p
  then add_max 5 (append (py "University accommodation available") (add_score 5 st))
  else st.

Definition initial : state :=
  {| score := 0; reasons := []; max_possible_score := 0 |}.

(** The state after the last criterion. *)
Definition criteria (u : University) (p : UserProfile) : state :=
  accommodation_step u p
    (climate_step u p
       (language_step u p
          (location_step u p
             (ranking_step u p
                (cost_step u p
                   (safety_step u p
                      (life_step u p
                         (diversity_step u p
                            (research_step u p
                               (academic_step u p initial)))))))))).

Definition calculate_match_score (u : University) (p : UserProfile) : Q * list str :=
  let st := criteria u p in
  let final_score :=
    if Qltb0 (max_possible_score st)
    then (score st / max_possible_score st * 100)%Q
    else 0%Q in
  (Qmin final_score 100, reasons st).

End Recommendations.

(** ** Notions used in the statements *)

Module Notions.

(** The longest prefix made of characters of a class, and what follows it. *)
Fixpoint take_class (p : ascii -> bool) (s : str) : str :=
  match s with
  | c :: t => if p c then c :: take_class p t else []
  | [] => []
  end.
Fixpoint drop_class (p : ascii -> bool) (s : str) : str :=
  match s with
  | c :: t => if p c then drop_class p t else s
  | [] => []
  end.

Definition all_in (p : ascii -> bool) (s : str) : Prop := Forall (fun c => p c = true) s.
Definition none_in (p : ascii -> bool) (s : str) : Prop := Forall (fun c => p c = false) s.

(** The characters of the QS rank notations. *)
Definition rank_char (c : ascii) : bool := (is_digit c || any_of "=+-" c)%bool.

(** The continuation that ends a match. *)
Definition k_rest : K := fun _ r' => Some r'.

(** Column labels that end in neither of the merge suffixes. *)
Definition has_suffix (s k : string) : bool := is_prefix (rev (py s)) (rev (py k)).
Definition plain_label (c : string) : bool :=
  (negb (has_suffix "_qs" c) && negb (has_suffix "_feedback" c))%bool.
Definition plain_labels (cols : list string) : Prop :=
  Forall (fun c => plain_label c = true) cols.

(** One turn of the coalescing loop on one row of a frame with the labels
    [cols]. *)
Definition coalesce_row (cols : list string) (col : string)
  (r : gmap string Integrator.cell) : gmap string Integrator.cell :=
  if Integrator.has_column (col ++ "_feedback") cols
  then Integrator.assign_row col (Integrator.filled cols col) r
  else r.

(** The subjective metrics of the feedback source, those the merge
    coalesces and those it does not. *)
Definition coalesced_metrics : list string := ["academic_rigor"; "cultural_diversity"].
Definition uncoalesced_metrics : list string := ["student_life"; "campus_safety"; "openness"].
Definition feedback_metrics : list string := coalesced_metrics ++ uncoalesced_metrics.

(** The row [merge_data_sources] builds from the primary row [l] and a
    secondary row [r] matched to it. *)
Definition merged_row `{Fuzz} (feedback_df qs_df : Integrator.DataFrame)
  (l r : gmap string Integrator.cell) : gmap string Integrator.cell :=
  let matches := Integrator.frame_matches feedback_df qs_df in
  let with_names := Integrator.with_match matches feedback_df in
  let merged_df :=
    Integrator.merge_left qs_df with_names "standardized_name" "qs_match_name"
      ("_qs", "_feedback")%string in
  let partner :=
    Integrator.assign_row "qs_match_name"
      (fun r => Integrator.Text <$>
                  matches !! Integrator.text_of (r !! "standardized_name"%string)) r in
  coalesce_row (Integrator.columns (Integrator.coalesce merged_df "academic_rigor"))
    "cultural_diversity"
    (coalesce_row (Integrator.columns merged_df) "academic_rigor"
       (Integrator.join_row qs_df with_names ("_qs", "_feedback")%string l (Some partner))).

(** What [re.sub(r'\s+', ' ', s)] computes: every run of white space
    becomes one space; [in_run] tells whether the previous character was
    white space. *)
Fixpoint squeeze (in_run : bool) (s : str) : str :=
  match s with
  | [] => []
  | c :: t =>
      if is_space c
      then (if in_run then squeeze true t else " "%char :: squeeze true t)
      else c :: squeeze false t
  end.

(** Text whose white space is single spaces between other characters;
    [after_space] tells whether the previous character was a space (or the
    text starts here). *)
Fixpoint tidy_from (after_space : bool) (s : str) : bool :=
  match s with
  | [] => negb after_space
  | c :: t =>
      if is_space c
      then (negb after_space && eqc c " " && tidy_from true t)%bool
      else tidy_from false t
  end.
Definition tidy (s : str) : bool :=
  match s with
  | [] => true
  | _ => tidy_from true s
  end.

(** No two capital letters in a row; [after_upper] tells whether the
    previous character was a capital. *)
Fixpoint no_capital_pair (after_upper : bool) (s : str) : bool :=
  match s with
  | [] => true
  | c :: t => (negb (after_upper && is_upper c) && no_capital_pair (is_upper c) t)%bool
  end.

(** A name cache that holds only results of the cleaning itself. *)
Definition consistent (cache : gmap str str) : Prop :=
  forall k v, cache !! k = Some v -> v = Cleaner.clean_name_uncached k.

(** The character [str.title] writes for [c]. *)
Definition titled (prev_cased : bool) (c : ascii) : ascii :=
  if is_alpha c then (if prev_cased then lower_c c else upper_c c) else c.

(** The first character of a text is not white space. *)
Definition starts_clean (s : str) : Prop :=
  match s with
  | [] => True
  | c :: _ => is_space c = false
  end.

(** What is left to read ends well: it is empty outside a run of white
    space, or its last character is not white space. *)
Definition ends_clean (in_run : bool) (s : str) : Prop :=
  match s with
  | [] => in_run = false
  | _ => starts_clean (rev s)
  end.

(** A word: not empty and free of white space. *)
Definition is_word_text (w : str) : Prop := w <> [] /\ none_in is_space w.

(** The casing of a word that is not the first one. *)
Definition later_word (word : str) : str :=
  if Cleaner.in_words (lower word) Cleaner.lowercase_words then lower word else capitalize word.

(** A number of digits that [int()] converts. *)
Definition convertible `{Interpreter} (digits : nat) : Prop :=
  int_max_str_digits = 0%nat \/ (digits <= int_max_str_digits)%nat.

(** A cell whose text [int()] can convert whatever digits it holds: a null,
    or a string within the limit. *)
Definition readable `{Interpreter} (v : option str) : Prop :=
  match v with
  | Some s => convertible (length s)
  | None => True
  end.

(** The number a string of decimal digits denotes. *)
Definition digits_value (d : str) : Z :=
  fold_left (fun acc c => acc * 10 + digit_val c) d 0.

(** The rank notations of the QS table: a number [d], a tie "=d", an open
    band "d+" and a band "d-e". *)
Inductive qs_rank_text (d : str) : str -> Prop :=
| rank_plain : qs_rank_text d d
| rank_tied : qs_rank_text d (py "=" ++ d)
| rank_open : qs_rank_text d (d ++ py "+")
| rank_band (e : str) : all_in is_digit e -> qs_rank_text d (d ++ py "-" ++ e).

End Notions.
Import Notions.

(** ** Example data *)

Module Fixtures.

(** Two rows of one duplicate cluster. *)
Definition blank_row : Cleaner.Row :=
  {| Cleaner.text := fun _ => None; Cleaner.metric := fun _ => None;
     Cleaner.rank := fun _ => None; Cleaner.score := fun _ => None;
     Cleaner.response_count := None |}.

Definition munich_a : Cleaner.Row :=
  {| Cleaner.text := fun f => match f with
                               | Cleaner.name => Some (py "Tu Munich")
                               | Cleaner.country => Some (py "Germany")
                               | _ => None
                               end;
     Cleaner.metric := fun _ => None;
     Cleaner.rank := fun f => match f with
                               | Cleaner.qs_rank => Some 37
                               | Cleaner.us_news_rank => Some 50
                               | _ => None
                               end;
     Cleaner.score := fun _ => None;
     Cleaner.response_count := Some 3 |}.

Definition munich_b : Cleaner.Row :=
  {| Cleaner.text := fun f => match f with
                               | Cleaner.name => Some (py "Technical University Munich")
                               | Cleaner.country => Some (py "Germany")
                               | _ => None
                               end;
     Cleaner.metric := fun _ => None;
     Cleaner.rank := fun f => match f with
                               | Cleaner.qs_rank => Some 30
                               | Cleaner.us_news_rank => Some 20
                               | _ => None
                               end;
     Cleaner.score := fun _ => None;
     Cleaner.response_count := Some 4 |}.

(** A university in an arid climate without accommodation, and a profile
    that asks for a tropical climate and for accommodation. *)
Definition arid_university : Recommendations.University :=
  {| Recommendations.academic_rigor := Some 8%Q;
     Recommendations.research_quality := None;
     Recommendations.cultural_diversity := None;
     Recommendations.student_life := None;
     Recommendations.campus_safety := None;
     Recommendations.tuition_international := None;
     Recommendations.qs_rank := None;
     Recommendations.country := Some (py "Chile");
     Recommendations.languages_of_instruction := None;
     Recommendations.climate_type := Some (py "arid");
     Recommendations.accommodation_available := Some false |}.

Definition tropical_profile : Recommendations.UserProfile :=
  {| Recommendations.academic_importance := 5;
     Recommendations.research_importance := 3;
     Recommendations.cultural_diversity_importance := 3;
     Recommendations.student_life_importance := 3;
     Recommendations.campus_safety_importance := 4;
     Recommendations.max_tuition_budget := None;
     Recommendations.cost_importance := 3;
     Recommendations.preferred_countries := Some [];
     Recommendations.preferred_climate := Some (py "tropical");
     Recommendations.language_requirements := Some [];
     Recommendations.accommodation_required := Some true;
     Recommendations.ranking_importance := 3;
     Recommendations.min_acceptable_rank := None |}.

(** A similarity table: equal texts score 100 on every measure, a listed
    pair scores as listed, any other pair scores 0. *)
Definition scores := (Z * Z * Z * Z)%type.

Fixpoint listed (table : list (string * string * scores)) (a b : str) : option scores :=
  match table with
  | [] => None
  | (x, y, s) :: rest =>
      if (str_eqb a (py x) && str_eqb b (py y))%bool then Some s else listed rest a b
  end.

Definition measure (table : list (string * string * scores)) (pick : scores -> Z)
  (a b : str) : Z :=
  if str_eqb a b then 100
  else match listed table a b with
       | Some s => pick s
       | None => 0
       end.

Definition table_fuzz (table : list (string * string * scores)) : Fuzz :=
  {| ratio := measure table (fun '(r, _, _, _) => r);
     partial_ratio := measure table (fun '(_, p, _, _) => p);
     token_sort_ratio := measure table (fun '(_, _, s, _) => s);
     token_set_ratio := measure table (fun '(_, _, _, t) => t) |}.

(** A misspelt feedback name next to the QS name (the four measures of
    thefuzz on this pair are 94 each), and a pair that scores exactly
    0.3 * 70 + 0.2 * 95 + 0.25 * 80 + 0.25 * 80 = 80. *)
Definition example_scores : list (string * string * scores) :=
  [ ("harvard univeristy", "harvard university", (94, 94, 94, 94));
    ("kyoto imperial university", "kyoto university", (70, 95, 80, 80)) ].

Definition example_fuzz : Fuzz := table_fuzz example_scores.

(** A QS frame with one university and a feedback frame with two spellings
    of its name. *)
Definition text_row (cells : list (string * string)) : gmap string Integrator.cell :=
  list_to_map (map (fun '(c, v) => (c, Integrator.Text (py v))) cells).

Definition harvard_qs : Integrator.DataFrame :=
  {| Integrator.columns :=
       ["institution_name"; "standardized_name"; "country"; "clean_rank"];
     Integrator.rows :=
       [ <["clean_rank" := Integrator.Num 4]>
           (text_row [("institution_name", "Harvard University");
                      ("standardized_name", "Harvard University");
                      ("country", "United States")]) ] |}.

Definition harvard_feedback : Integrator.DataFrame :=
  {| Integrator.columns := ["standardized_name"; "academic_rigor"; "response_count"];
     Integrator.rows :=
       [ <["academic_rigor" := Integrator.Num 9]>
           (<["response_count" := Integrator.Num 3]>
              (text_row [("standardized_name", "Harvard University")]));
         <["academic_rigor" := Integrator.Num 8]>
           (<["response_count" := Integrator.Num 1]>
              (text_row [("standardized_name", "Harvard Univeristy")])) ] |}.

(** Frames that both carry [academic_rigor] and [student_life]. *)
Definition toronto_qs_row : gmap string Integrator.cell :=
  <["clean_rank" := Integrator.Num 21]>
    (<["academic_rigor" := Integrator.Num 7]>
       (<["student_life" := Integrator.Num 6]>
          (text_row [("standardized_name", "University of Toronto")]))).

Definition toronto_feedback_row : gmap string Integrator.cell :=
  <["academic_rigor" := Integrator.Num (17 # 2)]>
    (<["student_life" := Integrator.Num 9]>
       (text_row [("standardized_name", "University of Toronto")])).

Definition toronto_qs : Integrator.DataFrame :=
  {| Integrator.columns :=
       ["standardized_name"; "clean_rank"; "academic_rigor"; "student_life"];
     Integrator.rows := [toronto_qs_row] |}.

Definition toronto_feedback : Integrator.DataFrame :=
  {| Integrator.columns := ["standardized_name"; "academic_rigor"; "student_life"];
     Integrator.rows := [toronto_feedback_row] |}.

(** A stand-in for [float]: it reads unsigned whole numbers only. *)
Definition whole_floats : PyFloat :=
  {| float := Q;
     float_of_str := fun s =>
       match s with
       | [] => None
       | _ => if forallb is_digit s then Some (inject_Z (digits_value s)) else None
       end;
     float_div10 := fun q => (q / 10)%Q |}.

End Fixtures.

(** ** Notions of the score bounds *)

Module ScoreNotions.
Import Recommendations.

(** A metric of the 0-10 scale, or null. *)
Definition rated (v : option Q) : Prop :=
  match v with
  | Some q => (0 <= q /\ q <= 10)%Q
  | None => True
  end.

Definition metrics_in_range (u : University) : Prop :=
  rated (academic_rigor u) /\ rated (research_quality u) /\
  rated (cultural_diversity u) /\ rated (student_life u) /\ rated (campus_safety u).

(** What the field constraints of [UserProfile] leave: importances that are
    not negative and a budget that is not negative. *)
Definition validated (p : UserProfile) : Prop :=
  0 <= academic_importance p /\ 0 <= research_importance p /\
  0 <= cultural_diversity_importance p /\ 0 <= student_life_importance p /\
  0 <= campus_safety_importance p /\ 0 <= cost_importance p /\
  0 <= ranking_importance p /\
  match max_tuition_budget p with
  | Some b => (0 <= b)%Q
  | None => True
  end.

(** The score gathered so far is a share of the weight gathered so far. *)
Definition share (st : state) : Prop :=
  (0 <= score st /\ score st <= max_possible_score st)%Q.

End ScoreNotions.
Import ScoreNotions.

(** ** Notions of the merged frame *)

Module MergeNotions.
Import Integrator.

(** The row [merge_data_sources] builds from a primary row [l] that no
    secondary row is matched to. *)
Definition unmatched_row `{Fuzz} (feedback_df qs_df : DataFrame)
  (l : gmap string cell) : gmap string cell :=
  let matches := frame_matches feedback_df qs_df in
  let with_names := with_match matches feedback_df in
  let merged_df :=
    merge_left qs_df with_names "standardized_name" "qs_match_name"
      ("_qs", "_feedback")%string in
  coalesce_row (columns (coalesce merged_df "academic_rigor")) "cultural_diversity"
    (coalesce_row (columns merged_df) "academic_rigor"
       (join_row qs_df with_names ("_qs", "_feedback")%string l None)).

(** The secondary rows that are matched to the QS name [key]. *)
Definition matched_to `{Fuzz} (feedback_df qs_df : DataFrame) (key : str)
  : list (gmap string cell) :=
  List.filter
    (fun r => bool_decide
                (frame_matches feedback_df qs_df !! text_of (r !! "standardized_name"%string)
                 = Some key))
    (rows feedback_df).

(** Every primary row carries a name, and no two secondary rows are matched
    to the same QS name. *)
Definition named (df : DataFrame) : Prop :=
  Forall (fun l => exists key, l !! "standardized_name"%string = Some (Text key)) (rows df).

End MergeNotions.
Import MergeNotions.

(** ** What [update_database] writes *)

Module Database.
Import Integrator.

(** [row.get(key, default)] on a row of a frame with the labels [cols]: the
    cell, null or not, when the frame has the column, else the default. *)
Definition row_get (cols : list string) (row : gmap string cell) (key : string)
  (default : option cell) : option cell :=
  if has_column key cols then row !! key else default.

(** The record [update_database] inserts for one row of the merged frame:
    the parameters of its INSERT statement. *)
Record inserted : Type := {
  ins_name : option cell;
  ins_city : option cell;
  ins_country : option cell;
  ins_qs_rank : option cell;
  ins_overall_quality : option cell;
  ins_academic_rigor : option cell;
  ins_openness : option cell;
  ins_cultural_diversity : option cell;
  ins_student_life : option cell;
  ins_campus_safety : option cell;
  ins_accommodation : option cell;
  ins_language : option cell;
  ins_language_classes : option cell;
  ins_accessibility : option cell;
  ins_response_count : option cell
}.

Definition insert_parameters (cols : list string) (row : gmap string cell) : inserted :=
  let get := row_get cols row in
  {| ins_name := get "standardized_name" (get "institution_name" (Some (Text (py ""))));
     ins_city := get "city" (Some (Text (py "")));
     ins_country := get "country" (Some (Text (py "")));
     ins_qs_rank := get "clean_rank" None;
     ins_overall_quality := get "overall_quality" None;
     ins_academic_rigor := get "academic_rigor" None;
     ins_openness := get "openness" None;
     ins_cultural_diversity := get "cultural_diversity" None;
     ins_student_life := get "student_life" None;
     ins_campus_safety := get "campus_safety" None;
     ins_accommodation := get "accommodation" None;
     ins_language := get "language" None;
     ins_language_classes := get "language_classes" None;
     ins_accessibility := get "accessibility" None;
     ins_response_count := get "response_count" (Some (Num 0)) |}.

(** The rows [update_database] inserts for a merged frame, in order. *)
Definition inserted_rows (merged_df : DataFrame) : list inserted :=
  map (insert_parameters (columns merged_df)) (rows merged_df).

End Database.

(** ** data_cleaner.py: clamping and validation

    The steps of [clean_dataset] that work on the parsed columns, on the
    rows of the cleaned data set. *)

Module Validation.
Import Cleaner.

Definition notna {A} (x : option A) : bool :=
  match x with Some _ => true | None => false end.
Definition isna {A} (x : option A) : bool := negb (notna x).

Definition Qlt_bool (a b : Q) : bool := negb (Qle_bool b a).

(** [max(a, b)] and [min(a, b)]: the first argument, unless the second is
    greater (smaller). *)
Definition py_max (a b : Q) : Q := if Qlt_bool a b then b else a.
Definition py_min (a b : Q) : Q := if Qlt_bool b a then b else a.

(** [lambda x: min(10, max(0, x)) if pd.notna(x) else x] *)
Definition clamp (x : option Q) : option Q :=
  match x with
  | Some v => Some (py_min 10 (py_max 0 v))
  | None => None
  end.

Definition clamped_columns : list numeric_field :=
  [academic_rigor; student_life; cultural_diversity; campus_safety].

(** The second step of [_clean_scores] on one row: the four metrics are
    brought into the 0-10 range. *)
Definition clamp_metrics (r : Row) : Row :=
  {| text := text r;
     metric := fun f => if bool_decide (f ∈ clamped_columns) then clamp (metric r f)
                        else metric r f;
     rank := rank r; score := score r; response_count := response_count r |}.

(** Comparisons of a column with a number: false on a null. *)
Definition rank_le (x : option Z) (k : Z) : bool :=
  match x with Some v => v <=? k | None => false end.
Definition metric_lt (x : option Q) (k : Q) : bool :=
  match x with Some v => Qlt_bool v k | None => false end.
Definition metric_gt (x : option Q) (k : Q) : bool :=
  match x with Some v => Qlt_bool k v | None => false end.

(** [df.dropna(subset=['name', 'country'])] *)
Definition has_name_and_country (r : Row) : bool :=
  (notna (text r name) && notna (text r country))%bool.

(** [~((df[col] <= 0) & df[col].notna())] *)
Definition rank_mask (col : ranking_field) (r : Row) : bool :=
  negb (rank_le (rank r col) 0 && notna (rank r col)).

(** [~((df[col] < 0) | (df[col] > 10)) | df[col].isna()] *)
Definition metric_mask (col : numeric_field) (r : Row) : bool :=
  (negb (metric_lt (metric r col) 0 || metric_gt (metric r col) 10)
   || isna (metric r col))%bool.

(** [~df['name'].str.len() < 3]: [~] binds tighter than [<], so this is the
    bitwise complement of the length compared with 3.  (A null name does
    not reach this test.) *)
Definition length_mask (r : Row) : bool :=
  match text r name with
  | Some n => Z.lnot (Z.of_nat (length n)) <? 3
  | None => false
  end.

(** [^\d+$] *)
Definition number_pattern : re := seqs [Bol; Plus is_digit; Eol].

(** [~df['name'].str.contains(r'^\d+$', na=False)] *)
Definition number_mask (r : Row) : bool :=
  negb match text r name with
       | Some n => notna (search number_pattern n)
       | None => false
       end.

Definition validated_ranks : list ranking_field := [qs_rank; the_rank; arwu_rank].
Definition validated_metrics : list numeric_field :=
  [academic_rigor; student_life; cultural_diversity; campus_safety].

(** [_validate_data]; a column the frame lacks is null in every row, and a
    null passes the test of its column. *)
Definition _validate_data (df : list Row) : list Row :=
  let df := List.filter has_name_and_country df in
  let df := fold_left (fun df col => List.filter (rank_mask col) df) validated_ranks df in
  let df := fold_left (fun df col => List.filter (metric_mask col) df) validated_metrics df in
  let df := List.filter length_mask df in
  List.filter number_mask df.

(** A name that is a number: digits only, with at most a final newline. *)
Definition numeral (n : str) : Prop :=
  exists d, d <> [] /\ all_in is_digit d /\ (n = d \/ n = d ++ [ascii_of_N 10]).

(** The other tests of the validation, as properties of a row. *)
Definition named_row (r : Row) : Prop :=
  exists n c, text r name = Some n /\ text r country = Some c /\ ~ numeral n.
Definition ranks_positive (r : Row) : Prop :=
  forall col v, In col validated_ranks -> rank r col = Some v -> 0 < v.
Definition metrics_rated (r : Row) : Prop :=
  forall col v, In col validated_metrics -> metric r col = Some v -> (0 <= v /\ v <= 10)%Q.

End Validation.

(** ** data_cleaner.py: the name column *)

Module NameColumn.
Import Cleaner.

(** [df['name'].apply(self.clean_university_name)]: the cells are cleaned
    in order, each call seeing the cache the calls before it left. *)
Fixpoint clean_names (cache : gmap str str) (column : list (option str))
  : list str * gmap str str :=
  match column with
  | [] => ([], cache)
  | cell :: rest =>
      let '(cleaned, cache) := clean_university_name cache cell in
      let '(others, cache) := clean_names cache rest in
      (cleaned :: others, cache)
  end.

(** What [clean_university_name] returns for a cell when nothing is
    cached. *)
Definition clean_cell (cell : option str) : str :=
  match cell with
  | Some s => clean_name_uncached s
  | None => []
  end.

End NameColumn.

(** ** More example data *)

Module ClusterFixtures.
Import Cleaner.

(** Two rows of one university with different ratings. *)
Definition rated_row (rigor life : Q) : Row :=
  {| text := fun f => match f with
                      | name => Some (py "University of Oxford")
                      | country => Some (py "United Kingdom")
                      | _ => None
                      end;
     metric := fun f => match f with
                        | academic_rigor => Some rigor
                        | student_life => Some life
                        | _ => None
                        end;
     rank := fun _ => None;
     score := fun _ => None;
     response_count := None |}.

Definition oxford_a : Row := rated_row 8 6.
Definition oxford_b : Row := rated_row 9 (15 # 2).

End ClusterFixtures.

(** ** data_cleaner.py: duplicate clusters

    [_handle_duplicates] on the rows of a frame with the default index: a
    frame is the list of its rows, each with its index label. *)

Module Duplicates.
Import Cleaner.

(** [df.loc[label]]; [None] is the [KeyError] of a label the frame lacks. *)
Definition lookup_row (df : list (nat * Row)) (label : nat) : option Row :=
  snd <$> List.find (fun entry => (fst entry =? label)%nat) df.

(** [df.at[label, col] = row[col]] for every column [col]. *)
Definition set_row (df : list (nat * Row)) (label : nat) (row : Row) : list (nat * Row) :=
  map (fun entry => if (fst entry =? label)%nat then (label, row) else entry) df.

(** [df.drop(labels)], for labels of the frame. *)
Definition drop_rows (df : list (nat * Row)) (labels : list nat) : list (nat * Row) :=
  List.filter (fun entry => negb (existsb (Nat.eqb (fst entry)) labels)) df.

(** A frame with the default index [0 .. n-1]. *)
Definition indexed (rows : list Row) : list (nat * Row) :=
  combine (seq 0 (length rows)) rows.

Section Grouping.
Context `{Fuzz}.

(** [other_row['country'] == country and
     fuzz.ratio(name.lower(), other_row['name'].lower()) > 85];
    [None] is the [AttributeError] of [.lower()] on a null name, which is
    reached when the countries are equal.  A null country equals nothing. *)
Definition similar (row other_row : Row) : option bool :=
  match text other_row country, text row country with
  | Some other_country, Some c =>
      if str_eqb other_country c
      then match text row name, text other_row name with
           | Some n, Some other_name => Some (85 <? ratio (lower n) (lower other_name))
           | _, _ => None
           end
      else Some false
  | _, _ => Some false
  end.

(** The inner loop: the labels of the rows similar to [row], among the
    rows that are not processed and are not the row itself. *)
Fixpoint similar_indices (processed : gset nat) (idx : nat) (row : Row)
  (df : list (nat * Row)) : option (list nat) :=
  match df with
  | [] => Some []
  | (other_idx, other_row) :: rest =>
      if (bool_decide (other_idx ∈ processed) || (other_idx =? idx)%nat)%bool
      then similar_indices processed idx row rest
      else
        match similar row other_row with
        | None => None
        | Some is_similar =>
            match similar_indices processed idx row rest with
            | None => None
            | Some found => Some (if is_similar then other_idx :: found else found)
            end
        end
  end.

(** One turn of the outer loop; the state is [(duplicates, processed)]. *)
Definition group_row (df : list (nat * Row)) (state : list (list nat) * gset nat)
  (entry : nat * Row) : option (list (list nat) * gset nat) :=
  let '(duplicates, processed) := state in
  let '(idx, row) := entry in
  if bool_decide (idx ∈ processed) then Some state
  else
    match similar_indices processed idx row df with
    | None => None
    | Some [] => Some (duplicates, {[idx]} ∪ processed)
    | Some similar_found =>
        let group := idx :: similar_found in
        Some (duplicates ++ [group], list_to_set group ∪ processed)
    end.

Fixpoint group_rows (df : list (nat * Row)) (state : list (list nat) * gset nat)
  (todo : list (nat * Row)) : option (list (list nat) * gset nat) :=
  match todo with
  | [] => Some state
  | entry :: rest =>
      match group_row df state entry with
      | None => None
      | Some state => group_rows df state rest
      end
  end.

(** The list [duplicates] after the first loop. *)
Definition find_duplicates (df : list (nat * Row)) : option (list (list nat)) :=
  fst <$> group_rows df ([], ∅) df.

(** A cluster of a frame: a row, and rows after it in the frame that are
    similar to it. *)
Definition cluster (df : list (nat * Row)) (group : list nat) : Prop :=
  exists before idx row after found,
    df = before ++ (idx, row) :: after /\ group = idx :: found /\ found <> [] /\
    forall j, In j found -> exists r, In (j, r) after /\ similar row r = Some true.

(** The test of the inner loop on one entry of the frame. *)
Definition joins (processed : gset nat) (idx : nat) (row : Row) (entry : nat * Row) : bool :=
  (negb (bool_decide (fst entry ∈ processed) || (fst entry =? idx)%nat)
   && bool_decide (similar row (snd entry) = Some true))%bool.

(** The state of the outer loop once the rows [done] are behind it: the
    groups are clusters that share no row, and the processed labels are
    those of the rows behind and of the groups. *)
Definition grouped (df done : list (nat * Row)) (state : list (list nat) * gset nat) : Prop :=
  Forall (cluster df) (fst state) /\
  NoDup (concat (fst state)) /\
  forall i, i ∈ snd state <-> In i (map fst done) \/ In i (concat (fst state)).

End Grouping.

(** One turn of the second loop: the group is merged into its first row
    and its other rows are dropped. *)
Definition merge_group (df : list (nat * Row)) (duplicate_group : list nat)
  : option (list (nat * Row)) :=
  match mapM (lookup_row df) duplicate_group with
  | None => None
  | Some members =>
      match _merge_duplicate_rows members, duplicate_group with
      | Some merged_row, first_idx :: others =>
          Some (drop_rows (set_row df first_idx merged_row) others)
      | _, _ => None
      end
  end.

Fixpoint merge_groups (df : list (nat * Row)) (duplicates : list (list nat))
  : option (list (nat * Row)) :=
  match duplicates with
  | [] => Some df
  | duplicate_group :: rest =>
      match merge_group df duplicate_group with
      | None => None
      | Some df => merge_groups df rest
      end
  end.

(** [_handle_duplicates]; [None] when an exception is raised. *)
Definition _handle_duplicates `{Fuzz} (rows : list Row) : option (list Row) :=
  let df := indexed rows in
  match find_duplicates df with
  | None => None
  | Some duplicates =>
      match merge_groups df duplicates with
      | None => None
      | Some df => Some (map snd df)
      end
  end.

(** The rows a group drops. *)
Definition dropped (duplicates : list (list nat)) : nat :=
  fold_right (fun group total => (length (tail group) + total)%nat) 0%nat duplicates.

(** Rows whose name and country are strings, as the cleaning of the three
    text columns leaves them. *)
Definition has_texts (r : Row) : Prop :=
  text r name <> None /\ text r country <> None.

End Duplicates.

Module DuplicateFixtures.
Import Cleaner.

Definition spelt (n c : string) (qs : option Z) : Row :=
  {| text := fun f => match f with
                      | name => Some (py n)
                      | country => Some (py c)
                      | _ => None
                      end;
     metric := fun _ => None;
     rank := fun f => match f with qs_rank => qs | _ => None end;
     score := fun _ => None;
     response_count := None |}.

(** Two spellings of one name (a ratio of 97), and another university. *)
Definition frame : list Row :=
  [ spelt "University of Oxford" "United Kingdom" (Some 5);
    spelt "Kyoto University" "Japan" (Some 46);
    spelt "Universty of Oxford" "United Kingdom" (Some 3) ].

Definition spelling_fuzz : Fuzz :=
  Fixtures.table_fuzz
    [ ("university of oxford", "universty of oxford", (97, 97, 97, 97));
      ("universty of oxford", "university of oxford", (97, 97, 97, 97)) ].

End DuplicateFixtures.

(** ** Texts that differ in case only *)

Module CaseNotions.

(** Text of the ASCII range, on which the string operations of [PyStr] and
    the classes of [Re] are those of Python. *)
Definition ascii_text (s : str) : Prop := Forall (fun c => (code c < 128)%N) s.

(** Two characters that differ at most in case. *)
Definition same_letter (a b : ascii) : Prop := lower_c a = lower_c b.

(** A class that takes related characters alike. *)
Definition respects (R : ascii -> ascii -> Prop) (p : ascii -> bool) : Prop :=
  forall a b, R a b -> p a = p b.

(** Patterns without [^] whose classes take related characters alike. *)
Inductive blind (R : ascii -> ascii -> Prop) : re -> Prop :=
| blind_eps : blind R Eps
| blind_chr (p : ascii -> bool) : respects R p -> blind R (Chr p)
| blind_seq (a b : re) : blind R a -> blind R b -> blind R (Seq a b)
| blind_opt (a : re) : blind R a -> blind R (Opt a)
| blind_star (p : ascii -> bool) : respects R p -> blind R (Star p)
| blind_eol : blind R Eol
| blind_wordb : blind R Wordb
| blind_ahead (a : re) : blind R a -> blind R (Ahead a).

(** Both results are a failure, or neither is. *)
Definition alike {A : Type} (x y : option A) : Prop :=
  x = None <-> y = None.

(** Two positions with a word character before both or before neither. *)
Definition same_edge (p p' : option ascii) : Prop := word_opt p = word_opt p'.

(** Two continuations that fail together on related texts. *)
Definition k_alike (R : ascii -> ascii -> Prop) (k k' : K) : Prop :=
  forall q q' t t', same_edge q q' -> Forall2 R t t' -> alike (k q t) (k' q' t').

(** The text begins with the word "the", in any casing, and white space. *)
Definition starts_with_the (x : str) : bool :=
  match x with
  | a :: b :: c :: d :: _ => (str_eqb (lower [a; b; c]) (py "the") && is_space d)%bool
  | _ => false
  end.

(** [^The\s+], the last rewriting step of [clean_university_name]. *)
Definition leading_the : re := seqs [Bol; Lit "The"; Plus is_space].

(** The alias values that [str.title] changes. *)
Definition recased_aliases : list str :=
  map py ["Republic of Korea"; "Democratic People's Republic of Korea";
          "Islamic Republic of Iran"; "Democratic Republic of the Congo"].

End CaseNotions.

(** ** Patterns that start a word with the letter U *)

Module CountryPatterns.

(** The letter U, in either case. *)
Definition ulike (c : ascii) : bool := chr_ci "U" c.

(** Patterns without [^] whose classes reject the letter U. *)
Inductive ufree : re -> Prop :=
| ufree_eps : ufree Eps
| ufree_chr (p : ascii -> bool) : (forall c, ulike c = true -> p c = false) -> ufree (Chr p)
| ufree_seq (a b : re) : ufree a -> ufree b -> ufree (Seq a b)
| ufree_opt (a : re) : ufree a -> ufree (Opt a)
| ufree_star (p : ascii -> bool) : (forall c, ulike c = true -> p c = false) -> ufree (Star p)
| ufree_eol : ufree Eol
| ufree_wordb : ufree Wordb
| ufree_ahead (a : re) : ufree a -> ufree (Ahead a).

(** Patterns that read the letter U first and never again. *)
Inductive uhead : re -> Prop :=
| uhead_chr : uhead (Chr (chr_ci "U"))
| uhead_seq (a b : re) : uhead a -> ufree b -> uhead (Seq a b).

(** [\bU...]: the letter U at the start of a word, and no other U. *)
Inductive ustart : re -> Prop :=
| ustart_word (r : re) : uhead r -> ustart (Seq Wordb r).

(** Two texts that agree up to a place where both go on with the letter
    U. *)
Inductive cut : str -> str -> Prop :=
| cut_nil : cut [] []
| cut_same (c : ascii) (t t' : str) : cut t t' -> cut (c :: t) (c :: t')
| cut_u (a a' : ascii) (t t' : str) :
    ulike a = true -> ulike a' = true -> cut (a :: t) (a' :: t').

(** Patterns whose classes accept characters of [P] only. *)
Inductive classes_in (P : ascii -> Prop) : re -> Prop :=
| in_eps : classes_in P Eps
| in_chr (p : ascii -> bool) : (forall c, p c = true -> P c) -> classes_in P (Chr p)
| in_seq (a b : re) : classes_in P a -> classes_in P b -> classes_in P (Seq a b)
| in_opt (a : re) : classes_in P a -> classes_in P (Opt a)
| in_star (p : ascii -> bool) : (forall c, p c = true -> P c) -> classes_in P (Star p)
| in_bol : classes_in P Bol
| in_eol : classes_in P Eol
| in_wordb : classes_in P Wordb
| in_ahead (a : re) : classes_in P (Ahead a).

(** The head of a text is not the letter U. *)
Definition no_u_head (s : str) : Prop :=
  match s with
  | c :: _ => ulike c = false
  | [] => True
  end.

(** Two continuations that fail together on texts that agree up to a U. *)
Definition k_cut (k k' : K) : Prop :=
  forall q t t', cut t t' -> CaseNotions.alike (k q t) (k' q t').

(** A pattern of the table of [clean_country_name]: it starts a word with
    U, does not match at the start of "Un..." and reads no white space. *)
Definition standard_pattern (q : re) : Prop :=
  ustart q /\
  (forall prev tail, match_len q prev ("U"%char :: "n"%char :: tail) = None) /\
  classes_in (fun c => is_space c = false) q.

(** A name of that table: it starts with "Un", holds no other U, ends in a
    word character and is tidy. *)
Definition standard_name (r : string) : Prop :=
  exists rep' last,
    py r = "U"%char :: "n"%char :: rep' ++ [last] /\
    Forall (fun c => ulike c = false) ("n"%char :: rep' ++ [last]) /\
    is_word last = true /\
    (forall b rest, tidy_from b (py r ++ rest) = tidy_from false rest).

(** The last character written before a position: that of the text [w]
    just read, or [prev] when [w] is empty. *)
Definition last_of (prev : option ascii) (w : str) : option ascii :=
  match rev w with
  | c :: _ => Some c
  | [] => prev
  end.

End CountryPatterns.

(** * Properties *)

(** ** Characters and strings *)

Section StringFacts.

Lemma eqc_true (a b : ascii) : eqc a b = true <-> a = b.
Proof. unfold eqc. apply Ascii.eqb_eq. Qed.

Lemma str_eqb_true (a b : str) : str_eqb a b = true <-> a = b.
Proof. unfold str_eqb. rewrite bool_decide_eq_true. reflexivity. Qed.

Lemma is_prefix_app (p s : str) :
  is_prefix p s = true <-> exists t, s = p ++ t.
Proof.
  revert s. induction p as [|a p IH]; intros s; simpl.
  - split; [intros _; exists s; reflexivity | reflexivity].
  - destruct s as [|b s].
    + split; [discriminate | intros [t Ht]; discriminate].
    + rewrite andb_true_iff, eqc_true, IH. split.
      * intros [-> [t ->]]. exists t. reflexivity.
      * intros [t Ht]. injection Ht as -> ->. split; [reflexivity | exists t; reflexivity].
Qed.

Lemma contains_app (w s : str) :
  contains w s = true <-> exists a b, s = a ++ w ++ b.
Proof.
  induction s as [|c s IH]; simpl.
  - rewrite orb_false_r, is_prefix_app. split.
    + intros [t Ht]. exists [], t. exact Ht.
    + intros [a [b Hab]]. destruct a; [exists b; exact Hab | discriminate].
  - rewrite orb_true_iff, is_prefix_app, IH. split.
    + intros [[t Ht] | [a [b Hab]]].
      * exists [], t. exact Ht.
      * exists (c :: a), b. rewrite Hab. reflexivity.
    + intros [a [b Hab]]. destruct a as [|x a].
      * left. exists b. exact Hab.
      * right. injection Hab as -> ->. exists a, b. reflexivity.
Qed.

Lemma lower_c_space (c : ascii) : is_space (lower_c c) = is_space c.
Proof.
  destruct c as [[] [] [] [] [] [] [] []]; reflexivity.
Qed.

Lemma lower_app (a b : str) : lower (a ++ b) = lower a ++ lower b.
Proof. apply map_app. Qed.

Lemma lower_rev (s : str) : lower (rev s) = rev (lower s).
Proof. apply map_rev. Qed.

Lemma lower_lstrip (s : str) : lower (lstrip s) = lstrip (lower s).
Proof.
  induction s as [|c s IH]; simpl; [reflexivity|].
  rewrite lower_c_space. destruct (is_space c); [exact IH | reflexivity].
Qed.

Lemma lower_strip (s : str) : lower (strip s) = strip (lower s).
Proof.
  unfold strip, rstrip.
  rewrite lower_rev, lower_lstrip, lower_rev, lower_lstrip. reflexivity.
Qed.

(** Stripping keeps every occurrence of a word that neither starts nor
    ends with white space. *)
Lemma lstrip_keeps (a w b : str) (c : ascii) :
  is_space c = false ->
  exists a', lstrip (a ++ (c :: w) ++ b) = a' ++ (c :: w) ++ b.
Proof.
  intros Hc. induction a as [|x a IH]; simpl.
  - rewrite Hc. exists []. reflexivity.
  - destruct (is_space x).
    + exact IH.
    + exists (x :: a). reflexivity.
Qed.

Lemma contains_lstrip (w s : str) (c : ascii) :
  is_space c = false ->
  contains (c :: w) s = true -> contains (c :: w) (lstrip s) = true.
Proof.
  intros Hc. rewrite !contains_app. intros [a [b ->]].
  destruct (lstrip_keeps a w b c Hc) as [a' Ha']. exists a', b. exact Ha'.
Qed.

Lemma contains_rev (w s : str) :
  contains w s = true -> contains (rev w) (rev s) = true.
Proof.
  rewrite !contains_app. intros [a [b ->]].
  exists (rev b), (rev a). rewrite !rev_app_distr, app_assoc. reflexivity.
Qed.

Lemma contains_strip (w s : str) (c d : ascii) (w' : str) :
  w = c :: w' -> rev w = d :: rev (removelast w) ->
  is_space c = false -> is_space d = false ->
  contains w s = true -> contains w (strip s) = true.
Proof.
  intros Hw Hrev Hc Hd Hs. unfold strip, rstrip.
  rewrite <- (rev_involutive w).
  apply contains_rev. rewrite Hrev. apply contains_lstrip; [exact Hd|].
  rewrite <- Hrev. apply contains_rev.
  rewrite Hw. apply contains_lstrip; [exact Hc|]. rewrite <- Hw. exact Hs.
Qed.

End StringFacts.

(** ** Rank parsing: the not-ranked guard *)

Section NotRanked.
Import Cleaner.
Context {interp : Interpreter}.

Lemma guard_word_strip (w s : str) :
  In w not_ranked_words ->
  contains w (lower s) = true -> contains w (lower (strip s)) = true.
Proof.
  intros Hin Hs. rewrite lower_strip.
  unfold not_ranked_words in Hin. simpl in Hin.
  destruct Hin as [<- | [<- | [<- | [<- | []]]]];
    (eapply contains_strip; [reflexivity | reflexivity | reflexivity | reflexivity | exact Hs]).
Qed.

(** C10. Whenever the lower-cased text of the input contains "not",
    "na", "n/a" or "unranked", [_parse_ranking] returns null, whatever
    digits the input also holds. *)
Theorem parse_ranking_not_ranked_guard (s : str) :
  contains (py "not") (lower s) = true \/
  contains (py "na") (lower s) = true \/
  contains (py "n/a") (lower s) = true \/
  contains (py "unranked") (lower s) = true ->
  _parse_ranking (Some s) = Ret None.
Proof.
  intros Hs. unfold _parse_ranking.
  assert (Hex : existsb (fun word => contains word (lower (strip s))) not_ranked_words = true).
  { apply existsb_exists.
    destruct Hs as [Hs | [Hs | [Hs | Hs]]].
    - exists (py "not"). split; [simpl; tauto | apply guard_word_strip; [simpl; tauto | exact Hs]].
    - exists (py "na"). split; [simpl; tauto | apply guard_word_strip; [simpl; tauto | exact Hs]].
    - exists (py "n/a"). split; [simpl; tauto | apply guard_word_strip; [simpl; tauto | exact Hs]].
    - exists (py "unranked"). split; [simpl; tauto | apply guard_word_strip; [simpl; tauto | exact Hs]]. }
  rewrite Hex. reflexivity.
Qed.

End NotRanked.

Section NotRankedExample.
Import Cleaner.
#[local] Existing Instance cpython.

(** A rank annotated with a country name that contains "na". *)
Lemma parse_ranking_not_ranked_guard_witness :
  _parse_ranking (Some (py "12 (Canada)")) = Ret None.
Proof.
  apply parse_ranking_not_ranked_guard.
  right; left. vm_compute. reflexivity.
Defined.

End NotRankedExample.

(** ** The matcher on the patterns of the parsers *)

Section RegexFacts.

Lemma star_rest (p : ascii -> bool) (prev : option ascii) (s : str) :
  star_m p prev s k_rest = Some (drop_class p s).
Proof.
  revert prev. induction s as [|c t IH]; intros prev; simpl; [reflexivity|].
  destruct (p c); [rewrite IH|]; reflexivity.
Qed.

Lemma take_drop_length (p : ascii -> bool) (s : str) :
  (length s - length (drop_class p s) = length (take_class p s))%nat.
Proof.
  induction s as [|c t IH]; simpl; [reflexivity|].
  destruct (p c); simpl.
  - assert (length (drop_class p t) <= length t)%nat.
    { clear. induction t as [|x t IH]; simpl; [lia|]. destruct (p x); simpl; lia. }
    lia.
  - lia.
Qed.

Lemma firstn_take_class (p : ascii -> bool) (s : str) :
  firstn (length (take_class p s)) s = take_class p s.
Proof.
  induction s as [|c t IH]; simpl; [reflexivity|].
  destruct (p c); simpl; [rewrite IH|]; reflexivity.
Qed.

Lemma take_class_all (p : ascii -> bool) (s : str) : all_in p (take_class p s).
Proof.
  induction s as [|c t IH]; simpl; [constructor|].
  destruct (p c) eqn:E; constructor; assumption.
Qed.

Lemma match_len_plus (p : ascii -> bool) (prev : option ascii) (s : str) :
  match_len (Plus p) prev s =
  match s with
  | c :: t => if p c then Some (S (length (take_class p t))) else None
  | [] => None
  end.
Proof.
  unfold match_len, Plus. simpl. destruct s as [|c t]; [reflexivity|].
  destruct (p c); [|reflexivity].
  change (fun (_ : option ascii) (r' : str) => Some r') with k_rest.
  rewrite star_rest. f_equal.
  pose proof (take_drop_length p t).
  assert (length (drop_class p t) <= length t)%nat.
  { clear. induction t as [|x t IH]; simpl; [lia|]. destruct (p x); simpl; lia. }
  simpl. lia.
Qed.

(** [re.search] for [[class]+]: the first maximal run of the class. *)
Lemma search_plus_run (p : ascii -> bool) (s : str) (prev : option ascii) (g : str) :
  search_from (Plus p) prev s = Some g -> g <> [] /\ all_in p g.
Proof.
  revert prev. induction s as [|c t IH]; intros prev; cbn [search_from].
  - rewrite match_len_plus. discriminate.
  - rewrite match_len_plus. destruct (p c) eqn:E.
    + intros [= <-]. cbn [firstn]. rewrite firstn_take_class. split; [discriminate|].
      constructor; [exact E | apply take_class_all].
    + apply IH.
Qed.

End RegexFacts.

(** ** [int()] on digit strings *)

Section IntFacts.
Context {interp : Interpreter}.

Lemma digit_not_c_space (c : ascii) : is_digit c = true -> is_c_space c = false.
Proof. destruct c as [[] [] [] [] [] [] [] []]; (reflexivity || discriminate). Qed.

Lemma digit_not_sign (c : ascii) :
  is_digit c = true -> N.eqb (code c) 43 = false /\ N.eqb (code c) 45 = false.
Proof. destruct c as [[] [] [] [] [] [] [] []]; (split; reflexivity) || discriminate. Qed.

Lemma digit_val_nonneg (c : ascii) : is_digit c = true -> 0 <= digit_val c.
Proof. destruct c as [[] [] [] [] [] [] [] []]; (discriminate || (intros _; vm_compute; discriminate)). Qed.

Lemma lskip_digit_head (c : ascii) (t : str) :
  is_digit c = true -> lskip (c :: t) = c :: t.
Proof. intros H. simpl. rewrite (digit_not_c_space c H). reflexivity. Qed.

Lemma skip_space_digits (d : str) : all_in is_digit d -> skip_space d = d.
Proof.
  intros Hd. unfold skip_space.
  assert (Hl : lskip d = d).
  { destruct Hd as [|c t Hc _]; [reflexivity | apply lskip_digit_head; exact Hc]. }
  rewrite Hl.
  assert (Hr : lskip (rev d) = rev d).
  { assert (Hrd : all_in is_digit (rev d)) by (apply Forall_rev; exact Hd).
    destruct Hrd as [|c t Hc _]; [reflexivity | apply lskip_digit_head; exact Hc]. }
  rewrite Hr. apply rev_involutive.
Qed.

Lemma int_digits_all (d : str) (acc : Z) (b : bool) :
  all_in is_digit d -> d <> [] ->
  int_digits acc b d = Some (fold_left (fun a c => a * 10 + digit_val c) d acc).
Proof.
  intros Hd. revert acc b. induction Hd as [|c t Hc Ht IH]; intros acc b Hne; [congruence|].
  simpl. rewrite Hc. destruct t as [|c' t'].
  - reflexivity.
  - apply IH. discriminate.
Qed.

Lemma fold_digits_nonneg (d : str) (acc : Z) :
  all_in is_digit d -> 0 <= acc ->
  0 <= fold_left (fun a c => a * 10 + digit_val c) d acc.
Proof.
  intros Hd. revert acc. induction Hd as [|c t Hc Ht IH]; intros acc Hacc; simpl; [exact Hacc|].
  apply IH. pose proof (digit_val_nonneg c Hc). lia.
Qed.

Lemma count_digits_all (d : str) : all_in is_digit d -> count_digits d = length d.
Proof.
  unfold count_digits. induction 1 as [|c t Hc Ht IH]; [reflexivity|].
  cbn [List.filter]. rewrite Hc. cbn [length]. rewrite IH. reflexivity.
Qed.

Lemma within_limit (n k : nat) :
  convertible n -> (k <= n)%nat -> exceeds_limit k = false.
Proof.
  unfold convertible, exceeds_limit. intros [-> | Hn] Hk; [reflexivity|].
  apply andb_false_iff. right. apply Nat.ltb_ge. lia.
Qed.

Lemma py_int_digits (d : str) :
  all_in is_digit d -> d <> [] -> convertible (length d) ->
  py_int d = Ret (digits_value d).
Proof.
  intros Hd Hne Hlim. unfold py_int. rewrite (skip_space_digits d Hd).
  destruct d as [|c t]; [congruence|].
  assert (Hc : is_digit c = true) by (inversion Hd; assumption).
  destruct (digit_not_sign c Hc) as [-> ->].
  rewrite (int_digits_all (c :: t) 0 false Hd Hne).
  rewrite (count_digits_all _ Hd), (within_limit _ _ Hlim (Nat.le_refl _)). reflexivity.
Qed.

Lemma digits_value_nonneg (d : str) : all_in is_digit d -> 0 <= digits_value d.
Proof. intros Hd. apply fold_digits_nonneg; [exact Hd | lia]. Qed.

End IntFacts.

Section Lengths.

Lemma lstrip_length (s : str) : (length (lstrip s) <= length s)%nat.
Proof.
  induction s as [|c t IH]; simpl; [lia|]. destruct (is_space c); simpl; lia.
Qed.

Lemma strip_length (s : str) : (length (strip s) <= length s)%nat.
Proof.
  unfold strip, rstrip. rewrite length_rev.
  pose proof (lstrip_length (rev (lstrip s))) as H1. rewrite length_rev in H1.
  pose proof (lstrip_length s). lia.
Qed.

Lemma before_first_length (c : ascii) (s : str) :
  (length (before_first c s) <= length s)%nat.
Proof.
  induction s as [|x t IH]; simpl; [lia|]. destruct (eqc x c); simpl; lia.
Qed.

(** Deleting the matches of a pattern makes no text longer. *)
Lemma sub_from_length (r : re) (prev : option ascii) (s : str) (n : nat) :
  (length (sub_from r [] prev s n) <= length s)%nat.
Proof.
  revert prev n. induction s as [|c t IH]; intros prev n.
  - destruct n; cbn [sub_from]; [|simpl; lia].
    destruct (match_len r prev []) as [[|k]|]; simpl; lia.
  - destruct n; cbn [sub_from].
    + destruct (match_len r prev (c :: t)) as [[|k]|]; cbn [app length];
        match goal with |- context [sub_from r [] ?p t ?j] => pose proof (IH p j) end; lia.
    + pose proof (IH (Some c) n). simpl. lia.
Qed.

Lemma search_from_length (r : re) (prev : option ascii) (s g : str) :
  search_from r prev s = Some g -> (length g <= length s)%nat.
Proof.
  revert prev. induction s as [|c t IH]; intros prev; cbn [search_from].
  - destruct (match_len r prev []); [|discriminate]. intros [= <-].
    rewrite length_firstn. lia.
  - destruct (match_len r prev (c :: t)).
    + intros [= <-]. rewrite length_firstn. lia.
    + intros Hg. apply IH in Hg. simpl. lia.
Qed.

End Lengths.

(** ** Totality of the parsers *)

Section Totality.
Import Cleaner.
Context {interp : Interpreter}.

Lemma try_except_returns {A} (c : res (option A)) :
  exists r, try_except c (Ret None) = Ret r.
Proof. destruct c as [a|[]]; simpl; eauto. Qed.

Lemma convertible_le (n k : nat) : convertible n -> (k <= n)%nat -> convertible k.
Proof. unfold convertible. intros [Hn | Hn] Hk; [left; exact Hn | right; lia]. Qed.

(** C7 (amended). On a null, and on a string no longer than the number of
    digits the interpreter's [int()] converts, [_parse_ranking] does not
    raise and returns null or a non-negative integer; [_parse_score] never
    raises and returns null or a float. *)
Theorem parsers_total `{PyFloat} (v : option str) :
  (readable v ->
   exists r, _parse_ranking v = Ret r /\ (r = None \/ exists n, r = Some n /\ 0 <= n)) /\
  (exists r, _parse_score v = Ret r).
Proof.
  split.
  - destruct v as [s|]; unfold _parse_ranking; [|eauto]. intros Hlim. cbn [readable] in Hlim.
    match goal with |- context [existsb ?f not_ranked_words] =>
      destruct (existsb f not_ranked_words) end; [eauto|].
    match goal with |- context [search ?r ?t] => destruct (search r t) as [g|] eqn:Hg end;
      [|eauto].
    assert (Hlen : (length g <= length s)%nat).
    { apply search_from_length in Hg. etransitivity; [exact Hg|].
      unfold sub. etransitivity; [apply sub_from_length|].
      pose proof (strip_length s) as Hs.
      assert (Hpre : (length (sub_from (seqs [Bol; Chr (any_of "=#+")]) (py "") None (strip s) 0)
                      <= length (strip s))%nat) by apply sub_from_length.
      destruct (contains_char "-" _); [|lia].
      etransitivity; [apply before_first_length|]. lia. }
    apply search_plus_run in Hg as [Hne Hd].
    rewrite (py_int_digits g Hd Hne (convertible_le _ _ Hlim Hlen)). simpl.
    exists (Some (digits_value g)). split; [reflexivity|].
    right. exists (digits_value g). split; [reflexivity | apply digits_value_nonneg; exact Hd].
  - destruct v as [s|]; unfold _parse_score; [|eauto].
    destruct (contains_char "%" (strip s)).
    + apply try_except_returns.
    + match goal with |- context [search ?r ?t] => destruct (search r t) as [g|] end;
        [apply try_except_returns | eauto].
Qed.

End Totality.

Section TotalityExamples.
Import Cleaner.
#[local] Existing Instance cpython.

(** C7 as stated does not hold for the rank parser: the text "0" parses to
    the rank 0, which is not a positive integer; and a run of 4301 digits
    makes [int()] raise under the default limit, which nothing catches. *)
Lemma parse_ranking_zero_not_positive :
  ~ (exists r, _parse_ranking (Some (py "0")) = Ret r /\
               (r = None \/ exists n, r = Some n /\ 0 < n)) /\
  _parse_ranking (Some (repeat "9"%char 4301)) = Raise ValueError.
Proof.
  split.
  - intros [r [Hr Hpos]]. vm_compute in Hr. injection Hr as <-.
    destruct Hpos as [Hn | [n [[= <-] Hn]]]; [discriminate | lia].
  - vm_compute. reflexivity.
Qed.

Lemma parsers_total_witness :
  readable (Some (py "501+")) /\
  exists r, _parse_ranking (Some (py "501+")) = Ret r /\
            (r = None \/ exists n, r = Some n /\ 0 <= n).
Proof.
  assert (Hlim : readable (Some (py "501+"))) by (right; apply Nat.leb_le; reflexivity).
  split; [exact Hlim|].
  exact (proj1 (@parsers_total cpython Fixtures.whole_floats (Some (py "501+"))) Hlim).
Defined.

End TotalityExamples.

(** ** Substitution and search on rank texts *)

Section SubFacts.

Lemma match_len_anchor_later (r : re) (c : ascii) (s : str) :
  match_len (Seq Bol r) (Some c) s = None.
Proof. reflexivity. Qed.

Lemma sub_anchor_later (r : re) (repl : str) (s : str) (c : ascii) :
  sub_from (Seq Bol r) repl (Some c) s 0 = s.
Proof.
  revert c. induction s as [|x t IH]; intros c; cbn [sub_from];
    rewrite match_len_anchor_later; [reflexivity|].
  rewrite IH. reflexivity.
Qed.

(** [re.sub(r'^[class]', '', s)] drops a leading character of the class. *)
Lemma sub_anchor_head (p : ascii -> bool) (c : ascii) (t : str) :
  sub_from (Seq Bol (Chr p)) [] None (c :: t) 0 = if p c then t else c :: t.
Proof.
  cbn [sub_from]. unfold match_len. cbn [m].
  destruct (p c).
  - replace (length (c :: t) - length t)%nat with 1%nat by (simpl; lia).
    cbn [app]. destruct t as [|x t']; [reflexivity|].
    cbn [sub_from]. rewrite match_len_anchor_later, sub_anchor_later. reflexivity.
  - rewrite sub_anchor_later. reflexivity.
Qed.

Lemma match_len_first_fails (p : ascii -> bool) (r : re) (prev : option ascii)
  (c : ascii) (t : str) :
  p c = false -> match_len (Seq (Chr p) r) prev (c :: t) = None.
Proof. intros Hc. unfold match_len. cbn [m]. rewrite Hc. reflexivity. Qed.

(** A pattern that starts with a character of a class leaves a prefix
    without that class alone. *)
Lemma sub_skips_prefix (p : ascii -> bool) (r : re) (repl d rest out : str)
  (prev : option ascii) :
  none_in p d ->
  (forall prev', sub_from (Seq (Chr p) r) repl prev' rest 0 = out) ->
  sub_from (Seq (Chr p) r) repl prev (d ++ rest) 0 = d ++ out.
Proof.
  intros Hd Hrest. revert prev. induction Hd as [|c t Hc Ht IH]; intros prev.
  - apply Hrest.
  - cbn [app sub_from]. rewrite (match_len_first_fails p r prev c _ Hc).
    rewrite IH. reflexivity.
Qed.

Lemma sub_none_first (p : ascii -> bool) (r : re) (repl d : str) (prev : option ascii) :
  none_in p d -> sub_from (Seq (Chr p) r) repl prev d 0 = d.
Proof.
  intros Hd. rewrite <- (app_nil_r d) at 1.
  rewrite (sub_skips_prefix p r repl d [] []); [apply app_nil_r | exact Hd |].
  intros prev'. reflexivity.
Qed.

Lemma take_class_whole (p : ascii -> bool) (s : str) : all_in p s -> take_class p s = s.
Proof.
  induction 1 as [|c t Hc Ht IH]; simpl; [reflexivity|]. rewrite Hc, IH. reflexivity.
Qed.

Lemma search_plus_whole (p : ascii -> bool) (d : str) :
  all_in p d -> d <> [] -> search (Plus p) d = Some d.
Proof.
  intros Hd Hne. destruct Hd as [|c t Hc Ht]; [congruence|].
  unfold search. cbn [search_from]. rewrite match_len_plus, Hc.
  rewrite (take_class_whole p t Ht). cbn [firstn]. rewrite firstn_all. reflexivity.
Qed.

Lemma before_first_app (c : ascii) (d e : str) :
  none_in (eqc c) d -> before_first c (d ++ c :: e) = d.
Proof.
  induction 1 as [|x t Hx Ht IH]; simpl.
  - unfold eqc. rewrite Ascii.eqb_refl. reflexivity.
  - unfold eqc in *. rewrite Ascii.eqb_sym, Hx, IH. reflexivity.
Qed.

Lemma contains_char_app (c : ascii) (a b : str) :
  contains_char c (a ++ b) = (contains_char c a || contains_char c b)%bool.
Proof. apply existsb_app. Qed.

Lemma contains_char_none (c : ascii) (d : str) :
  none_in (eqc c) d -> contains_char c d = false.
Proof.
  induction 1 as [|x t Hx Ht IH]; simpl; [reflexivity|]. rewrite Hx. exact IH.
Qed.

Lemma lstrip_head (c : ascii) (t : str) : is_space c = false -> lstrip (c :: t) = c :: t.
Proof. intros H. simpl. rewrite H. reflexivity. Qed.

Lemma strip_no_space (s : str) : none_in is_space s -> strip s = s.
Proof.
  intros Hs. unfold strip, rstrip.
  assert (Hl : forall t, none_in is_space t -> lstrip t = t).
  { intros t [|c u Hc _]; [reflexivity | apply lstrip_head; exact Hc]. }
  rewrite (Hl s Hs), (Hl (rev s)); [apply rev_involutive | apply Forall_rev; exact Hs].
Qed.

End SubFacts.

(** ** The two rank parsers *)

Section RankParsers.
Import Cleaner Integrator.
Context {interp : Interpreter}.

Lemma rank_char_facts (c : ascii) :
  rank_char c = true ->
  is_space c = false /\ is_alpha (lower_c c) = false.
Proof.
  destruct c as [[] [] [] [] [] [] [] []]; (discriminate || (intros _; split; reflexivity)).
Qed.

Lemma digit_facts (c : ascii) :
  is_digit c = true ->
  rank_char c = true /\ any_of "=#+" c = false /\ eqc "-" c = false /\
  eqc "+" c = false /\ eqc c "=" = false.
Proof.
  destruct c as [[] [] [] [] [] [] [] []];
    (discriminate || (intros _; repeat split; reflexivity)).
Qed.

Lemma digits_rank_chars (d : str) : all_in is_digit d -> all_in rank_char d.
Proof. intros Hd. eapply Forall_impl; [exact Hd|]. intros c Hc. apply (digit_facts c Hc). Qed.

Lemma digits_none (p : ascii -> bool) (d : str) :
  (forall c, is_digit c = true -> p c = false) -> all_in is_digit d -> none_in p d.
Proof. intros Hp Hd. eapply Forall_impl; [exact Hd | exact Hp]. Qed.

Lemma guard_word_alpha (w : str) :
  In w not_ranked_words -> exists c w', w = c :: w' /\ is_alpha c = true.
Proof.
  unfold not_ranked_words. simpl.
  intros [<- | [<- | [<- | [<- | []]]]]; eexists _, _; split; reflexivity.
Qed.

(** Text made of rank characters passes the not-ranked guard. *)
Lemma guard_passes (s : str) :
  all_in rank_char s ->
  existsb (fun word => contains word (lower s)) not_ranked_words = false.
Proof.
  intros Hs. apply not_true_is_false. intros Hex.
  apply existsb_exists in Hex as [w [Hw Hc]].
  destruct (guard_word_alpha w Hw) as [c [w' [-> Hc0]]].
  apply contains_app in Hc as [a [b Hab]].
  assert (Hin : In c (lower s)) by (rewrite Hab; apply in_or_app; right; left; reflexivity).
  unfold lower in Hin. apply in_map_iff in Hin as [x [Hx Hxs]].
  unfold all_in in Hs. rewrite Forall_forall in Hs.
  apply list_elem_of_In in Hxs.
  destruct (rank_char_facts x (Hs x Hxs)) as [_ Hal].
  rewrite Hx in Hal. congruence.
Qed.

Lemma rank_text_chars (d s : str) :
  all_in is_digit d -> qs_rank_text d s -> all_in rank_char s.
Proof.
  intros Hd [| | |e He]; unfold all_in.
  - apply digits_rank_chars, Hd.
  - apply Forall_app. split; [repeat constructor | apply digits_rank_chars, Hd].
  - apply Forall_app. split; [apply digits_rank_chars, Hd | repeat constructor].
  - apply Forall_app. split; [apply digits_rank_chars, Hd|].
    apply Forall_app. split; [repeat constructor | apply digits_rank_chars, He].
Qed.

Lemma plus_sub_digits (d : str) :
  all_in is_digit d ->
  sub (seqs [Lit "+"; Star dot; Eol]) "" d = d.
Proof.
  intros Hd. unfold sub. apply sub_none_first.
  apply (digits_none _ d); [|exact Hd]. intros c Hc. apply (digit_facts c Hc).
Qed.

Lemma plus_sub_open (d : str) :
  all_in is_digit d ->
  sub (seqs [Lit "+"; Star dot; Eol]) "" (d ++ py "+") = d.
Proof.
  intros Hd. unfold sub.
  change (seqs [Lit "+"; Star dot; Eol]) with (Seq (Chr (chr_is "+")) (Seq (Star dot) Eol)).
  rewrite (sub_skips_prefix _ _ _ d (py "+") []).
  - apply app_nil_r.
  - apply (digits_none _ d); [|exact Hd]. intros c Hc. apply (digit_facts c Hc).
  - intros prev'. reflexivity.
Qed.

Lemma prefix_sub_digits (d rest : str) :
  all_in is_digit d -> d <> [] ->
  sub (seqs [Bol; Chr (any_of "=#+")]) "" (d ++ rest) = d ++ rest.
Proof.
  intros [|c t Hc Ht] Hne; [congruence|].
  unfold sub. cbn [seqs app py list_ascii_of_string]. rewrite sub_anchor_head.
  destruct (digit_facts c Hc) as [_ [-> _]]. reflexivity.
Qed.

Lemma prefix_sub_digits_only (d : str) :
  all_in is_digit d -> d <> [] ->
  sub (seqs [Bol; Chr (any_of "=#+")]) "" d = d.
Proof.
  intros Hd Hne. pose proof (prefix_sub_digits d [] Hd Hne) as H.
  rewrite app_nil_r in H. exact H.
Qed.

Lemma prefix_sub_tied (d : str) :
  sub (seqs [Bol; Chr (any_of "=#+")]) "" (py "=" ++ d) = d.
Proof. unfold sub. cbn [seqs app py list_ascii_of_string]. rewrite sub_anchor_head. reflexivity. Qed.

(** What [_parse_ranking] does once the prefix is gone and the text starts
    with the digits [d]. *)
Lemma parse_tail (d : str) :
  all_in is_digit d -> d <> [] -> convertible (length d) ->
  (n ← py_int d; mret (Some n)) = (Ret (Some (digits_value d)) : res (option Z)).
Proof. intros Hd Hne Hlim. rewrite (py_int_digits d Hd Hne Hlim). reflexivity. Qed.

Lemma parse_ranking_qs (d s : str) :
  all_in is_digit d -> d <> [] -> convertible (length d) -> qs_rank_text d s ->
  _parse_ranking (Some s) = Ret (Some (digits_value d)).
Proof.
  intros Hd Hne Hlim Hs. unfold _parse_ranking. cbv zeta.
  pose proof (rank_text_chars d s Hd Hs) as Hchars.
  rewrite strip_no_space.
  2:{ eapply Forall_impl; [exact Hchars|]. intros c Hc. apply (rank_char_facts c Hc). }
  rewrite (guard_passes s Hchars).
  assert (Hminus : none_in (eqc "-") d).
  { apply (digits_none _ d); [|exact Hd]. intros c Hc. apply (digit_facts c Hc). }
  destruct Hs as [| | |e He].
  - rewrite (prefix_sub_digits_only d Hd Hne).
    rewrite (contains_char_none "-" d Hminus), (plus_sub_digits d Hd).
    rewrite (search_plus_whole is_digit d Hd Hne). apply parse_tail; assumption.
  - rewrite prefix_sub_tied.
    rewrite (contains_char_none "-" d Hminus), (plus_sub_digits d Hd).
    rewrite (search_plus_whole is_digit d Hd Hne). apply parse_tail; assumption.
  - rewrite (prefix_sub_digits d _ Hd Hne).
    rewrite contains_char_app, (contains_char_none "-" d Hminus). cbn [orb].
    change (contains_char "-" (py "+")) with false. cbv iota.
    rewrite (plus_sub_open d Hd).
    rewrite (search_plus_whole is_digit d Hd Hne). apply parse_tail; assumption.
  - rewrite (prefix_sub_digits d _ Hd Hne).
    rewrite contains_char_app, (contains_char_none "-" d Hminus). cbn [orb].
    change (contains_char "-" (py "-" ++ e)) with true. cbv iota.
    change (py "-" ++ e) with ("-"%char :: e).
    rewrite (before_first_app "-" d e).
    2:{ eapply Forall_impl; [exact Hminus|]. intros x Hx. unfold eqc in *.
        rewrite Ascii.eqb_sym. exact Hx. }
    rewrite (plus_sub_digits d Hd).
    rewrite (search_plus_whole is_digit d Hd Hne). apply parse_tail; assumption.
Qed.

Lemma clean_qs_rank_qs (d s : str) :
  all_in is_digit d -> d <> [] -> convertible (length d) -> qs_rank_text d s ->
  clean_qs_rank (Some s) = Some (digits_value d).
Proof.
  intros Hd Hne Hlim Hs. unfold clean_qs_rank. cbv zeta.
  pose proof (rank_text_chars d s Hd Hs) as Hchars.
  rewrite strip_no_space.
  2:{ eapply Forall_impl; [exact Hchars|]. intros c Hc. apply (rank_char_facts c Hc). }
  assert (Hminus : none_in (eqc "-") d).
  { apply (digits_none _ d); [|exact Hd]. intros c Hc. apply (digit_facts c Hc). }
  assert (Hplus : none_in (eqc "+") d).
  { apply (digits_none _ d); [|exact Hd]. intros c Hc. apply (digit_facts c Hc). }
  assert (Hend : forall t, t = d ->
    match try_except (n ← py_int
             (if contains_char "+" (if contains_char "-" t then before_first "-" t else t)
              then before_first "+" (if contains_char "-" t then before_first "-" t else t)
              else (if contains_char "-" t then before_first "-" t else t));
             mret (Some n)) (Ret None)
    with Ret r => r | Raise _ => None end = Some (digits_value d)).
  { intros t ->. rewrite (contains_char_none "-" d Hminus), (contains_char_none "+" d Hplus).
    rewrite (py_int_digits d Hd Hne Hlim). reflexivity. }
  assert (Hhead : forall rest, drop_leading "=" (d ++ rest) = d ++ rest).
  { intros rest. destruct Hd as [|c t Hc Ht]; [congruence|]. cbn [app drop_leading].
    destruct (digit_facts c Hc) as [_ [_ [_ [_ ->]]]]. reflexivity. }
  destruct Hs as [| | |e He].
  - pose proof (Hhead []) as Hh. rewrite app_nil_r in Hh. rewrite Hh. apply Hend. reflexivity.
  - change (drop_leading "=" (py "=" ++ d)) with d. apply Hend. reflexivity.
  - rewrite Hhead.
    rewrite contains_char_app, (contains_char_none "-" d Hminus). cbn [orb].
    change (contains_char "-" (py "+")) with false. cbv iota.
    rewrite contains_char_app, (contains_char_none "+" d Hplus). cbn [orb].
    change (contains_char "+" (py "+")) with true. cbv iota.
    change (py "+") with ["+"%char].
    rewrite (before_first_app "+" d []).
    2:{ eapply Forall_impl; [exact Hplus|]. intros x Hx. unfold eqc in *.
        rewrite Ascii.eqb_sym. exact Hx. }
    rewrite (py_int_digits d Hd Hne Hlim). reflexivity.
  - rewrite Hhead.
    rewrite contains_char_app, (contains_char_none "-" d Hminus). cbn [orb].
    change (contains_char "-" (py "-" ++ e)) with true. cbv iota.
    change (py "-" ++ e) with ("-"%char :: e).
    rewrite (before_first_app "-" d e).
    2:{ eapply Forall_impl; [exact Hminus|]. intros x Hx. unfold eqc in *.
        rewrite Ascii.eqb_sym. exact Hx. }
    rewrite (contains_char_none "+" d Hplus), (py_int_digits d Hd Hne Hlim). reflexivity.
Qed.

(** C9 (amended). The two rank parsers agree on a null cell and on every
    text in one of the QS notations [d], "=d", "d+" and "d-e" (with [d] a
    non-empty string of digits, no longer than [int()] converts): both return
    the number [d] denotes. *)
Theorem rank_parsers_agree_on_qs_notation (d s : str) :
  all_in is_digit d -> d <> [] -> convertible (length d) -> qs_rank_text d s ->
  _parse_ranking None = Ret (clean_qs_rank None) /\
  _parse_ranking (Some s) = Ret (clean_qs_rank (Some s)) /\
  clean_qs_rank (Some s) = Some (digits_value d).
Proof.
  intros Hd Hne Hlim Hs. split; [reflexivity|].
  rewrite (clean_qs_rank_qs d s Hd Hne Hlim Hs), (parse_ranking_qs d s Hd Hne Hlim Hs).
  split; reflexivity.
Qed.

End RankParsers.

Section RankParserExamples.
Import Cleaner Integrator.
#[local] Existing Instance cpython.

(** C9 as stated does not hold: "#5" is rank 5 for the cleaner and null
    for the integrator. *)
Lemma rank_parsers_differ :
  _parse_ranking (Some (py "#5")) <> Ret (clean_qs_rank (Some (py "#5"))).
Proof. vm_compute. discriminate. Qed.

Lemma rank_parsers_agree_on_qs_notation_witness :
  _parse_ranking None = Ret (clean_qs_rank None) /\
  _parse_ranking (Some (py "51-100")) = Ret (clean_qs_rank (Some (py "51-100"))) /\
  clean_qs_rank (Some (py "51-100")) = Some (digits_value (py "51")).
Proof.
  apply (rank_parsers_agree_on_qs_notation (py "51") (py "51-100")).
  - repeat constructor.
  - discriminate.
  - right. apply Nat.leb_le. reflexivity.
  - apply (rank_band (py "51") (py "100")). repeat constructor.
Defined.

End RankParserExamples.

(** ** The Toronto scenario *)

Section Toronto.
Import Cleaner.

(** C8 as stated does not hold for the country: "CA" is not "Canada" after
    cleaning. *)
Lemma country_code_ca_not_canada :
  ~ (clean_country_name (Some (py "CA")) = py "Canada" /\
     clean_country_name (Some (py "Canada")) = py "Canada" /\
     clean_name_uncached (py "Univ. of Toronto") =
     clean_name_uncached (py "University of Toronto")).
Proof. intros [H _]. vm_compute in H. discriminate. Qed.

(** C8 (amended). Both names clean to "University of Toronto" (the second
    call running on the cache the first one left); the country "Canada" stays
    "Canada", while the code "CA", which the alias table lacks, becomes "Ca". *)
Theorem toronto_records_normalized :
  let first := clean_university_name ∅ (Some (py "Univ. of Toronto")) in
  let second := clean_university_name (snd first) (Some (py "University of Toronto")) in
  fst first = py "University of Toronto" /\
  fst second = py "University of Toronto" /\
  clean_country_name (Some (py "Canada")) = py "Canada" /\
  clean_country_name (Some (py "CA")) = py "Ca".
Proof. vm_compute. repeat split; reflexivity. Qed.

End Toronto.

(** ** Merging a duplicate cluster *)

Section DuplicateRows.
Import Cleaner.

Lemma fold_left_keeps {A B C} (g : A -> C) (step : A -> B -> A) (l : list B) (a : A) :
  (forall x b, g (step x b) = g x) -> g (fold_left step l a) = g a.
Proof.
  intros Hstep. revert a. induction l as [|b l IH]; intros a; simpl; [reflexivity|].
  rewrite IH. apply Hstep.
Qed.

Lemma merge_text_keeps (rows : list Row) (m : Row) (f : text_field) :
  rank (merge_text rows m f) = rank m /\
  response_count (merge_text rows m f) = response_count m.
Proof. unfold merge_text. destruct (dropna _ rows); split; reflexivity. Qed.

Lemma merge_metric_keeps (rows : list Row) (m : Row) (f : numeric_field) :
  rank (merge_metric rows m f) = rank m /\
  response_count (merge_metric rows m f) = response_count m.
Proof. unfold merge_metric. destruct (dropna _ rows); split; reflexivity. Qed.

Lemma merge_score_keeps (rows : list Row) (m : Row) (f : score_field) :
  rank (merge_score rows m f) = rank m /\
  response_count (merge_score rows m f) = response_count m.
Proof. unfold merge_score. destruct (dropna _ rows); split; reflexivity. Qed.

Lemma merge_rank_count (rows : list Row) (m : Row) (f : ranking_field) :
  response_count (merge_rank rows m f) = response_count m.
Proof. unfold merge_rank. destruct (dropna _ rows); reflexivity. Qed.

Lemma minimum_least (v : Z) (rest : list Z) :
  In (minimum v rest) (v :: rest) /\ Forall (fun x => minimum v rest <= x) (v :: rest).
Proof.
  unfold minimum. revert v. induction rest as [|x rest IH]; intros v; simpl.
  - split; [left; reflexivity | constructor; [lia | constructor]].
  - destruct (IH (Z.min v x)) as [Hin Hall]. split.
    + destruct Hin as [Heq | Hin]; [|right; right; exact Hin].
      rewrite <- Heq. destruct (Z.min_spec v x) as [[_ ->] | [_ ->]]; [left | right; left]; reflexivity.
    + inversion Hall as [|y l Hy Hl]; subst.
      constructor; [lia | constructor; [lia | exact Hl]].
Qed.

(** The value of a rank column once the rank loop has run over [fields]. *)
Lemma rank_after_loop (rows : list Row) (fields : list ranking_field) (m : Row)
  (f : ranking_field) :
  NoDup fields ->
  rank (fold_left (merge_rank rows) fields m) f =
  if bool_decide (f ∈ fields)
  then match dropna (fun r => rank r f) rows with
       | [] => rank m f
       | v :: rest => Some (minimum v rest)
       end
  else rank m f.
Proof.
  intros Hnd. revert m. induction Hnd as [|g fields Hg Hnd IH]; intros m; [reflexivity|].
  cbn [fold_left]. rewrite IH. clear IH.
  destruct (decide (f = g)) as [->|Hfg].
  - rewrite (bool_decide_eq_true_2 (g ∈ g :: fields)) by (left).
    rewrite (bool_decide_eq_false_2 (g ∈ fields)) by exact Hg.
    unfold merge_rank. destruct (dropna (fun r => rank r g) rows) as [|v rest]; [reflexivity|].
    cbn [rank set_rank]. rewrite decide_True by reflexivity. reflexivity.
  - assert (Hother : rank (merge_rank rows m g) f = rank m f).
    { unfold merge_rank. destruct (dropna (fun r => rank r g) rows); [reflexivity|].
      cbn [rank set_rank]. rewrite decide_False by exact Hfg. reflexivity. }
    rewrite Hother.
    destruct (bool_decide (f ∈ fields)) eqn:E.
    + apply bool_decide_eq_true_1 in E.
      rewrite (bool_decide_eq_true_2 (f ∈ g :: fields)) by (right; exact E). reflexivity.
    + apply bool_decide_eq_false_1 in E.
      rewrite (bool_decide_eq_false_2 (f ∈ g :: fields)); [reflexivity|].
      intros Hin. apply elem_of_cons in Hin as [Heq | Hin]; [congruence | contradiction].
Qed.

Lemma dropna_first_null {A B} (col : A -> option B) (first : A) (others : list A) :
  dropna col (first :: others) = [] -> col first = None.
Proof. unfold dropna. simpl. destruct (col first); [discriminate | reflexivity]. Qed.

(** C3 as stated does not hold for [response_count] (nor for [us_news_rank]):
    a cluster with 3 and 4 responses merges into a row with 3 responses, not
    7, and its [us_news_rank] is the first member's 50, not the least, 20. *)
Lemma merged_response_count_not_summed :
  exists merged,
    _merge_duplicate_rows [Fixtures.munich_a; Fixtures.munich_b] = Some merged /\
    response_count Fixtures.munich_a = Some 3 /\
    response_count Fixtures.munich_b = Some 4 /\
    response_count merged = Some 3 /\
    response_count merged <> Some (3 + 4) /\
    rank Fixtures.munich_b us_news_rank = Some 20 /\
    rank merged us_news_rank = Some 50.
Proof.
  eexists. split; [reflexivity|]. vm_compute. repeat split; try reflexivity. discriminate.
Qed.

(** C3 (amended). The merged row of a cluster carries, in each of [qs_rank],
    [the_rank] and [arwu_rank], the least non-null value of the members (null
    when every member is null); [response_count] is not aggregated: it is the
    first member's. *)
Theorem merged_ranks_are_minima (first : Row) (others : list Row) (f : ranking_field) :
  In f [qs_rank; the_rank; arwu_rank] ->
  exists merged,
    _merge_duplicate_rows (first :: others) = Some merged /\
    match dropna (fun r => rank r f) (first :: others) with
    | [] => rank merged f = None
    | v :: rest =>
        exists least, rank merged f = Some least /\
                      In least (v :: rest) /\
                      Forall (fun x => least <= x) (v :: rest)
    end /\
    response_count merged = response_count first.
Proof.
  intros Hf. eexists. split; [reflexivity|]. split.
  - rewrite (fold_left_keeps (fun r => rank r f) (merge_score (first :: others)))
      by (intros x b; rewrite (proj1 (merge_score_keeps _ x b)); reflexivity).
    rewrite rank_after_loop.
    2:{ unfold ranking_fields. repeat constructor; rewrite list_elem_of_In; simpl;
        intuition discriminate. }
    rewrite (bool_decide_eq_true_2 (f ∈ ranking_fields))
      by (apply list_elem_of_In; exact Hf).
    destruct (dropna (fun r => rank r f) (first :: others)) as [|v rest] eqn:E.
    + rewrite (fold_left_keeps (fun r => rank r f) (merge_metric (first :: others)))
        by (intros x b; rewrite (proj1 (merge_metric_keeps _ x b)); reflexivity).
      rewrite (fold_left_keeps (fun r => rank r f) (merge_text (first :: others)))
        by (intros x b; rewrite (proj1 (merge_text_keeps _ x b)); reflexivity).
      apply (dropna_first_null (fun r => rank r f) first others E).
    + exists (minimum v rest). split; [reflexivity | apply minimum_least].
  - rewrite (fold_left_keeps response_count (merge_score (first :: others)))
      by (intros x b; apply merge_score_keeps).
    rewrite (fold_left_keeps response_count (merge_rank (first :: others)))
      by (intros x b; apply merge_rank_count).
    rewrite (fold_left_keeps response_count (merge_metric (first :: others)))
      by (intros x b; apply merge_metric_keeps).
    rewrite (fold_left_keeps response_count (merge_text (first :: others)))
      by (intros x b; apply merge_text_keeps).
    reflexivity.
Qed.

Lemma merged_ranks_are_minima_witness :
  exists merged,
    _merge_duplicate_rows [Fixtures.munich_a; Fixtures.munich_b] = Some merged /\
    (exists least, rank merged qs_rank = Some least /\
                   In least [37; 30] /\ Forall (fun x => least <= x) [37; 30]) /\
    response_count merged = Some 3.
Proof.
  apply (merged_ranks_are_minima Fixtures.munich_a [Fixtures.munich_b] qs_rank).
  left. reflexivity.
Defined.

End DuplicateRows.

(** ** The categorical criteria of the match score *)

Section Criteria.
Import Recommendations.

(** Location and language always enter the denominator and enter the
    numerator exactly when satisfied. *)
Lemma location_step_effect (u : University) (p : UserProfile) (st : state) :
  max_possible_score (location_step u p st) = (max_possible_score st + 5)%Q /\
  score (location_step u p st) =
  if location_ok u p then (score st + 5)%Q else score st.
Proof. unfold location_step. destruct (location_ok u p); split; reflexivity. Qed.

Lemma language_step_effect (u : University) (p : UserProfile) (st : state) :
  max_possible_score (language_step u p st) = (max_possible_score st + 5)%Q /\
  score (language_step u p st) =
  if language_ok u p then (score st + 5)%Q else score st.
Proof. unfold language_step. destruct (language_ok u p); split; reflexivity. Qed.

(** The cost criterion enters the denominator whenever tuition and budget
    are known, and the numerator in full when the tuition is within budget. *)
Lemma cost_step_effect (u : University) (p : UserProfile) (st : state) (tuition b : Q) :
  tuition_international u = Some tuition -> budget p = Some b ->
  max_possible_score (cost_step u p st) =
    (max_possible_score st + weight (cost_importance p) 10)%Q /\
  (Qleb tuition b = true ->
   score (cost_step u p st) = (score st + weight (cost_importance p) 10)%Q).
Proof.
  intros Ht Hb. unfold cost_step. rewrite Ht, Hb.
  destruct (Qleb tuition b); split; try reflexivity. discriminate.
Qed.

(** Climate and accommodation touch the state only when satisfied: a
    preference that is stated but not met leaves the denominator as it was. *)
Lemma climate_step_effect (u : University) (p : UserProfile) (st : state) :
  if climate_ok u p
  then max_possible_score (climate_step u p st) = (max_possible_score st + 5)%Q /\
       score (climate_step u p st) = (score st + 5)%Q
  else climate_step u p st = st.
Proof. unfold climate_step. destruct (climate_ok u p); [split|]; reflexivity. Qed.

Lemma accommodation_step_effect (u : University) (p : UserProfile) (st : state) :
  if accommodation_ok u p
  then max_possible_score (accommodation_step u p st) = (max_possible_score st + 5)%Q /\
       score (accommodation_step u p st) = (score st + 5)%Q
  else accommodation_step u p st = st.
Proof. unfold accommodation_step. destruct (accommodation_ok u p); [split|]; reflexivity. Qed.

(** C1. The code at the failing input: the profile names a climate and
    requires accommodation, the university offers neither, and neither
    criterion enters the denominator, which is 25 + 5 + 5 for academic rigor,
    location and language; the score is 100 * 20 / 35 and not 100 * 20 / 45. *)
Theorem unmet_climate_and_accommodation_not_in_denominator :
  let u := Fixtures.arid_university in
  let p := Fixtures.tropical_profile in
  wanted_climate p = Some (py "tropical") /\
  climate_ok u p = false /\
  truthy_bool (accommodation_required p) = true /\
  accommodation_ok u p = false /\
  (score (criteria u p) == 20)%Q /\
  (max_possible_score (criteria u p) == 35)%Q /\
  (fst (calculate_match_score u p) == 2000 # 35)%Q.
Proof. vm_compute. repeat split; reflexivity. Qed.

End Criteria.

(** ** The matcher's threshold *)

Section Threshold.
Import Integrator.
Context `{Fuzz}.

(** Whatever the inner loop keeps scores at least 80. *)
Lemma consider_sound (k : str) (qs : list str) (best : option str * Q) :
  (forall v, fst best = Some v -> (80 <= combined_score (lower k) (lower v))%Q) ->
  forall v, fst (fold_left (consider k) qs best) = Some v ->
            (80 <= combined_score (lower k) (lower v))%Q.
Proof.
  revert best. induction qs as [|q qs IH]; intros best Hbest; [exact Hbest|].
  cbn [fold_left]. apply IH. unfold consider.
  destruct (Qltb (snd best) _ && Qle_bool 80 _)%bool eqn:E; [|exact Hbest].
  apply andb_true_iff in E as [_ E]. apply Qle_bool_iff in E.
  cbn [fst]. intros v [= <-]. exact E.
Qed.

Lemma best_candidate_sound (k : str) (qs : list str) (v : str) :
  fst (best_candidate k qs) = Some v -> (80 <= combined_score (lower k) (lower v))%Q.
Proof. apply consider_sound. cbn [fst]. discriminate. Qed.

Lemma Qle_bool_false (a b : Q) : Qle_bool a b = false <-> (b < a)%Q.
Proof.
  split.
  - intros E. destruct (Qlt_le_dec b a) as [Hlt|Hle]; [exact Hlt|].
    apply Qle_bool_iff in Hle. congruence.
  - intros Hlt. apply not_true_is_false. intros E. apply Qle_bool_iff in E. lra.
Qed.

(** One turn of the inner loop when the name [target] scores exactly 80
    and no other name reaches the threshold. *)
Lemma consider_turn (k target : str) (q : str) (best : option str * Q) :
  (combined_score (lower k) (lower target) == 80)%Q ->
  (combined_score (lower k) (lower (standardize_university_name q)) < 80)%Q \/
  standardize_university_name q = target ->
  ((fst best = None /\ (snd best == 0)%Q) ->
   (consider k best q = best /\ standardize_university_name q <> target) \/
   (fst (consider k best q) = Some target /\ (snd (consider k best q) == 80)%Q)) /\
  ((fst best = Some target /\ (snd best == 80)%Q) ->
   fst (consider k best q) = Some target /\ (snd (consider k best q) == 80)%Q).
Proof.
  intros Hscore [Hlow | Hstd].
  - assert (Hsame : consider k best q = best).
    { unfold consider.
      rewrite (proj2 (Qle_bool_false 80 _) Hlow), andb_false_r. reflexivity. }
    rewrite Hsame. split; [|tauto].
    intros _. left. split; [reflexivity|]. intros Heq. rewrite Heq in Hlow. lra.
  - unfold consider. rewrite Hstd. split.
    + intros [Hb Hs]. right.
      assert (E1 : Qltb (snd best) (combined_score (lower k) (lower target)) = true).
      { unfold Qltb. apply negb_true_iff, Qle_bool_false. lra. }
      assert (E2 : Qle_bool 80 (combined_score (lower k) (lower target)) = true).
      { apply Qle_bool_iff. lra. }
      rewrite E1, E2. cbn [andb fst snd]. split; [reflexivity | exact Hscore].
    + intros [Hb Hs].
      assert (E1 : Qltb (snd best) (combined_score (lower k) (lower target)) = false).
      { unfold Qltb. apply negb_false_iff, Qle_bool_iff. lra. }
      rewrite E1. cbn [andb]. split; assumption.
Qed.

Lemma consider_holds (k target : str) (qs : list str) (best : option str * Q) :
  (combined_score (lower k) (lower target) == 80)%Q ->
  (forall q', In q' qs ->
     (combined_score (lower k) (lower (standardize_university_name q')) < 80)%Q \/
     standardize_university_name q' = target) ->
  fst best = Some target /\ (snd best == 80)%Q ->
  fst (fold_left (consider k) qs best) = Some target.
Proof.
  intros Hscore. revert best. induction qs as [|q qs IH]; intros best Hqs Hbest; cbn [fold_left].
  - apply Hbest.
  - apply IH; [intros q' Hq'; apply Hqs; right; exact Hq'|].
    apply (consider_turn k target q best Hscore (Hqs q (or_introl eq_refl))). exact Hbest.
Qed.

Lemma consider_finds (k target : str) (qs : list str) (best : option str * Q) :
  (combined_score (lower k) (lower target) == 80)%Q ->
  (forall q', In q' qs ->
     (combined_score (lower k) (lower (standardize_university_name q')) < 80)%Q \/
     standardize_university_name q' = target) ->
  fst best = None /\ (snd best == 0)%Q ->
  (exists q, In q qs /\ standardize_university_name q = target) ->
  fst (fold_left (consider k) qs best) = Some target.
Proof.
  intros Hscore. revert best. induction qs as [|q qs IH]; intros best Hqs Hbest [q0 [Hin Hq0]];
    [destruct Hin|]. cbn [fold_left].
  assert (Hrest : forall q', In q' qs ->
     (combined_score (lower k) (lower (standardize_university_name q')) < 80)%Q \/
     standardize_university_name q' = target)
    by (intros q' Hq'; apply Hqs; right; exact Hq').
  destruct (proj1 (consider_turn k target q best Hscore (Hqs q (or_introl eq_refl))) Hbest)
    as [[Hsame Hne] | Hnew].
  - rewrite Hsame. apply IH; [exact Hrest | exact Hbest|].
    destruct Hin as [-> | Hin]; [contradiction | exists q0; split; assumption].
  - apply (consider_holds k target qs _ Hscore Hrest Hnew).
Qed.

(** The outer loop: every entry of the mapping is the inner loop's result
    for its key, and an entry, once made, stays. *)
Lemma match_one_lookup (qs : list str) (m : gmap str str) (f k : str) :
  match_one qs m f !! k =
  if bool_decide (f <> [] /\ standardize_university_name f = k /\ kept qs k <> None)
  then kept qs k else m !! k.
Proof.
  unfold match_one, kept. destruct f as [|c t].
  - rewrite bool_decide_eq_false_2 by (intros [Hf _]; congruence). reflexivity.
  - set (f := c :: t).
    destruct (decide (standardize_university_name f = k)) as [<- | Hk].
    + destruct (fst (best_candidate (standardize_university_name f) qs)) as [[|c' b]|].
      * rewrite bool_decide_eq_false_2 by (intros [_ [_ Hn]]; congruence). reflexivity.
      * rewrite bool_decide_eq_true_2 by (repeat split; discriminate).
        apply lookup_insert_eq.
      * rewrite bool_decide_eq_false_2 by (intros [_ [_ Hn]]; congruence). reflexivity.
    + rewrite bool_decide_eq_false_2 by (intros [_ [Hn _]]; congruence).
      destruct (fst (best_candidate (standardize_university_name f) qs)) as [[|c' b]|];
        try reflexivity.
      apply lookup_insert_ne. exact Hk.
Qed.

Lemma matches_sound (qs feedback : list str) (m : gmap str str) (k v : str) :
  (m !! k = Some v -> kept qs k = Some v) ->
  fold_left (match_one qs) feedback m !! k = Some v -> kept qs k = Some v.
Proof.
  revert m. induction feedback as [|f feedback IH]; intros m Hm; cbn [fold_left]; [exact Hm|].
  apply IH. rewrite match_one_lookup. case_bool_decide; [tauto | exact Hm].
Qed.

Lemma matches_stay (qs feedback : list str) (m : gmap str str) (k v : str) :
  kept qs k = Some v -> m !! k = Some v ->
  fold_left (match_one qs) feedback m !! k = Some v.
Proof.
  intros Hk. revert m. induction feedback as [|f feedback IH]; intros m Hm; cbn [fold_left];
    [exact Hm|].
  apply IH. rewrite match_one_lookup. case_bool_decide; assumption.
Qed.

Lemma matches_complete (qs feedback : list str) (m : gmap str str) (f v : str) :
  In f feedback -> f <> [] ->
  kept qs (standardize_university_name f) = Some v ->
  fold_left (match_one qs) feedback m !! standardize_university_name f = Some v.
Proof.
  intros Hin Hf Hk. revert m. induction feedback as [|x feedback IH]; intros m; [destruct Hin|].
  cbn [fold_left]. destruct Hin as [-> | Hin]; [|apply IH; exact Hin].
  apply matches_stay; [exact Hk|].
  rewrite match_one_lookup, bool_decide_eq_true_2; [exact Hk|].
  repeat split; [exact Hf | congruence].
Qed.

(** C5. The threshold of the matcher is inclusive.  Every pair in the
    returned mapping has a combined score of at least 80, so a pair scoring
    below 80 is never in it; and a pair whose combined score is exactly 80 is
    in the mapping, when no candidate with another standardized name reaches
    the threshold (the feedback name and the standardized QS name being
    non-empty, as the loop requires). *)
Theorem match_threshold_inclusive (feedback qs : list str) :
  (forall k v, find_university_matches feedback qs !! k = Some v ->
               (80 <= combined_score (lower k) (lower v))%Q) /\
  (forall f q,
     In f feedback -> f <> [] -> In q qs -> standardize_university_name q <> [] ->
     (combined_score (lower (standardize_university_name f))
        (lower (standardize_university_name q)) == 80)%Q ->
     (forall q', In q' qs ->
        (combined_score (lower (standardize_university_name f))
           (lower (standardize_university_name q')) < 80)%Q \/
        standardize_university_name q' = standardize_university_name q) ->
     find_university_matches feedback qs !! standardize_university_name f =
     Some (standardize_university_name q)).
Proof.
  split.
  - intros k v Hkv. unfold find_university_matches in Hkv.
    apply matches_sound in Hkv; [|rewrite lookup_empty; discriminate].
    unfold kept in Hkv.
    destruct (fst (best_candidate k qs)) as [[|c b]|] eqn:E; try discriminate.
    injection Hkv as <-. apply (best_candidate_sound k qs). exact E.
  - intros f q Hf Hne Hq Hstd Hscore Hothers. unfold find_university_matches.
    apply matches_complete; [exact Hf | exact Hne|].
    unfold kept, best_candidate.
    rewrite (consider_finds (standardize_university_name f) (standardize_university_name q)
               qs (None, 0%Q) Hscore Hothers).
    + destruct (standardize_university_name q); [congruence | reflexivity].
    + split; [reflexivity | reflexivity].
    + exists q. split; [exact Hq | reflexivity].
Qed.

End Threshold.

Section ThresholdExample.
Import Integrator.

Lemma match_threshold_inclusive_witness :
  @find_university_matches Fixtures.example_fuzz
    [py "Kyoto Imperial University"] [py "Osaka University"; py "Kyoto University"]
    !! py "Kyoto Imperial University" = Some (py "Kyoto University").
Proof.
  apply (proj2 (@match_threshold_inclusive Fixtures.example_fuzz
                  [py "Kyoto Imperial University"]
                  [py "Osaka University"; py "Kyoto University"])
           (py "Kyoto Imperial University") (py "Kyoto University")).
  - left. reflexivity.
  - discriminate.
  - right. left. reflexivity.
  - vm_compute. discriminate.
  - vm_compute. reflexivity.
  - intros q' [<- | [<- | []]].
    + left. vm_compute. reflexivity.
    + right. reflexivity.
Defined.

End ThresholdExample.

(** ** The row count of the merge *)

Section RowCount.
Import Integrator.
Context `{Fuzz}.

Lemma assign_rows_length (c : string) (f : gmap string cell -> option cell) (df : DataFrame) :
  length (rows (assign c f df)) = length (rows df).
Proof. unfold assign. cbn [rows]. apply length_map. Qed.

Lemma coalesce_rows_length (df : DataFrame) (col : string) :
  length (rows (coalesce df col)) = length (rows df).
Proof.
  unfold coalesce. destruct (has_column _ (columns df)); [apply assign_rows_length | reflexivity].
Qed.

Lemma merge_left_rows_length (left right : DataFrame) (lo ro : string) (sfx : string * string) :
  (length (rows left) <= length (rows (merge_left left right lo ro sfx)))%nat.
Proof.
  unfold merge_left. cbn [rows]. induction (rows left) as [|l ls IH]; [reflexivity|].
  cbn [flat_map]. rewrite length_app. cbn [length].
  match goal with
  | |- context [length (flat_map ?f ls)] => generalize dependent (length (flat_map f ls))
  end.
  intros n IH. destruct (filter _ (rows right)) as [|r found]; cbn [length map]; lia.
Qed.

(** No primary row is ever dropped. *)
Lemma merge_keeps_primary_rows (feedback_df qs_df : DataFrame) :
  (length (rows qs_df) <= length (rows (merge_data_sources feedback_df qs_df)))%nat.
Proof.
  unfold merge_data_sources. destruct (empty feedback_df); [reflexivity|].
  cbn [fold_left]. rewrite !coalesce_rows_length. apply merge_left_rows_length.
Qed.

End RowCount.

Section RowCountExample.
Import Integrator.

(** C4. The code at the failing input: the QS frame has one row, the two
    spellings in the feedback frame are both matched to it, and the left join
    returns the QS row twice, once per spelling. *)
Theorem merge_repeats_row_matched_twice :
  let merged := @merge_data_sources Fixtures.example_fuzz
                  Fixtures.harvard_feedback Fixtures.harvard_qs in
  length (rows Fixtures.harvard_qs) = 1%nat /\
  length (rows merged) = 2%nat /\
  map (fun r => text_of (r !! "institution_name"%string)) (rows merged) =
    [py "Harvard University"; py "Harvard University"] /\
  map (fun r => text_of (r !! "standardized_name_feedback"%string)) (rows merged) =
    [py "Harvard University"; py "Harvard Univeristy"].
Proof. vm_compute. repeat split; reflexivity. Qed.

End RowCountExample.

(** ** Column labels *)

Section Labels.
Import Integrator.

Lemma py_append (a b : string) : py (a ++ b) = py a ++ py b.
Proof. unfold py. induction a as [|c a IH]; simpl; [reflexivity|]. rewrite IH. reflexivity. Qed.

Lemma py_inj (a b : string) : py a = py b -> a = b.
Proof.
  unfold py. intros E.
  rewrite <- (string_of_list_ascii_of_string a), <- (string_of_list_ascii_of_string b), E.
  reflexivity.
Qed.

Lemma append_inj_tail (a b s : string) : (a ++ s = b ++ s)%string -> a = b.
Proof.
  intros E. apply py_inj. apply (f_equal py) in E. rewrite !py_append in E.
  apply app_inv_tail in E. exact E.
Qed.

Lemma append_has_suffix (c s : string) : has_suffix s (c ++ s) = true.
Proof.
  unfold has_suffix. rewrite py_append, rev_app_distr.
  apply is_prefix_app. eexists. reflexivity.
Qed.

Lemma has_column_In (c : string) (cols : list string) :
  has_column c cols = true <-> In c cols.
Proof.
  unfold has_column. rewrite existsb_exists. split.
  - intros [x [Hx E]]. apply String.eqb_eq in E. subst. exact Hx.
  - intros Hc. exists c. split; [exact Hc | apply String.eqb_refl].
Qed.

Lemma has_column_false (c : string) (cols : list string) :
  has_column c cols = false <-> ~ In c cols.
Proof. rewrite <- has_column_In. destruct (has_column c cols); split; congruence. Qed.

(** A label after the merge is the old label or the old label with the
    suffix. *)
Lemma suffixed_cases (other : list string) (s c : string) :
  (suffixed other s c = c /\ ~ In c other) \/
  (suffixed other s c = (c ++ s)%string /\ In c other).
Proof.
  unfold suffixed. destruct (has_column c other) eqn:E.
  - right. split; [reflexivity | apply has_column_In; exact E].
  - left. split; [reflexivity | apply has_column_false; exact E].
Qed.

Lemma suffixed_inj (other : list string) (s c c' : string) :
  has_suffix s c = false -> has_suffix s c' = false ->
  suffixed other s c = suffixed other s c' -> c = c'.
Proof.
  intros Hc Hc'.
  destruct (suffixed_cases other s c) as [[-> _] | [-> _]],
           (suffixed_cases other s c') as [[-> _] | [-> _]]; intros E.
  - exact E.
  - rewrite E, append_has_suffix in Hc. discriminate.
  - rewrite <- E, append_has_suffix in Hc'. discriminate.
  - apply (append_inj_tail c c' s E).
Qed.

End Labels.

(** ** Rows of the merged frame *)

Section MergedRows.
Import Integrator.

Lemma rename_row_source (cols other : list string) (s : string)
  (r : gmap string cell) (k : string) (v : cell) :
  rename_row cols other s r !! k = Some v ->
  exists c, In c cols /\ suffixed other s c = k /\ r !! c = Some v.
Proof.
  unfold rename_row. induction cols as [|c cols IH]; simpl.
  - rewrite lookup_empty. discriminate.
  - destruct (r !! c) as [w|] eqn:E; simpl.
    + destruct (decide (suffixed other s c = k)) as [<- | Hk].
      * rewrite lookup_insert_eq. intros [= <-]. exists c. auto.
      * rewrite lookup_insert_ne by exact Hk. intros Hv.
        destruct (IH Hv) as [c' [Hc' Hrest]]. exists c'. auto.
    + intros Hv. destruct (IH Hv) as [c' [Hc' Hrest]]. exists c'. auto.
Qed.

Lemma rename_row_absent (cols other : list string) (s : string)
  (r : gmap string cell) (k : string) :
  (forall c, In c cols -> suffixed other s c <> k) ->
  rename_row cols other s r !! k = None.
Proof.
  intros Hk. destruct (rename_row cols other s r !! k) as [v|] eqn:E; [|reflexivity].
  apply rename_row_source in E as [c [Hc [Hs _]]]. destruct (Hk c Hc Hs).
Qed.

Lemma rename_row_lookup (cols other : list string) (s : string)
  (r : gmap string cell) (c : string) :
  In c cols ->
  (forall c', In c' cols -> suffixed other s c' = suffixed other s c -> c' = c) ->
  rename_row cols other s r !! suffixed other s c = r !! c.
Proof.
  intros Hc Hinj.
  destruct (rename_row cols other s r !! suffixed other s c) as [v|] eqn:E.
  - apply rename_row_source in E as [c' [Hc' [Hs Hv]]].
    rewrite (Hinj c' Hc' Hs) in Hv. congruence.
  - destruct (r !! c) as [v|] eqn:Ev; [|reflexivity]. exfalso.
    revert E. unfold rename_row. clear Hinj. induction cols as [|c0 cols IH]; [destruct Hc|].
    simpl. destruct Hc as [-> | Hc].
    + rewrite Ev. simpl. rewrite lookup_insert_eq. discriminate.
    + destruct (r !! c0) as [w|]; simpl; [|apply IH; exact Hc].
      destruct (decide (suffixed other s c0 = suffixed other s c)) as [-> | Hne].
      * rewrite lookup_insert_eq. discriminate.
      * rewrite lookup_insert_ne by exact Hne. apply IH. exact Hc.
Qed.

Lemma assign_row_same (c : string) (f : gmap string cell -> option cell)
  (r : gmap string cell) :
  assign_row c f r !! c = f r.
Proof.
  unfold assign_row. destruct (f r); [apply lookup_insert_eq | apply lookup_delete_eq].
Qed.

Lemma assign_row_other (c k : string) (f : gmap string cell -> option cell)
  (r : gmap string cell) :
  c <> k -> assign_row c f r !! k = r !! k.
Proof.
  intros Hk. unfold assign_row.
  destruct (f r); [apply lookup_insert_ne | apply lookup_delete_ne]; exact Hk.
Qed.

Lemma coalesce_rows (df : DataFrame) (col : string) :
  rows (coalesce df col) = map (coalesce_row (columns df) col) (rows df).
Proof.
  unfold coalesce, coalesce_row. destruct (has_column _ (columns df)).
  - reflexivity.
  - symmetry. apply map_id.
Qed.

Lemma coalesce_columns (df : DataFrame) (col c : string) :
  In c (columns (coalesce df col)) <-> In c (columns df) \/
    (c = col /\ In (col ++ "_feedback")%string (columns df)).
Proof.
  unfold coalesce. destruct (has_column (col ++ "_feedback") (columns df)) eqn:E.
  - apply has_column_In in E. unfold assign. cbn [columns].
    destruct (has_column col (columns df)) eqn:E2.
    + apply has_column_In in E2. split; [tauto|]. intros [Hc | [-> _]]; assumption.
    + rewrite in_app_iff. simpl. split.
      * intros [Hc | [<- | []]]; [left; exact Hc | right; split; [reflexivity | exact E]].
      * intros [Hc | [-> _]]; [left; exact Hc | right; left; reflexivity].
  - apply has_column_false in E. split; [tauto|]. intros [Hc | [_ Hc]]; [exact Hc | contradiction].
Qed.

Lemma coalesce_row_other (cols : list string) (col k : string) (r : gmap string cell) :
  col <> k -> coalesce_row cols col r !! k = r !! k.
Proof.
  intros Hk. unfold coalesce_row. destruct (has_column _ cols); [|reflexivity].
  apply assign_row_other. exact Hk.
Qed.

Lemma coalesce_row_idle (cols : list string) (col k : string) (r : gmap string cell) :
  ~ In (col ++ "_feedback")%string cols -> coalesce_row cols col r !! k = r !! k.
Proof.
  intros Hk. unfold coalesce_row.
  rewrite (proj2 (has_column_false _ cols) Hk). reflexivity.
Qed.

Lemma coalesce_row_filled (cols : list string) (col : string) (r : gmap string cell) :
  In (col ++ "_feedback")%string cols -> In (col ++ "_qs")%string cols ->
  coalesce_row cols col r !! col =
  match r !! (col ++ "_feedback")%string with
  | Some v => Some v
  | None => r !! (col ++ "_qs")%string
  end.
Proof.
  intros Hf Hq. unfold coalesce_row.
  rewrite (proj2 (has_column_In _ cols) Hf), assign_row_same. unfold filled.
  rewrite (proj2 (has_column_In _ cols) Hq). reflexivity.
Qed.

End MergedRows.

(** ** The row joined from a primary row and its partner *)

Section JoinedRow.
Import Integrator.

Variables (qs fb : DataFrame) (l r : gmap string cell).
Hypothesis plain_qs : plain_labels (columns qs).
Hypothesis plain_fb : plain_labels (columns fb).

Let sfx : string * string := ("_qs", "_feedback")%string.
Let joined : gmap string cell := join_row qs fb sfx l (Some r).
Let merged_columns : list string :=
  map (suffixed (columns fb) "_qs") (columns qs)
  ++ map (suffixed (columns qs) "_feedback") (columns fb).

Lemma plain_label_suffixes (c : string) :
  plain_label c = true -> has_suffix "_qs" c = false /\ has_suffix "_feedback" c = false.
Proof.
  unfold plain_label. rewrite andb_true_iff, !negb_true_iff. tauto.
Qed.

Lemma plain_in (cols : list string) (c : string) :
  plain_labels cols -> In c cols ->
  has_suffix "_qs" c = false /\ has_suffix "_feedback" c = false.
Proof.
  intros Hp Hc. apply plain_label_suffixes.
  unfold plain_labels in Hp. rewrite Forall_forall in Hp. apply Hp, list_elem_of_In, Hc.
Qed.

Lemma suffix_mismatch (a b : string) : (a ++ "_qs")%string <> (b ++ "_feedback")%string.
Proof.
  intros E. pose proof (append_has_suffix a "_qs") as Ha. rewrite E in Ha.
  unfold has_suffix in Ha. rewrite py_append, rev_app_distr in Ha. discriminate.
Qed.

Lemma primary_label_not_feedback (c col : string) :
  In c (columns qs) -> suffixed (columns fb) "_qs" c <> (col ++ "_feedback")%string.
Proof.
  intros Hc E. destruct (plain_in _ c plain_qs Hc) as [_ Hp].
  destruct (suffixed_cases (columns fb) "_qs" c) as [[Hs _] | [Hs _]]; rewrite Hs in E.
  - rewrite E, append_has_suffix in Hp. discriminate.
  - apply (suffix_mismatch c col E).
Qed.

Lemma secondary_label_not_qs (c col : string) :
  In c (columns fb) -> suffixed (columns qs) "_feedback" c <> (col ++ "_qs")%string.
Proof.
  intros Hc E. destruct (plain_in _ c plain_fb Hc) as [Hp _].
  destruct (suffixed_cases (columns qs) "_feedback" c) as [[Hs _] | [Hs _]]; rewrite Hs in E.
  - rewrite E, append_has_suffix in Hp. discriminate.
  - symmetry in E. apply (suffix_mismatch col c E).
Qed.

(** A primary label and a secondary label never coincide after the merge. *)
Lemma labels_apart (c c' : string) :
  In c (columns qs) -> In c' (columns fb) ->
  suffixed (columns fb) "_qs" c <> suffixed (columns qs) "_feedback" c'.
Proof.
  intros Hc Hc' E.
  destruct (suffixed_cases (columns qs) "_feedback" c') as [[Hs Hn] | [Hs Hi]]; rewrite Hs in E.
  - destruct (suffixed_cases (columns fb) "_qs" c) as [[Hs' Hn'] | [Hs' Hi']]; rewrite Hs' in E.
    + subst. contradiction.
    + destruct (plain_in _ c' plain_fb Hc') as [Hp _].
      rewrite <- E, append_has_suffix in Hp. discriminate.
  - apply (primary_label_not_feedback c c' Hc E).
Qed.

Lemma joined_primary (c : string) :
  In c (columns qs) -> joined !! suffixed (columns fb) "_qs" c = l !! c.
Proof.
  intros Hc. unfold joined, join_row. cbn [fst snd sfx].
  assert (Hl : rename_row (columns qs) (columns fb) "_qs" l !! suffixed (columns fb) "_qs" c
               = l !! c).
  { apply rename_row_lookup; [exact Hc|]. intros c' Hc' E.
    apply (suffixed_inj (columns fb) "_qs" c' c); [| |exact E].
    - apply (plain_in _ c' plain_qs Hc').
    - apply (plain_in _ c plain_qs Hc). }
  destruct (l !! c) as [v|] eqn:Ev.
  - apply lookup_union_Some_l. exact Hl.
  - rewrite lookup_union_r by exact Hl.
    apply rename_row_absent. intros c' Hc' E. apply (labels_apart c c' Hc Hc'). congruence.
Qed.

Lemma joined_secondary (c : string) :
  In c (columns fb) -> joined !! suffixed (columns qs) "_feedback" c = r !! c.
Proof.
  intros Hc. unfold joined, join_row. cbn [fst snd sfx].
  rewrite lookup_union_r.
  - apply rename_row_lookup; [exact Hc|]. intros c' Hc' E.
    apply (suffixed_inj (columns qs) "_feedback" c' c); [| |exact E].
    + apply (plain_in _ c' plain_fb Hc').
    + apply (plain_in _ c plain_fb Hc).
  - apply rename_row_absent. intros c' Hc' E. apply (labels_apart c' c Hc' Hc). exact E.
Qed.

Lemma joined_absent (k : string) :
  (forall c, In c (columns qs) -> suffixed (columns fb) "_qs" c <> k) ->
  (forall c, In c (columns fb) -> suffixed (columns qs) "_feedback" c <> k) ->
  joined !! k = None.
Proof.
  intros Hq Hf. unfold joined, join_row. cbn [fst snd sfx].
  rewrite lookup_union_r; apply rename_row_absent; assumption.
Qed.

(** The suffixed labels exist exactly for the columns both frames carry. *)
Lemma feedback_label_in (col : string) :
  In (col ++ "_feedback")%string merged_columns <->
  In col (columns qs) /\ In col (columns fb).
Proof.
  unfold merged_columns. rewrite in_app_iff, !in_map_iff. split.
  - intros [[c [E Hc]] | [c [E Hc]]].
    + destruct (primary_label_not_feedback c col Hc E).
    + destruct (suffixed_cases (columns qs) "_feedback" c) as [[Hs _] | [Hs Hi]]; rewrite Hs in E.
      * destruct (plain_in _ c plain_fb Hc) as [_ Hp].
        rewrite E, append_has_suffix in Hp. discriminate.
      * apply append_inj_tail in E. subst. split; assumption.
  - intros [Hq Hf]. right. exists col. split; [|exact Hf].
    unfold suffixed. rewrite (proj2 (has_column_In col (columns qs)) Hq). reflexivity.
Qed.

Lemma qs_label_in (col : string) :
  In (col ++ "_qs")%string merged_columns <->
  In col (columns qs) /\ In col (columns fb).
Proof.
  unfold merged_columns. rewrite in_app_iff, !in_map_iff. split.
  - intros [[c [E Hc]] | [c [E Hc]]].
    + destruct (suffixed_cases (columns fb) "_qs" c) as [[Hs _] | [Hs Hi]]; rewrite Hs in E.
      * destruct (plain_in _ c plain_qs Hc) as [Hp _].
        rewrite E, append_has_suffix in Hp. discriminate.
      * apply append_inj_tail in E. subst. split; assumption.
    + destruct (secondary_label_not_qs c col Hc E).
  - intros [Hq Hf]. left. exists col. split; [|exact Hq].
    unfold suffixed. rewrite (proj2 (has_column_In col (columns fb)) Hf). reflexivity.
Qed.

End JoinedRow.

(** ** Precedence of the metrics in the merge *)

Section MetricPrecedence.
Import Integrator.
Context `{Fuzz}.

Variables (feedback_df qs_df : DataFrame) (l r : gmap string cell) (key : str).
Hypothesis plain_qs : plain_labels (columns qs_df).
Hypothesis plain_fb : plain_labels (columns feedback_df).
Hypothesis l_name : l !! "standardized_name"%string = Some (Text key).
Hypothesis r_match :
  frame_matches feedback_df qs_df !! text_of (r !! "standardized_name"%string) = Some key.

Let matches : gmap str str := frame_matches feedback_df qs_df.
Let with_names : DataFrame := with_match matches feedback_df.
Let merged_df : DataFrame :=
  merge_left qs_df with_names "standardized_name" "qs_match_name" ("_qs", "_feedback")%string.
Let partner : gmap string cell :=
  assign_row "qs_match_name"
    (fun r => Text <$> matches !! text_of (r !! "standardized_name"%string)) r.
Let joined : gmap string cell :=
  join_row qs_df with_names ("_qs", "_feedback")%string l (Some partner).

Lemma with_names_columns (c : string) :
  In c (columns with_names) <-> In c (columns feedback_df) \/ c = "qs_match_name"%string.
Proof.
  unfold with_names, with_match, assign. cbn [columns].
  destruct (has_column "qs_match_name" (columns feedback_df)) eqn:E.
  - apply has_column_In in E. split; [tauto|]. intros [Hc | ->]; assumption.
  - rewrite in_app_iff. simpl. split; [intros [Hc | [<- | []]]; auto | intros [Hc | ->]; auto].
Qed.

Lemma with_names_plain : plain_labels (columns with_names).
Proof.
  unfold plain_labels. rewrite Forall_forall. intros c Hc.
  apply list_elem_of_In, with_names_columns in Hc as [Hc | ->]; [|reflexivity].
  unfold plain_labels in plain_fb. rewrite Forall_forall in plain_fb.
  apply plain_fb, list_elem_of_In, Hc.
Qed.

Lemma partner_cell (c : string) : c <> "qs_match_name"%string -> partner !! c = r !! c.
Proof. intros Hc. unfold partner. apply assign_row_other. congruence. Qed.

Lemma partner_key : partner !! "qs_match_name"%string = Some (Text key).
Proof.
  unfold partner. rewrite assign_row_same. unfold matches. rewrite r_match. reflexivity.
Qed.

Lemma joined_in_merge :
  In l (rows qs_df) -> In r (rows feedback_df) -> In joined (rows merged_df).
Proof.
  intros Hl Hr. unfold merged_df, merge_left. cbn [rows]. apply in_flat_map.
  exists l. split; [exact Hl|].
  assert (Hp : partner ∈ filter
            (fun r0 : gmap string cell =>
               key_eqb (l !! "standardized_name"%string) (r0 !! "qs_match_name"%string))
            (rows with_names)).
  { apply list_elem_of_filter. split.
    - rewrite l_name, partner_key. cbn [key_eqb]. apply Is_true_true, str_eqb_true. reflexivity.
    - apply list_elem_of_In. unfold with_names, with_match, assign. cbn [rows].
      apply in_map. exact Hr. }
  destruct (filter _ (rows with_names)) as [|x found] eqn:E.
  - apply elem_of_nil in Hp. destruct Hp.
  - apply list_elem_of_In in Hp. unfold joined. apply (in_map (fun r0 => join_row _ _ _ l (Some r0))).
    exact Hp.
Qed.

(** Where the metrics of the joined row come from. *)
Lemma joined_both (col : string) :
  In col (columns qs_df) -> In col (columns feedback_df) ->
  col <> "qs_match_name"%string ->
  has_suffix "_qs" col = false -> has_suffix "_feedback" col = false ->
  joined !! col = None /\
  joined !! (col ++ "_qs")%string = l !! col /\
  joined !! (col ++ "_feedback")%string = r !! col.
Proof.
  intros Hq Hf Hne Hs1 Hs2.
  assert (Hf' : In col (columns with_names)) by (apply with_names_columns; left; exact Hf).
  split; [|split].
  - apply joined_absent.
    + intros c Hc E.
      destruct (suffixed_cases (columns with_names) "_qs" c) as [[Hs Hn] | [Hs _]]; rewrite Hs in E.
      * subst. contradiction.
      * rewrite <- E, append_has_suffix in Hs1. discriminate.
    + intros c Hc E.
      destruct (suffixed_cases (columns qs_df) "_feedback" c) as [[Hs Hn] | [Hs _]]; rewrite Hs in E.
      * subst. contradiction.
      * rewrite <- E, append_has_suffix in Hs2. discriminate.
  - pose proof (joined_primary qs_df with_names l partner plain_qs with_names_plain col Hq) as E.
    unfold suffixed in E. rewrite (proj2 (has_column_In _ _) Hf') in E. exact E.
  - pose proof (joined_secondary qs_df with_names l partner plain_qs with_names_plain col Hf') as E.
    unfold suffixed in E. rewrite (proj2 (has_column_In _ _) Hq) in E.
    etransitivity; [exact E|]. apply partner_cell. exact Hne.
Qed.

Lemma joined_secondary_only (col : string) :
  ~ In col (columns qs_df) -> In col (columns feedback_df) ->
  col <> "qs_match_name"%string ->
  joined !! col = r !! col.
Proof.
  intros Hq Hf Hne.
  assert (Hf' : In col (columns with_names)) by (apply with_names_columns; left; exact Hf).
  pose proof (joined_secondary qs_df with_names l partner plain_qs with_names_plain col Hf') as E.
  unfold suffixed in E. rewrite (proj2 (has_column_false _ _) Hq) in E.
  etransitivity; [exact E|]. apply partner_cell. exact Hne.
Qed.

(** The coalescing loop fires for a metric exactly when both frames carry
    it. *)
Lemma first_turn_fires (col : string) :
  In (col ++ "_feedback")%string (columns merged_df) <->
  In col (columns qs_df) /\ In col (columns with_names).
Proof. apply (feedback_label_in qs_df with_names plain_qs with_names_plain). Qed.

Lemma second_turn_fires :
  In "cultural_diversity_feedback"%string (columns (coalesce merged_df "academic_rigor")) <->
  In "cultural_diversity"%string (columns qs_df) /\
  In "cultural_diversity"%string (columns with_names).
Proof.
  rewrite coalesce_columns, <- (first_turn_fires "cultural_diversity"). split.
  - intros [Hc | [Hc _]]; [exact Hc | discriminate].
  - intros Hc. left. exact Hc.
Qed.

Lemma second_turn_qs :
  In "cultural_diversity"%string (columns qs_df) ->
  In "cultural_diversity"%string (columns with_names) ->
  In "cultural_diversity_qs"%string (columns (coalesce merged_df "academic_rigor")).
Proof.
  intros Hq Hf. apply coalesce_columns. left.
  apply (qs_label_in qs_df with_names plain_qs with_names_plain "cultural_diversity").
  split; assumption.
Qed.

(** A turn of the loop leaves every label but its own alone. *)
Lemma turns_keep (k : string) :
  k <> "academic_rigor"%string -> k <> "cultural_diversity"%string ->
  merged_row feedback_df qs_df l r !! k = joined !! k.
Proof.
  intros Ha Hc. unfold merged_row.
  rewrite coalesce_row_other by congruence. rewrite coalesce_row_other by congruence.
  reflexivity.
Qed.

Lemma not_suffixed_label (c s k : string) :
  has_suffix s k = false -> (c ++ s)%string <> k.
Proof. intros Hk E. rewrite <- E, append_has_suffix in Hk. discriminate. Qed.

Lemma merged_academic_rigor :
  In "academic_rigor"%string (columns qs_df) ->
  In "academic_rigor"%string (columns feedback_df) ->
  merged_row feedback_df qs_df l r !! "academic_rigor"%string =
  match r !! "academic_rigor"%string with
  | Some v => Some v
  | None => l !! "academic_rigor"%string
  end.
Proof.
  intros Hq Hf.
  assert (Hf' : In "academic_rigor"%string (columns with_names))
    by (apply with_names_columns; left; exact Hf).
  destruct (joined_both "academic_rigor" Hq Hf) as [_ [Hj1 Hj2]];
    [discriminate | reflexivity | reflexivity |].
  unfold merged_row. rewrite coalesce_row_other by discriminate.
  rewrite coalesce_row_filled.
  - fold matches with_names partner joined. rewrite Hj1, Hj2. reflexivity.
  - apply (first_turn_fires "academic_rigor"). split; assumption.
  - apply (qs_label_in qs_df with_names plain_qs with_names_plain "academic_rigor").
    split; assumption.
Qed.

Lemma merged_cultural_diversity :
  In "cultural_diversity"%string (columns qs_df) ->
  In "cultural_diversity"%string (columns feedback_df) ->
  merged_row feedback_df qs_df l r !! "cultural_diversity"%string =
  match r !! "cultural_diversity"%string with
  | Some v => Some v
  | None => l !! "cultural_diversity"%string
  end.
Proof.
  intros Hq Hf.
  assert (Hf' : In "cultural_diversity"%string (columns with_names))
    by (apply with_names_columns; left; exact Hf).
  destruct (joined_both "cultural_diversity" Hq Hf) as [_ [Hj1 Hj2]];
    [discriminate | reflexivity | reflexivity |].
  unfold merged_row. rewrite coalesce_row_filled.
  - rewrite !coalesce_row_other by discriminate.
    fold matches with_names partner joined. rewrite Hj1, Hj2. reflexivity.
  - apply second_turn_fires. split; assumption.
  - apply second_turn_qs; assumption.
Qed.

Lemma merged_secondary_only (col : string) :
  In col feedback_metrics ->
  ~ In col (columns qs_df) -> In col (columns feedback_df) ->
  merged_row feedback_df qs_df l r !! col = r !! col.
Proof.
  intros Hcol Hq Hf.
  assert (Hne : col <> "qs_match_name"%string)
    by (intros ->; simpl in Hcol; intuition discriminate).
  rewrite <- (joined_secondary_only col Hq Hf Hne).
  unfold merged_row. fold matches with_names merged_df partner joined.
  destruct (string_dec col "academic_rigor") as [-> | Ha].
  - rewrite coalesce_row_other by discriminate.
    apply coalesce_row_idle. intros Hin. apply first_turn_fires in Hin as [Hin _]. contradiction.
  - destruct (string_dec col "cultural_diversity") as [-> | Hc].
    + rewrite coalesce_row_idle.
      * apply coalesce_row_other. discriminate.
      * intros Hin. apply second_turn_fires in Hin as [Hin _]. contradiction.
    + rewrite !coalesce_row_other by congruence. reflexivity.
Qed.

Lemma merged_uncoalesced (col : string) :
  In col uncoalesced_metrics ->
  In col (columns qs_df) -> In col (columns feedback_df) ->
  merged_row feedback_df qs_df l r !! col = None /\
  merged_row feedback_df qs_df l r !! (col ++ "_qs")%string = l !! col /\
  merged_row feedback_df qs_df l r !! (col ++ "_feedback")%string = r !! col.
Proof.
  intros Hcol Hq Hf.
  assert (Hfacts : col <> "qs_match_name"%string /\
                   has_suffix "_qs" col = false /\ has_suffix "_feedback" col = false /\
                   col <> "academic_rigor"%string /\ col <> "cultural_diversity"%string).
  { simpl in Hcol. destruct Hcol as [<- | [<- | [<- | []]]];
      repeat split; (reflexivity || discriminate). }
  destruct Hfacts as [Hne [Hs1 [Hs2 [Ha Hc]]]].
  destruct (joined_both col Hq Hf Hne Hs1 Hs2) as [Hj0 [Hj1 Hj2]].
  rewrite !turns_keep; try (apply not_suffixed_label; reflexivity); try assumption.
  repeat split; assumption.
Qed.

Lemma merged_primary_only (c : string) :
  In c (columns qs_df) -> ~ In c (columns feedback_df) -> c <> "qs_match_name"%string ->
  merged_row feedback_df qs_df l r !! c = l !! c.
Proof.
  intros Hq Hf Hne.
  assert (Hf' : ~ In c (columns with_names)).
  { intros Hin. apply with_names_columns in Hin as [Hin | Hin]; contradiction. }
  pose proof (joined_primary qs_df with_names l partner plain_qs with_names_plain c Hq) as E.
  unfold suffixed in E. rewrite (proj2 (has_column_false _ _) Hf') in E.
  fold joined in E. rewrite <- E.
  unfold merged_row. fold matches with_names merged_df partner joined.
  destruct (string_dec c "academic_rigor") as [-> | Ha].
  - rewrite coalesce_row_other by discriminate.
    apply coalesce_row_idle. intros Hin. apply first_turn_fires in Hin as [_ Hin]. contradiction.
  - destruct (string_dec c "cultural_diversity") as [-> | Hc].
    + rewrite coalesce_row_idle.
      * apply coalesce_row_other. discriminate.
      * intros Hin. apply second_turn_fires in Hin as [_ Hin]. contradiction.
    + rewrite !coalesce_row_other by congruence. reflexivity.
Qed.

Lemma merged_primary_both (c : string) :
  In c (columns qs_df) -> In c (columns feedback_df) ->
  merged_row feedback_df qs_df l r !! (c ++ "_qs")%string = l !! c.
Proof.
  intros Hq Hf.
  assert (Hf' : In c (columns with_names)) by (apply with_names_columns; left; exact Hf).
  pose proof (joined_primary qs_df with_names l partner plain_qs with_names_plain c Hq) as E.
  unfold suffixed in E. rewrite (proj2 (has_column_In _ _) Hf') in E.
  fold joined in E. rewrite <- E.
  apply turns_keep; apply not_suffixed_label; reflexivity.
Qed.

Lemma merged_row_in_output :
  empty feedback_df = false -> In l (rows qs_df) -> In r (rows feedback_df) ->
  In (merged_row feedback_df qs_df l r) (rows (merge_data_sources feedback_df qs_df)).
Proof.
  intros He Hl Hr. unfold merge_data_sources. rewrite He. cbv zeta. cbn [fold_left].
  rewrite !coalesce_rows. unfold merged_row.
  apply in_map, in_map. apply joined_in_merge; assumption.
Qed.

End MetricPrecedence.

Section MetricPrecedenceClaim.
Import Integrator.




End MetricPrecedenceClaim.

(** ** Casing *)

Section Casing.

Lemma case_facts (c : ascii) :
  is_alpha (upper_c c) = is_alpha c /\ is_alpha (lower_c c) = is_alpha c /\
  upper_c (upper_c c) = upper_c c /\ lower_c (lower_c c) = lower_c c /\
  lower_c (upper_c c) = lower_c c /\
  is_space (upper_c c) = is_space c /\
  is_upper (lower_c c) = false /\
  (is_upper c = true -> is_alpha c = true) /\
  (is_alpha c = true -> is_space c = false) /\
  eqc ")" (upper_c c) = eqc ")" c /\ eqc ")" (lower_c c) = eqc ")" c.
Proof.
  destruct c as [[] [] [] [] [] [] [] []];
    (repeat split; try reflexivity; intros; (reflexivity || discriminate)).
Qed.

Lemma title_from_cons (b : bool) (c : ascii) (t : str) :
  title_from b (c :: t) = titled b c :: title_from (is_alpha c) t.
Proof. reflexivity. Qed.

Lemma titled_facts (b : bool) (c : ascii) :
  is_alpha (titled b c) = is_alpha c /\
  titled b (titled b c) = titled b c /\
  is_space (titled b c) = is_space c /\
  (is_space c = true -> titled b c = c) /\
  (is_upper (titled b c) = true -> b = false /\ is_alpha c = true) /\
  eqc ")" (titled b c) = eqc ")" c.
Proof.
  destruct b, c as [[] [] [] [] [] [] [] []];
    (repeat split; try reflexivity; intros; (discriminate || reflexivity)).
Qed.

Lemma title_from_idempotent (b : bool) (s : str) :
  title_from b (title_from b s) = title_from b s.
Proof.
  revert b. induction s as [|c t IH]; intros b; [reflexivity|].
  rewrite !title_from_cons.
  destruct (titled_facts b c) as [Ha [Hi _]]. rewrite Ha, Hi, IH. reflexivity.
Qed.

Lemma title_idempotent (s : str) : title (title s) = title s.
Proof. apply title_from_idempotent. Qed.

Lemma title_from_tidy (a b : bool) (s : str) :
  tidy_from a (title_from b s) = tidy_from a s.
Proof.
  revert a b. induction s as [|c t IH]; intros a b; [reflexivity|].
  rewrite title_from_cons. cbn [tidy_from].
  destruct (titled_facts b c) as [_ [_ [Hs [Hc _]]]]. rewrite Hs.
  destruct (is_space c) eqn:E.
  - rewrite (Hc eq_refl), IH. reflexivity.
  - apply IH.
Qed.

Lemma title_tidy (s : str) : tidy s = true -> tidy (title s) = true.
Proof.
  destruct s as [|c t]; [reflexivity|]. unfold tidy, title.
  rewrite title_from_cons. rewrite <- title_from_cons. rewrite title_from_tidy. tauto.
Qed.

Lemma title_from_no_capital_pair (au b : bool) (s : str) :
  (au = true -> b = true) -> no_capital_pair au (title_from b s) = true.
Proof.
  revert au b. induction s as [|c t IH]; intros au b Hb; [reflexivity|].
  rewrite title_from_cons. cbn [no_capital_pair].
  destruct (titled_facts b c) as [_ [_ [_ [_ [Hu _]]]]].
  rewrite IH.
  - rewrite andb_true_r. apply negb_true_iff.
    destruct au; [|reflexivity]. cbn [andb].
    destruct (is_upper (titled b c)) eqn:E; [|reflexivity].
    destruct (Hu eq_refl) as [Hf _]. rewrite (Hb eq_refl) in Hf. discriminate.
  - intros E. apply (Hu E).
Qed.

Lemma title_from_no_paren (b : bool) (s : str) :
  none_in (eqc ")") s -> none_in (eqc ")") (title_from b s).
Proof.
  intros Hs. revert b. induction Hs as [|c t Hc Ht IH]; intros b; [constructor|].
  rewrite title_from_cons. constructor; [|apply IH].
  destruct (titled_facts b c) as [_ [_ [_ [_ [_ Hp]]]]]. rewrite Hp. exact Hc.
Qed.

End Casing.

(** ** Patterns that cannot match *)

Section NoMatch.

Lemma star_fails (p : ascii -> bool) (prev : option ascii) (s : str) (k : K) :
  (forall prev' s', s' `suffix_of` s -> k prev' s' = None) ->
  star_m p prev s k = None.
Proof.
  revert prev. induction s as [|c t IH]; intros prev Hk; simpl.
  - apply Hk. reflexivity.
  - destruct (p c); [|apply Hk; reflexivity].
    rewrite IH; [apply Hk; reflexivity|].
    intros prev' s' Hs. apply Hk. apply suffix_cons_r. exact Hs.
Qed.

(** A match fails when its continuation fails on every suffix. *)
Lemma m_fails (r : re) (prev : option ascii) (s : str) (k : K) :
  (forall prev' s', s' `suffix_of` s -> k prev' s' = None) ->
  m r prev s k = None.
Proof.
  revert prev s k. induction r as [|p|a IHa b IHb|a IHa|p| | | |a IHa];
    intros prev s k Hk; cbn [m].
  - apply Hk. reflexivity.
  - destruct s as [|c t]; [reflexivity|]. destruct (p c); [|reflexivity].
    apply Hk. apply suffix_cons_r. reflexivity.
  - apply IHa. intros prev' s' Hs. apply IHb.
    intros prev'' s'' Hs'. apply Hk. etransitivity; eassumption.
  - rewrite (IHa prev s k Hk). apply Hk. reflexivity.
  - apply star_fails. exact Hk.
  - destruct prev; [reflexivity | apply Hk; reflexivity].
  - destruct s as [|c [|d t]]; [apply Hk; reflexivity | | reflexivity].
    destruct (N.eqb (code c) 10); [apply Hk; reflexivity | reflexivity].
  - destruct (xorb _ _); [apply Hk; reflexivity | reflexivity].
  - destruct (m a prev s _); [apply Hk; reflexivity | reflexivity].
Qed.

Lemma m_seq_fails (a b : re) (prev : option ascii) (s : str) (k : K) :
  (forall prev' s', s' `suffix_of` s -> m b prev' s' k = None) ->
  m (Seq a b) prev s k = None.
Proof. intros Hb. cbn [m]. apply m_fails. exact Hb. Qed.

Lemma m_needs_char (q : ascii -> bool) (r : re) (prev : option ascii) (s : str) (k : K) :
  none_in q s -> m (Seq (Chr q) r) prev s k = None.
Proof.
  intros Hs. cbn [m]. destruct Hs as [|c t Hc Ht]; [reflexivity|]. rewrite Hc. reflexivity.
Qed.

Lemma none_in_suffix (q : ascii -> bool) (s s' : str) :
  none_in q s -> s' `suffix_of` s -> none_in q s'.
Proof.
  intros Hs [a ->]. unfold none_in in *. apply Forall_app in Hs. apply Hs.
Qed.

(** A text in which the pattern matches nowhere is left as it is. *)
Lemma sub_no_match (r : re) (repl : str) (prev : option ascii) (s : str) :
  (forall prev' s', s' `suffix_of` s -> match_len r prev' s' = None) ->
  sub_from r repl prev s 0 = s.
Proof.
  revert prev. induction s as [|c t IH]; intros prev Hs; cbn [sub_from].
  - rewrite Hs by reflexivity. reflexivity.
  - rewrite Hs by reflexivity. rewrite IH; [reflexivity|].
    intros prev' s' Hs'. apply Hs. apply suffix_cons_r. exact Hs'.
Qed.

Lemma match_len_none (r : re) (prev : option ascii) (s : str) :
  m r prev s k_rest = None -> match_len r prev s = None.
Proof. unfold match_len, k_rest. intros ->. reflexivity. Qed.

Import Cleaner.

(** Without a closing parenthesis there is no parenthetical suffix. *)
Lemma paren_suffix_idle (s : str) :
  none_in (eqc ")") s -> sub paren_suffix "" s = s.
Proof.
  intros Hs. unfold sub. apply sub_no_match. intros prev' s' Hs'.
  apply match_len_none. unfold paren_suffix. cbn [seqs].
  apply m_seq_fails. intros p1 s1 H1.
  change (Lit "(") with (Chr (chr_is "(")). apply m_seq_fails. intros p2 s2 H2.
  apply m_seq_fails. intros p3 s3 H3.
  change (Lit ")") with (Chr (chr_is ")")). apply m_needs_char.
  apply (none_in_suffix _ s); [exact Hs|].
  etransitivity; [exact H3|]. etransitivity; [exact H2|]. etransitivity; eassumption.
Qed.

Lemma no_capital_pair_suffix (s s' : str) (b : bool) :
  no_capital_pair b s = true -> s' `suffix_of` s -> exists b', no_capital_pair b' s' = true.
Proof.
  intros Hs [a ->]. revert b Hs. induction a as [|c a IH]; intros b Hs.
  - exists b. exact Hs.
  - cbn [app no_capital_pair] in Hs. apply andb_true_iff in Hs as [_ Hs]. apply (IH _ Hs).
Qed.

Lemma capital_pair_needed (r : re) (prev : option ascii) (s : str) (k : K) (b : bool) :
  no_capital_pair b s = true ->
  m (Seq (AtLeast2 is_upper) r) prev s k = None.
Proof.
  intros Hs. unfold AtLeast2, Plus. cbn [m].
  destruct s as [|c [|d t]]; [reflexivity | destruct (is_upper c); reflexivity |].
  cbn [no_capital_pair] in Hs.
  destruct (is_upper c); [|reflexivity]. destruct (is_upper d); [|reflexivity].
  rewrite !andb_true_r in Hs. cbn in Hs. rewrite andb_false_r in Hs. discriminate.
Qed.

(** Without two capitals in a row there is no state suffix. *)
Lemma state_suffix_idle (s : str) :
  no_capital_pair false s = true -> sub state_suffix "" s = s.
Proof.
  intros Hs. unfold sub. apply sub_no_match. intros prev' s' Hs'.
  apply match_len_none. unfold state_suffix. cbn [seqs].
  apply m_seq_fails. intros p1 s1 H1. apply m_seq_fails. intros p2 s2 H2.
  destruct (no_capital_pair_suffix s s2 false Hs) as [b' Hb'].
  { etransitivity; [exact H2|]. etransitivity; eassumption. }
  apply (capital_pair_needed _ _ _ _ b' Hb').
Qed.

End NoMatch.

(** ** White space *)

Section WhiteSpace.
Import Cleaner.

Lemma collapse_squeeze (s : str) (prev : option ascii) :
  sub_from (Plus is_space) (py " ") prev s 0 = squeeze false s /\
  sub_from (Plus is_space) (py " ") prev s (length (take_class is_space s)) = squeeze true s.
Proof.
  revert prev. induction s as [|c t IH]; intros prev.
  - split; reflexivity.
  - assert (H0 : sub_from (Plus is_space) (py " ") prev (c :: t) 0 = squeeze false (c :: t)).
    { cbn [sub_from squeeze]. rewrite match_len_plus. destruct (is_space c).
      - rewrite (proj2 (IH (Some c))). reflexivity.
      - rewrite (proj1 (IH (Some c))). reflexivity. }
    split; [exact H0|].
    cbn [take_class squeeze]. destruct (is_space c) eqn:E.
    + cbn [length sub_from]. apply (proj2 (IH (Some c))).
    + cbn [length]. rewrite H0. cbn [squeeze]. rewrite E. reflexivity.
Qed.

Lemma collapse_ws_squeeze (s : str) : collapse_ws s = squeeze false s.
Proof. unfold collapse_ws, sub. apply collapse_squeeze. Qed.

Lemma squeeze_tidy (s : str) (b : bool) :
  tidy_from b s = true -> squeeze b s = s.
Proof.
  revert b. induction s as [|c t IH]; intros b; [reflexivity|].
  cbn [tidy_from squeeze]. destruct (is_space c).
  - destruct b; [discriminate|]. cbn [negb andb].
    intros Ht. apply andb_true_iff in Ht as [Hc Ht].
    apply eqc_true in Hc. subst. rewrite (IH true Ht). reflexivity.
  - intros Ht. rewrite (IH false Ht). reflexivity.
Qed.

Lemma collapse_ws_tidy (s : str) : tidy s = true -> collapse_ws s = s.
Proof.
  rewrite collapse_ws_squeeze. destruct s as [|c t]; [reflexivity|].
  unfold tidy. intros Ht. pose proof (squeeze_tidy _ _ Ht) as E.
  cbn [tidy_from] in Ht. destruct (is_space c) eqn:Ec; [discriminate|].
  cbn [squeeze] in *. rewrite Ec in *. exact E.
Qed.

Lemma lstrip_starts_clean (s : str) : starts_clean (lstrip s).
Proof.
  induction s as [|c t IH]; simpl; [exact I|].
  destruct (is_space c) eqn:E; [exact IH | exact E].
Qed.

Lemma lstrip_clean (s : str) : starts_clean s -> lstrip s = s.
Proof. destruct s as [|c t]; [reflexivity|]. simpl. intros ->. reflexivity. Qed.

Lemma starts_clean_app (a b : str) : a <> [] -> starts_clean (a ++ b) <-> starts_clean a.
Proof. destruct a; [congruence | reflexivity]. Qed.

Lemma lstrip_suffix (s : str) : lstrip s `suffix_of` s.
Proof.
  induction s as [|c t IH]; simpl; [reflexivity|].
  destruct (is_space c); [apply suffix_cons_r; exact IH | reflexivity].
Qed.

(** [rstrip] keeps a clean start. *)
Lemma rstrip_starts_clean (s : str) : starts_clean s -> starts_clean (rstrip s).
Proof.
  unfold rstrip. destruct s as [|c t]; [intros _; exact I|]. intros Hc.
  destruct (lstrip_suffix (rev (c :: t))) as [a Ha].
  assert (E : c :: t = rev (lstrip (rev (c :: t))) ++ rev a).
  { rewrite <- rev_app_distr, <- Ha, rev_involutive. reflexivity. }
  destruct (rev (lstrip (rev (c :: t)))) as [|x u] eqn:Ex; [exact I|].
  cbn [app] in E. injection E as <- _. exact Hc.
Qed.

Lemma strip_ends (s : str) : starts_clean (strip s) /\ starts_clean (rev (strip s)).
Proof.
  unfold strip. split.
  - apply rstrip_starts_clean, lstrip_starts_clean.
  - unfold rstrip. rewrite rev_involutive. apply lstrip_starts_clean.
Qed.

Lemma ends_clean_tail (b : bool) (c : ascii) (t : str) :
  ends_clean b (c :: t) -> ends_clean (is_space c) t.
Proof.
  unfold ends_clean. destruct t as [|d u].
  - simpl. tauto.
  - intros Hs. change (rev (c :: d :: u)) with (rev (d :: u) ++ [c]) in Hs.
    apply starts_clean_app in Hs; [exact Hs|].
    intros E. apply (f_equal (@length ascii)) in E. rewrite length_rev in E. discriminate.
Qed.

Lemma squeeze_is_tidy (s : str) (b : bool) :
  ends_clean b s -> tidy_from b (squeeze b s) = true.
Proof.
  revert b. induction s as [|c t IH]; intros b Hs.
  - simpl in Hs. subst. reflexivity.
  - pose proof (ends_clean_tail b c t Hs) as Ht.
    cbn [squeeze]. destruct (is_space c) eqn:E.
    + destruct b.
      * apply IH. exact Ht.
      * cbn [tidy_from]. change (is_space " ") with true. cbn.
        apply IH. exact Ht.
    + cbn [tidy_from]. rewrite E. apply IH. exact Ht.
Qed.

Lemma collapse_strip_tidy (s : str) : tidy (collapse_ws (strip s)) = true.
Proof.
  rewrite collapse_ws_squeeze. destruct (strip_ends s) as [Hs He].
  destruct (strip s) as [|c t] eqn:E; [reflexivity|].
  simpl in Hs. cbn [squeeze]. rewrite Hs. unfold tidy. cbn [tidy_from]. rewrite Hs.
  apply squeeze_is_tidy. pose proof (ends_clean_tail false c t He) as Ht.
  rewrite Hs in Ht. exact Ht.
Qed.

Lemma tidy_ends (s : str) (b : bool) :
  tidy_from b s = true -> starts_clean (rev s).
Proof.
  revert b. induction s as [|c t IH]; intros b Ht; [exact I|].
  cbn [tidy_from] in Ht. destruct t as [|d u].
  - simpl. destruct (is_space c); [|reflexivity].
    rewrite andb_false_r in Ht. discriminate.
  - change (rev (c :: d :: u)) with (rev (d :: u) ++ [c]).
    apply starts_clean_app.
    + intros E. apply (f_equal (@length ascii)) in E. rewrite length_rev in E. discriminate.
    + destruct (is_space c).
      * apply andb_true_iff in Ht as [_ Ht]. apply (IH _ Ht).
      * apply (IH _ Ht).
Qed.

Lemma strip_tidy (s : str) : tidy s = true -> strip s = s.
Proof.
  destruct s as [|c t]; [reflexivity|]. unfold tidy. intros Ht.
  unfold strip, rstrip. rewrite (lstrip_clean (c :: t)).
  - rewrite (lstrip_clean (rev (c :: t))); [apply rev_involutive | apply (tidy_ends _ _ Ht)].
  - cbn [tidy_from] in Ht. simpl. destruct (is_space c); [discriminate | reflexivity].
Qed.

(** The rewriting steps add no closing parenthesis. *)
Lemma sub_from_keeps_none (q : ascii -> bool) (r : re) (prev : option ascii)
  (s : str) (n : nat) :
  none_in q s -> none_in q (sub_from r [] prev s n).
Proof.
  intros Hs. revert prev n. induction Hs as [|c t Hc Ht IH]; intros prev n.
  - destruct n; cbn [sub_from]; [|constructor]. destruct (match_len r prev []) as [[|k]|]; constructor.
  - destruct n; cbn [sub_from]; [|apply IH].
    destruct (match_len r prev (c :: t)) as [[|k]|]; cbn [app].
    + constructor; [exact Hc | apply IH].
    + apply IH.
    + constructor; [exact Hc | apply IH].
Qed.

Lemma strip_keeps_none (q : ascii -> bool) (s : str) : none_in q s -> none_in q (strip s).
Proof.
  intros Hs. unfold strip, rstrip. apply Forall_rev.
  apply (none_in_suffix q (rev (lstrip s))); [|apply lstrip_suffix].
  apply Forall_rev. apply (none_in_suffix q s); [exact Hs | apply lstrip_suffix].
Qed.

Lemma squeeze_keeps_none (q : ascii -> bool) (s : str) (b : bool) :
  q " "%char = false -> none_in q s -> none_in q (squeeze b s).
Proof.
  intros Hq Hs. revert b. induction Hs as [|c t Hc Ht IH]; intros b; [constructor|].
  cbn [squeeze]. destruct (is_space c).
  - destruct b; [apply IH | constructor; [exact Hq | apply IH]].
  - constructor; [exact Hc | apply IH].
Qed.

(** [clean_city_name] is idempotent on text without a closing
    parenthesis. *)
Lemma clean_city_name_idempotent (s : str) :
  none_in (eqc ")") s ->
  clean_city_name (Some (clean_city_name (Some s))) = clean_city_name (Some s).
Proof.
  intros Hs. cbn [clean_city_name].
  set (u := rewrite_city s).
  assert (Hu : tidy u = true) by apply collapse_strip_tidy.
  assert (Hp : none_in (eqc ")") u).
  { unfold u, rewrite_city. rewrite collapse_ws_squeeze.
    apply squeeze_keeps_none; [reflexivity|]. apply strip_keeps_none.
    unfold sub. apply sub_from_keeps_none. apply sub_from_keeps_none. exact Hs. }
  assert (E : rewrite_city (title u) = title u).
  { unfold rewrite_city.
    rewrite paren_suffix_idle by (apply title_from_no_paren; exact Hp).
    rewrite state_suffix_idle by (apply title_from_no_capital_pair; discriminate).
    rewrite strip_tidy by (apply title_tidy; exact Hu).
    apply collapse_ws_tidy. apply title_tidy. exact Hu. }
  rewrite E. apply title_idempotent.
Qed.

End WhiteSpace.

(** ** Title-casing of names *)

Section TitleCase.
Import Cleaner.

Lemma split_from_word (w cur s : str) :
  none_in is_space w -> split_from cur (w ++ s) = split_from (rev w ++ cur) s.
Proof.
  intros Hw. revert cur. induction Hw as [|c t Hc Ht IH]; intros cur; [reflexivity|].
  cbn [app split_from]. rewrite Hc, IH. cbn [rev]. rewrite <- app_assoc. reflexivity.
Qed.

Lemma split_join (ws : list str) :
  Forall is_word_text ws -> split (join (py " ") ws) = ws.
Proof.
  unfold split. induction 1 as [|w ws [Hne Hw] Hws IH]; [reflexivity|].
  cbn [join]. destruct ws as [|w' ws'].
  - rewrite <- (app_nil_r w) at 1. rewrite (split_from_word w [] [] Hw), app_nil_r.
    cbn [split_from]. destruct (rev w) eqn:E.
    + apply (f_equal (@rev ascii)) in E. rewrite rev_involutive in E. contradiction.
    + rewrite <- E, rev_involutive. reflexivity.
  - rewrite (split_from_word w [] _ Hw), app_nil_r.
    change (py " " ++ join (py " ") (w' :: ws')) with (" "%char :: join (py " ") (w' :: ws')).
    cbn [split_from]. change (is_space " ") with true. cbv iota.
    destruct (rev w) eqn:E.
    + apply (f_equal (@rev ascii)) in E. rewrite rev_involutive in E. contradiction.
    + rewrite <- E, rev_involutive, IH. reflexivity.
Qed.

Lemma split_from_words (cur s : str) :
  none_in is_space cur -> Forall is_word_text (split_from cur s).
Proof.
  revert cur. induction s as [|c t IH]; intros cur Hcur; cbn [split_from].
  - destruct cur as [|x u]; [constructor|]. constructor; [|constructor]. split.
    + intros E. apply (f_equal (@length ascii)) in E. rewrite length_rev in E. discriminate.
    + apply Forall_rev. exact Hcur.
  - destruct (is_space c) eqn:E.
    + destruct cur as [|x u]; [apply IH; constructor|].
      constructor; [|apply IH; constructor]. split.
      * intros E'. apply (f_equal (@length ascii)) in E'. rewrite length_rev in E'. discriminate.
      * apply Forall_rev. exact Hcur.
    + apply IH. constructor; assumption.
Qed.

Lemma split_words (s : str) : Forall is_word_text (split s).
Proof. apply split_from_words. constructor. Qed.

Lemma lower_no_space (w : str) : none_in is_space w -> none_in is_space (lower w).
Proof.
  intros Hw. unfold lower. apply Forall_map. eapply Forall_impl; [exact Hw|].
  intros c Hc. simpl. rewrite lower_c_space. exact Hc.
Qed.

Lemma lower_word (w : str) : is_word_text w -> is_word_text (lower w).
Proof.
  intros [Hne Hw]. split; [|apply lower_no_space; exact Hw].
  destruct w; [congruence | discriminate].
Qed.

Lemma capitalize_word (w : str) : is_word_text w -> is_word_text (capitalize w).
Proof.
  intros [Hne Hw]. destruct w as [|c t]; [congruence|]. split; [discriminate|].
  inversion Hw as [|x l Hc Ht]; subst. cbn [capitalize]. constructor.
  - destruct (case_facts c) as [_ [_ [_ [_ [_ [Hs _]]]]]]. rewrite Hs. exact Hc.
  - apply lower_no_space. exact Ht.
Qed.

Lemma lower_lower (w : str) : lower (lower w) = lower w.
Proof.
  unfold lower. rewrite map_map. apply map_ext. intros c.
  apply (case_facts c).
Qed.

Lemma capitalize_capitalize (w : str) : capitalize (capitalize w) = capitalize w.
Proof.
  destruct w as [|c t]; [reflexivity|]. cbn [capitalize].
  rewrite lower_lower. f_equal. apply (case_facts c).
Qed.

Lemma lower_capitalize (w : str) : lower (capitalize w) = lower w.
Proof.
  destruct w as [|c t]; [reflexivity|]. cbn [capitalize lower map].
  fold (lower t). fold (lower (lower t)). rewrite lower_lower. f_equal. apply (case_facts c).
Qed.

Lemma later_word_twice (w : str) : later_word (later_word w) = later_word w.
Proof.
  unfold later_word. destruct (in_words (lower w) lowercase_words) eqn:E.
  - rewrite lower_lower, E. reflexivity.
  - rewrite lower_capitalize, E. apply capitalize_capitalize.
Qed.

Lemma later_word_word (w : str) : is_word_text w -> is_word_text (later_word w).
Proof.
  intros Hw. unfold later_word.
  destruct (in_words _ _); [apply lower_word | apply capitalize_word]; exact Hw.
Qed.

Lemma title_case_unfold (name : str) :
  _title_case_university_name name =
  match split name with
  | [] => name
  | first :: others => join (py " ") (capitalize first :: map later_word others)
  end.
Proof. reflexivity. Qed.

Lemma title_case_idempotent (name : str) :
  _title_case_university_name (_title_case_university_name name) =
  _title_case_university_name name.
Proof.
  rewrite (title_case_unfold name).
  pose proof (split_words name) as Hw.
  destruct (split name) as [|first others] eqn:E.
  - rewrite title_case_unfold, E. reflexivity.
  - inversion Hw as [|x l Hf Ho]; subst.
    rewrite title_case_unfold, split_join.
    + rewrite capitalize_capitalize, map_map.
      f_equal. f_equal. apply map_ext. intros w. apply later_word_twice.
    + constructor; [apply capitalize_word; exact Hf|].
      apply Forall_map. eapply Forall_impl; [exact Ho|]. intros w. apply later_word_word.
Qed.

(** The cache never changes what [clean_university_name] returns. *)
Lemma clean_university_name_cached (cache : gmap str str) (s : str) :
  consistent cache ->
  fst (clean_university_name cache (Some s)) = clean_name_uncached s /\
  consistent (snd (clean_university_name cache (Some s))).
Proof.
  intros Hc. unfold clean_university_name. destruct (cache !! s) as [v|] eqn:E; cbn [fst snd].
  - split; [apply (Hc s v E) | exact Hc].
  - split; [reflexivity|]. intros k v Hk.
    destruct (decide (s = k)) as [<- | Hne].
    + rewrite lookup_insert_eq in Hk. congruence.
    + rewrite lookup_insert_ne in Hk by exact Hne. apply (Hc k v Hk).
Qed.

End TitleCase.

(** ** Idempotence of the normalizers *)

Section Idempotence.
Import Cleaner.


End Idempotence.

(** ** The match score as a percentage *)

Section ScoreBounds.
Import Recommendations.

Lemma weight_nonneg (importance : Z) (percent : Q) :
  0 <= importance -> (0 <= percent)%Q -> (0 <= weight importance percent)%Q.
Proof.
  intros Hi Hp. unfold weight.
  assert (Hq : (0 <= inject_Z importance)%Q).
  { change 0%Q with (inject_Z 0). rewrite <- Zle_Qle. exact Hi. }
  apply Qmult_le_0_compat; [|exact Hp].
  apply Qle_shift_div_l; [reflexivity|]. lra.
Qed.

Lemma part_of_weight (v w : Q) :
  (0 <= v)%Q -> (v <= 10)%Q -> (0 <= w)%Q -> (0 <= v / 10 * w /\ v / 10 * w <= w)%Q.
Proof.
  intros H0 H10 Hw.
  assert (E : (v / 10 == v * (1 # 10))%Q) by (unfold Qdiv; reflexivity).
  rewrite E. split.
  - apply Qmult_le_0_compat; [|exact Hw]. lra.
  - assert (H1 : (v * (1 # 10) * w <= 1 * w)%Q) by (apply Qmult_le_compat_r; [lra | exact Hw]).
    lra.
Qed.

Lemma append_share (r : str) (st : state) : share st -> share (append r st).
Proof. exact (fun H => H). Qed.

Lemma gain_share (x w : Q) (st : state) :
  (0 <= x)%Q -> (x <= w)%Q -> share st -> share (add_max w (add_score x st)).
Proof. unfold share, add_max, add_score. cbn [score max_possible_score]. intros. lra. Qed.

Lemma gain_grows (x w : Q) (st : state) :
  (0 <= w)%Q -> (max_possible_score st <= max_possible_score (add_max w (add_score x st)))%Q.
Proof. unfold add_max, add_score. cbn [max_possible_score]. intros. lra. Qed.

Lemma metric_step_share (value : option Q) (importance : Z) (percent : Q)
  (notable : Q -> bool) (reason : string) (st : state) :
  rated value -> 0 <= importance -> (0 <= percent)%Q -> share st ->
  share (metric_step value importance percent notable reason st) /\
  (max_possible_score st <=
   max_possible_score (metric_step value importance percent notable reason st))%Q.
Proof.
  intros Hv Hi Hp Hst. unfold metric_step. destruct value as [v|]; [|split; [exact Hst | lra]].
  destruct Hv as [H0 H10].
  pose proof (weight_nonneg importance percent Hi Hp) as Hw.
  destruct (part_of_weight v _ H0 H10 Hw) as [Ha Hb].
  destruct (notable v); (split; [apply gain_share; assumption | apply gain_grows; exact Hw]).
Qed.

Lemma academic_step_share (u : University) (p : UserProfile) (st : state) :
  rated (academic_rigor u) -> 0 <= academic_importance p -> share st ->
  share (academic_step u p st) /\
  (max_possible_score st <= max_possible_score (academic_step u p st))%Q.
Proof.
  intros Hv Hi Hst. unfold academic_step.
  destruct (academic_rigor u) as [v|]; [|split; [exact Hst | lra]].
  destruct Hv as [H0 H10].
  assert (Hw : (0 <= weight (academic_importance p) 25)%Q) by (apply weight_nonneg; [exact Hi | lra]).
  destruct (part_of_weight v _ H0 H10 Hw) as [Ha Hb].
  destruct (Qleb 8 v && (4 <=? academic_importance p))%bool; [|destruct (Qleb 6 v)];
    (split; [apply gain_share; assumption | apply gain_grows; exact Hw]).
Qed.

Lemma budget_positive (p : UserProfile) (b : Q) :
  validated p -> budget p = Some b -> (0 < b)%Q.
Proof.
  intros Hp. unfold budget. destruct Hp as (_ & _ & _ & _ & _ & _ & _ & Hb).
  destruct (max_tuition_budget p) as [b'|]; [|discriminate].
  destruct (Qeq_bool b' 0) eqn:E; [discriminate|]. intros [= <-].
  apply Qeq_bool_neq in E. lra.
Qed.

Lemma cost_step_share (u : University) (p : UserProfile) (st : state) :
  validated p -> share st ->
  share (cost_step u p st) /\
  (max_possible_score st <= max_possible_score (cost_step u p st))%Q.
Proof.
  intros Hp Hst. unfold cost_step.
  destruct (tuition_international u) as [tuition|]; [|split; [exact Hst | lra]].
  destruct (budget p) as [b|] eqn:Hb; [|split; [exact Hst | lra]].
  pose proof (budget_positive p b Hp Hb) as Hpos.
  assert (Hw : (0 <= weight (cost_importance p) 10)%Q).
  { apply weight_nonneg; [apply Hp | lra]. }
  set (w := weight (cost_importance p) 10) in *.
  unfold share in *. destruct (Qleb tuition b) eqn:E.
  - unfold add_max, add_score, append. cbn [score max_possible_score]. split; lra.
  - unfold Qleb in E. apply Qle_bool_false in E.
    assert (Ht : (0 < tuition)%Q) by lra.
    assert (Hr : (0 <= b / tuition /\ b / tuition <= 1)%Q).
    { split.
      - apply Qle_shift_div_l; [exact Ht | lra].
      - apply Qle_shift_div_r; [exact Ht | lra]. }
    assert (Hm : (Qmax 0 (b / tuition) == b / tuition)%Q) by (apply Q.max_r; apply Hr).
    unfold add_max, add_score. cbn [score max_possible_score]. rewrite Hm.
    assert (Hx : (0 <= w * (b / tuition) /\ w * (b / tuition) <= w)%Q).
    { split.
      - apply Qmult_le_0_compat; [exact Hw | apply Hr].
      - assert (H1 : (b / tuition * w <= 1 * w)%Q)
          by (apply Qmult_le_compat_r; [apply Hr | exact Hw]).
        lra. }
    split; lra.
Qed.

Lemma ranking_step_share (u : University) (p : UserProfile) (st : state) :
  0 <= ranking_importance p -> share st ->
  share (ranking_step u p st) /\
  (max_possible_score st <= max_possible_score (ranking_step u p st))%Q.
Proof.
  intros Hi Hst. unfold ranking_step. destruct (qs_rank u) as [r|]; [|split; [exact Hst | lra]].
  assert (Hw : (0 <= weight (ranking_importance p) 5)%Q) by (apply weight_nonneg; [exact Hi | lra]).
  unfold share in *.
  destruct (rank_ok r p); [destruct (r <=? 100); [|destruct (r <=? 500)]|];
    unfold add_max, add_score, append; cbn [score max_possible_score]; split; lra.
Qed.

Lemma location_step_share (u : University) (p : UserProfile) (st : state) :
  share st ->
  share (location_step u p st) /\
  (max_possible_score (location_step u p st) == max_possible_score st + 5)%Q.
Proof.
  intros Hst. unfold location_step, share in *.
  destruct (location_ok u p); unfold add_max, add_score, append;
    cbn [score max_possible_score]; split; lra.
Qed.

Lemma language_step_share (u : University) (p : UserProfile) (st : state) :
  share st ->
  share (language_step u p st) /\
  (max_possible_score (language_step u p st) == max_possible_score st + 5)%Q.
Proof.
  intros Hst. unfold language_step, share in *.
  destruct (language_ok u p); unfold add_max, add_score, append;
    cbn [score max_possible_score]; split; lra.
Qed.

Lemma climate_step_share (u : University) (p : UserProfile) (st : state) :
  share st ->
  share (climate_step u p st) /\
  (max_possible_score st <= max_possible_score (climate_step u p st))%Q.
Proof.
  intros Hst. unfold climate_step, share in *.
  destruct (climate_ok u p); unfold add_max, add_score, append;
    cbn [score max_possible_score]; split; lra.
Qed.

Lemma accommodation_step_share (u : University) (p : UserProfile) (st : state) :
  share st ->
  share (accommodation_step u p st) /\
  (max_possible_score st <= max_possible_score (accommodation_step u p st))%Q.
Proof.
  intros Hst. unfold accommodation_step, share in *.
  destruct (accommodation_ok u p); unfold add_max, add_score, append;
    cbn [score max_possible_score]; split; lra.
Qed.

(** After the last criterion the score is a share of a weight of at least
    ten: the five points of the location and of the language criterion. *)
Lemma criteria_share (u : University) (p : UserProfile) :
  metrics_in_range u -> validated p ->
  share (criteria u p) /\ (10 <= max_possible_score (criteria u p))%Q.
Proof.
  intros (Ha & Hr & Hd & Hl & Hs) Hp.
  pose proof Hp as (Ia & Ir & Id & Il & Is & Ic & Ik & _).
  unfold criteria.
  assert (H0 : share initial) by (unfold share, initial; cbn; lra).
  assert (M0 : (0 <= max_possible_score initial)%Q) by (cbn; lra).
  destruct (academic_step_share u p _ Ha Ia H0) as [H1 M1].
  set (s1 := academic_step u p initial) in *.
  destruct (metric_step_share (research_quality u) (research_importance p) 15
              (fun v => (Qleb 8 v && (4 <=? research_importance p))%bool)
              "Strong research opportunities" s1 Hr Ir ltac:(lra) H1) as [H2 M2].
  fold (research_step u p s1) in H2, M2. set (s2 := research_step u p s1) in *.
  destruct (metric_step_share (cultural_diversity u) (cultural_diversity_importance p) 15
              (fun v => (Qleb 8 v && (4 <=? cultural_diversity_importance p))%bool)
              "Highly diverse international environment" s2 Hd Id ltac:(lra) H2) as [H3 M3].
  fold (diversity_step u p s2) in H3, M3. set (s3 := diversity_step u p s2) in *.
  destruct (metric_step_share (student_life u) (student_life_importance p) 15
              (fun v => (Qleb 8 v && (4 <=? student_life_importance p))%bool)
              "Excellent student life and activities" s3 Hl Il ltac:(lra) H3) as [H4 M4].
  fold (life_step u p s3) in H4, M4. set (s4 := life_step u p s3) in *.
  destruct (metric_step_share (campus_safety u) (campus_safety_importance p) 10
              (fun v => Qleb 8 v)
              "Very safe campus environment" s4 Hs Is ltac:(lra) H4) as [H5 M5].
  fold (safety_step u p s4) in H5, M5. set (s5 := safety_step u p s4) in *.
  destruct (cost_step_share u p s5 Hp H5) as [H6 M6]. set (s6 := cost_step u p s5) in *.
  destruct (ranking_step_share u p s6 Ik H6) as [H7 M7]. set (s7 := ranking_step u p s6) in *.
  destruct (location_step_share u p s7 H7) as [H8 M8]. set (s8 := location_step u p s7) in *.
  destruct (language_step_share u p s8 H8) as [H9 M9]. set (s9 := language_step u p s8) in *.
  destruct (climate_step_share u p s9 H9) as [H10 M10]. set (s10 := climate_step u p s9) in *.
  destruct (accommodation_step_share u p s10 H10) as [H11 M11].
  split; [exact H11 | lra].
Qed.

(** X1. For a university whose five metrics lie between 0 and 10 and a
    profile with non-negative importances and budget, [calculate_match_score]
    gathers a weight of at least 10 and a score between 0 and that weight:
    the zero-weight branch is never taken, the result is the share in
    percent, between 0 and 100, and the cap at 100 cuts nothing. *)
Theorem match_score_is_a_percentage (u : University) (p : UserProfile) :
  metrics_in_range u -> validated p ->
  let st := criteria u p in
  (10 <= max_possible_score st)%Q /\
  (0 <= score st /\ score st <= max_possible_score st)%Q /\
  (fst (calculate_match_score u p) == score st / max_possible_score st * 100)%Q /\
  (0 <= fst (calculate_match_score u p) /\ fst (calculate_match_score u p) <= 100)%Q.
Proof.
  intros Hu Hp st. destruct (criteria_share u p Hu Hp) as [[H0 H1] Hm]. fold st in H0, H1, Hm.
  assert (Hpos : (0 < max_possible_score st)%Q) by lra.
  assert (Hshare : (0 <= score st / max_possible_score st /\
                    score st / max_possible_score st <= 1)%Q).
  { split.
    - apply Qle_shift_div_l; [exact Hpos | lra].
    - apply Qle_shift_div_r; [exact Hpos | lra]. }
  assert (Hfinal : (fst (calculate_match_score u p) ==
                    Qmin (score st / max_possible_score st * 100) 100)%Q).
  { unfold calculate_match_score. fold st. cbn [fst]. unfold Qltb0.
    rewrite (proj2 (Qle_bool_false _ _) Hpos). reflexivity. }
  assert (Hcap : (Qmin (score st / max_possible_score st * 100) 100 ==
                  score st / max_possible_score st * 100)%Q) by (apply Q.min_l; lra).
  split; [exact Hm|]. split; [split; assumption|].
  split; [rewrite Hfinal; exact Hcap|].
  rewrite Hfinal, Hcap. split; lra.
Qed.

End ScoreBounds.

Section ScoreBoundsExample.
Import Recommendations.

Lemma match_score_is_a_percentage_witness :
  let st := criteria Fixtures.arid_university Fixtures.tropical_profile in
  (10 <= max_possible_score st)%Q /\
  (0 <= score st /\ score st <= max_possible_score st)%Q /\
  (fst (calculate_match_score Fixtures.arid_university Fixtures.tropical_profile) ==
   score st / max_possible_score st * 100)%Q /\
  (0 <= fst (calculate_match_score Fixtures.arid_university Fixtures.tropical_profile) /\
   fst (calculate_match_score Fixtures.arid_university Fixtures.tropical_profile) <= 100)%Q.
Proof.
  apply (match_score_is_a_percentage Fixtures.arid_university Fixtures.tropical_profile).
  - vm_compute. repeat split; discriminate.
  - vm_compute. repeat split; discriminate.
Defined.

End ScoreBoundsExample.

(** ** Ranks of the QS table are not negative *)

Section RankSign.
Import Integrator.
Context {interp : Interpreter}.

Lemma eqc_sym (a b : ascii) : eqc a b = eqc b a.
Proof. unfold eqc. apply Ascii.eqb_sym. Qed.

Lemma before_first_lacks (c : ascii) (s : str) :
  contains_char c (before_first c s) = false.
Proof.
  induction s as [|x t IH]; [reflexivity|]. cbn [before_first].
  destruct (eqc x c) eqn:E; [reflexivity|].
  cbn [contains_char existsb]. rewrite eqc_sym, E. exact IH.
Qed.

Lemma before_first_keeps_lack (x c : ascii) (s : str) :
  contains_char x s = false -> contains_char x (before_first c s) = false.
Proof.
  induction s as [|y t IH]; [reflexivity|]. cbn [contains_char existsb before_first].
  intros H. apply orb_false_iff in H as [Hy Ht].
  destruct (eqc y c); [reflexivity|].
  cbn [contains_char existsb]. rewrite Hy. apply IH. exact Ht.
Qed.

Lemma lskip_keeps_lack (x : ascii) (s : str) :
  contains_char x s = false -> contains_char x (lskip s) = false.
Proof.
  induction s as [|y t IH]; [reflexivity|]. intros H. cbn [lskip].
  destruct (is_c_space y); [|exact H].
  cbn [contains_char existsb] in H. apply orb_false_iff in H as [_ Ht]. apply IH. exact Ht.
Qed.

Lemma contains_char_rev (x : ascii) (s : str) :
  contains_char x (rev s) = contains_char x s.
Proof.
  unfold contains_char. induction s as [|y t IH]; [reflexivity|].
  cbn [rev existsb]. rewrite existsb_app, IH. cbn [existsb].
  rewrite orb_false_r. apply orb_comm.
Qed.

Lemma skip_space_keeps_lack (x : ascii) (s : str) :
  contains_char x s = false -> contains_char x (skip_space s) = false.
Proof.
  intros H. unfold skip_space. rewrite contains_char_rev. apply lskip_keeps_lack.
  rewrite contains_char_rev. apply lskip_keeps_lack. exact H.
Qed.

Lemma int_digits_nonneg (s : str) (acc : Z) (b : bool) (n : Z) :
  0 <= acc -> int_digits acc b s = Some n -> 0 <= n.
Proof.
  revert acc b. induction s as [|c t IH]; intros acc b Hacc; cbn [int_digits].
  - destruct b; [intros [= <-]; exact Hacc | discriminate].
  - destruct (is_digit c) eqn:E.
    + apply IH. pose proof (digit_val_nonneg c E). lia.
    + destruct (N.eqb (code c) 95 && b)%bool; [apply IH; exact Hacc | discriminate].
Qed.

(** [int()] of a text without a minus sign is not negative. *)
Lemma py_int_nonneg (s : str) (n : Z) :
  contains_char "-" s = false -> py_int s = Ret n -> 0 <= n.
Proof.
  intros Hs. apply skip_space_keeps_lack in Hs. unfold py_int.
  assert (Hbody : forall t r,
            match int_digits 0 false t with
            | Some n => if exceeds_limit (count_digits t) then Raise ValueError else Ret n
            | None => Raise ValueError
            end = Ret r -> 0 <= r).
  { intros t r. destruct (int_digits 0 false t) as [k|] eqn:E; [|discriminate].
    destruct (exceeds_limit _); [discriminate|]. intros [= <-].
    apply (int_digits_nonneg t 0 false k); [lia | exact E]. }
  destruct (skip_space s) as [|c t]; [discriminate|].
  destruct (N.eqb (code c) 43); [apply Hbody|].
  destruct (N.eqb (code c) 45) eqn:E45; [|apply Hbody].
  exfalso. cbn [contains_char existsb] in Hs. apply orb_false_iff in Hs as [Hc _].
  apply N.eqb_eq in E45. unfold eqc in Hc.
  assert (c = "-"%char) as ->.
  { rewrite <- (ascii_N_embedding c). unfold code in E45. rewrite E45. reflexivity. }
  discriminate.
Qed.

(** X2. [clean_qs_rank] never returns a negative rank: the text it hands to
    [int()] holds no minus sign. *)
Theorem clean_qs_rank_not_negative (v : option str) (n : Z) :
  clean_qs_rank v = Some n -> 0 <= n.
Proof.
  unfold clean_qs_rank. destruct v as [v|]; [|discriminate].
  set (r1 := drop_leading "=" (strip v)).
  set (r2 := if contains_char "-" r1 then before_first "-" r1 else r1).
  set (r3 := if contains_char "+" r2 then before_first "+" r2 else r2).
  assert (H2 : contains_char "-" r2 = false).
  { unfold r2. destruct (contains_char "-" r1) eqn:E; [apply before_first_lacks | exact E]. }
  assert (H3 : contains_char "-" r3 = false).
  { unfold r3. destruct (contains_char "+" r2); [apply before_first_keeps_lack|]; exact H2. }
  destruct (py_int r3) as [k|e] eqn:E.
  - cbn. intros [= <-]. apply (py_int_nonneg r3 k H3 E).
  - destruct e. cbn. discriminate.
Qed.

End RankSign.

Section RankSignExample.
Import Integrator.
#[local] Existing Instance cpython.

Lemma clean_qs_rank_not_negative_witness :
  clean_qs_rank (Some (py "=15")) = Some 15 /\ 0 <= 15.
Proof.
  assert (E : clean_qs_rank (Some (py "=15")) = Some 15) by (vm_compute; reflexivity).
  split; [exact E|].
  exact (@clean_qs_rank_not_negative cpython (Some (py "=15")) 15 E).
Defined.

End RankSignExample.

(** ** The matcher keeps the best candidate *)

Section BestCandidate.
Import Integrator.
Context `{Fuzz}.

(** The state of the inner loop after the candidates [seen]: nothing is
    kept and the best score is still 0, or the kept name is the standardized
    form of a candidate, with its score, which is at least 80; and every
    candidate seen scores no more than the best score or less than 80. *)
Lemma consider_invariant (k : str) (qs seen : list str) (best : option str * Q) :
  (fst best = None -> snd best = 0%Q) ->
  (forall v, fst best = Some v ->
     (exists q, In q seen /\ v = standardize_university_name q) /\
     snd best = combined_score (lower k) (lower v) /\ (80 <= snd best)%Q) ->
  (forall q, In q seen ->
     (combined_score (lower k) (lower (standardize_university_name q)) <= snd best)%Q \/
     (combined_score (lower k) (lower (standardize_university_name q)) < 80)%Q) ->
  let final := fold_left (consider k) qs best in
  (fst final = None -> snd final = 0%Q) /\
  (forall v, fst final = Some v ->
     (exists q, In q (seen ++ qs) /\ v = standardize_university_name q) /\
     snd final = combined_score (lower k) (lower v) /\ (80 <= snd final)%Q) /\
  (forall q, In q (seen ++ qs) ->
     (combined_score (lower k) (lower (standardize_university_name q)) <= snd final)%Q \/
     (combined_score (lower k) (lower (standardize_university_name q)) < 80)%Q).
Proof.
  revert seen best. induction qs as [|q qs IH]; intros seen best Hnone Hsome Hseen.
  - cbn [fold_left]. rewrite app_nil_r. split; [exact Hnone | split; [exact Hsome | exact Hseen]].
  - cbn [fold_left].
    replace (seen ++ q :: qs) with ((seen ++ [q]) ++ qs) by (rewrite <- app_assoc; reflexivity).
    apply IH; unfold consider;
      set (s := combined_score (lower k) (lower (standardize_university_name q)));
      destruct (Qltb (snd best) s && Qle_bool 80 s)%bool eqn:E.
    + cbn [fst]. discriminate.
    + exact Hnone.
    + apply andb_true_iff in E as [_ E80]. apply Qle_bool_iff in E80.
      cbn [fst snd]. intros v [= <-]. split; [|split; [reflexivity | exact E80]].
      exists q. split; [apply in_or_app; right; left; reflexivity | reflexivity].
    + intros v Hv. destruct (Hsome v Hv) as [[q' [Hin Hq']] Hrest].
      split; [|exact Hrest]. exists q'. split; [apply in_or_app; left; exact Hin | exact Hq'].
    + apply andb_true_iff in E as [Elt _]. unfold Qltb in Elt.
      apply negb_true_iff, Qle_bool_false in Elt. cbn [snd].
      intros q' Hq'. apply in_app_or in Hq' as [Hq' | [<- | []]].
      * destruct (Hseen q' Hq') as [Hle | Hlow]; [left; lra | right; exact Hlow].
      * left. fold s. lra.
    + intros q' Hq'. apply in_app_or in Hq' as [Hq' | [<- | []]]; [apply Hseen; exact Hq'|].
      fold s. apply andb_false_iff in E as [E | E].
      * left. unfold Qltb in E. apply negb_false_iff, Qle_bool_iff in E. exact E.
      * right. apply Qle_bool_false in E. exact E.
Qed.

Lemma best_candidate_spec (k : str) (qs : list str) :
  let final := best_candidate k qs in
  (fst final = None ->
   forall q, In q qs ->
     (combined_score (lower k) (lower (standardize_university_name q)) < 80)%Q) /\
  (forall v, fst final = Some v ->
     (exists q, In q qs /\ v = standardize_university_name q) /\
     forall q, In q qs ->
       (combined_score (lower k) (lower (standardize_university_name q))
        <= combined_score (lower k) (lower v))%Q).
Proof.
  destruct (consider_invariant k qs [] (None, 0%Q)) as [Hnone [Hsome Hall]].
  - reflexivity.
  - cbn [fst]. discriminate.
  - intros q [].
  - cbn [app] in *. fold (best_candidate k qs) in Hnone, Hsome, Hall. split.
    + intros E q Hq. destruct (Hall q Hq) as [Hle | Hlow]; [|exact Hlow].
      rewrite (Hnone E) in Hle. lra.
    + intros v E. destruct (Hsome v E) as [Hq [Hs H80]]. split; [exact Hq|].
      intros q Hin. destruct (Hall q Hin) as [Hle | Hlow]; [rewrite <- Hs; exact Hle|].
      rewrite <- Hs. lra.
Qed.

(** Every key of the mapping is the standardized form of a feedback name
    that is not empty. *)
Lemma matches_keys (qs feedback : list str) (m : gmap str str) (k v : str) :
  fold_left (match_one qs) feedback m !! k = Some v ->
  m !! k = Some v \/
  exists f, In f feedback /\ f <> [] /\ k = standardize_university_name f.
Proof.
  revert m. induction feedback as [|f feedback IH]; intros m; cbn [fold_left]; [tauto|].
  intros Hk. destruct (IH _ Hk) as [Hm | [f' [Hin [Hne Hf']]]].
  - rewrite match_one_lookup in Hm. case_bool_decide as Hd; [|left; exact Hm].
    right. exists f. destruct Hd as [Hne [Hstd _]].
    split; [left; reflexivity | split; [exact Hne | symmetry; exact Hstd]].
  - right. exists f'. split; [right; exact Hin | split; assumption].
Qed.

(** X3. Every pair [(k, v)] of the mapping [find_university_matches]
    returns joins the standardized form [k] of a non-empty feedback name to
    the standardized form [v] of a QS name, and no QS name has a higher
    combined score against [k] than [v] has. *)
Theorem stored_match_is_best (feedback qs : list str) (k v : str) :
  find_university_matches feedback qs !! k = Some v ->
  (exists f, In f feedback /\ f <> [] /\ k = standardize_university_name f) /\
  (exists q, In q qs /\ v = standardize_university_name q) /\
  (forall q, In q qs ->
     (combined_score (lower k) (lower (standardize_university_name q))
      <= combined_score (lower k) (lower v))%Q).
Proof.
  intros Hkv. unfold find_university_matches in Hkv. split.
  - destruct (matches_keys qs feedback ∅ k v Hkv) as [He | Hf]; [|exact Hf].
    rewrite lookup_empty in He. discriminate.
  - apply matches_sound in Hkv; [|rewrite lookup_empty; discriminate].
    unfold kept in Hkv.
    destruct (fst (best_candidate k qs)) as [[|c b]|] eqn:E; try discriminate.
    injection Hkv as <-. apply (proj2 (best_candidate_spec k qs)). exact E.
Qed.

(** X4. A feedback name is left without a match only when no QS name
    reaches the threshold: if every QS name has a non-empty standardized
    form and the mapping has no entry for the standardized feedback name,
    every QS name scores below 80 against it. *)
Theorem unmatched_means_below_threshold (feedback qs : list str) (f : str) :
  In f feedback -> f <> [] ->
  (forall q, In q qs -> standardize_university_name q <> []) ->
  find_university_matches feedback qs !! standardize_university_name f = None ->
  forall q, In q qs ->
    (combined_score (lower (standardize_university_name f))
       (lower (standardize_university_name q)) < 80)%Q.
Proof.
  intros Hf Hne Hqs Hnone.
  destruct (best_candidate_spec (standardize_university_name f) qs) as [Hlow Hbest].
  destruct (fst (best_candidate (standardize_university_name f) qs)) as [v|] eqn:E;
    [|apply Hlow; reflexivity].
  exfalso. destruct (Hbest v eq_refl) as [[q [Hq Hv]] _].
  assert (Hk : kept qs (standardize_university_name f) = Some v).
  { unfold kept. rewrite E. destruct v as [|c b]; [|reflexivity].
    exfalso. apply (Hqs q Hq). symmetry. exact Hv. }
  unfold find_university_matches in Hnone.
  rewrite (matches_complete qs feedback ∅ f v Hf Hne Hk) in Hnone. discriminate.
Qed.

End BestCandidate.

Section BestCandidateExample.
Import Integrator.

Lemma stored_match_is_best_witness :
  let feedback := [py "Kyoto Imperial University"] in
  let qs := [py "Osaka University"; py "Kyoto University"] in
  let k := py "Kyoto Imperial University" in
  let v := py "Kyoto University" in
  (exists f, In f feedback /\ f <> [] /\ k = standardize_university_name f) /\
  (exists q, In q qs /\ v = standardize_university_name q) /\
  (forall q, In q qs ->
     (@combined_score Fixtures.example_fuzz (lower k) (lower (standardize_university_name q))
      <= @combined_score Fixtures.example_fuzz (lower k) (lower v))%Q).
Proof.
  apply (@stored_match_is_best Fixtures.example_fuzz
           [py "Kyoto Imperial University"] [py "Osaka University"; py "Kyoto University"]).
  vm_compute. reflexivity.
Defined.

Lemma unmatched_means_below_threshold_witness :
  (@combined_score Fixtures.example_fuzz
     (lower (standardize_university_name (py "Kyoto Imperial University")))
     (lower (standardize_university_name (py "Osaka University"))) < 80)%Q.
Proof.
  apply (@unmatched_means_below_threshold Fixtures.example_fuzz
           [py "Kyoto Imperial University"] [py "Osaka University"; py "Nagoya University"]
           (py "Kyoto Imperial University")).
  - left. reflexivity.
  - discriminate.
  - intros q [<- | [<- | []]]; vm_compute; discriminate.
  - vm_compute. reflexivity.
  - left. reflexivity.
Defined.

End BestCandidateExample.

(** ** The shape of a standardized name *)

Section StandardShape.
Import Integrator.

Lemma tidy_from_word (w rest : str) (b : bool) :
  is_word_text w -> tidy_from b (w ++ rest) = tidy_from false rest.
Proof.
  intros [Hne Hw]. revert b. induction Hw as [|c t Hc Ht IH]; intros b; [congruence|].
  cbn [app tidy_from]. rewrite Hc. destruct t as [|d u]; [reflexivity|].
  apply IH. discriminate.
Qed.

Lemma join_words_tidy (ws : list str) :
  Forall is_word_text ws -> tidy (join (py " ") ws) = true.
Proof.
  intros Hws.
  assert (Hfrom : forall b, ws <> [] -> tidy_from b (join (py " ") ws) = true).
  { induction Hws as [|w ws Hw Hws IH]; intros b Hne; [congruence|].
    cbn [join]. destruct ws as [|w' ws'].
    - rewrite <- (app_nil_r w). rewrite (tidy_from_word w [] b Hw). reflexivity.
    - rewrite (tidy_from_word w _ b Hw).
      change (py " " ++ join (py " ") (w' :: ws')) with (" "%char :: join (py " ") (w' :: ws')).
      cbn [tidy_from]. change (is_space " ") with true. cbv iota.
      change (eqc " " " ") with true. cbn [negb andb]. apply IH. discriminate. }
  destruct ws as [|w ws']; [reflexivity|].
  specialize (Hfrom true ltac:(discriminate)).
  unfold tidy. destruct (join (py " ") (w :: ws')); [reflexivity | exact Hfrom].
Qed.

Lemma case_words_words (first : bool) (ws : list str) :
  Forall is_word_text ws -> Forall is_word_text (case_words first ws).
Proof.
  intros Hws. revert first. induction Hws as [|w ws Hw Hws IH]; intros first; [constructor|].
  cbn [case_words]. constructor; [|apply IH].
  destruct (first || negb (in_words (lower w) exceptions))%bool;
    [apply capitalize_word | apply lower_word]; exact Hw.
Qed.

Lemma case_words_twice (first : bool) (ws : list str) :
  case_words first (case_words first ws) = case_words first ws.
Proof.
  revert first. induction ws as [|w ws IH]; intros first; [reflexivity|].
  cbn [case_words]. rewrite IH. f_equal.
  destruct (first || negb (in_words (lower w) exceptions))%bool eqn:E.
  - rewrite lower_capitalize, E. apply capitalize_capitalize.
  - rewrite lower_lower, E. reflexivity.
Qed.


End StandardShape.

(** ** Primary rows without feedback *)

Section Unmatched.
Import Integrator.
Context `{Fuzz}.

Variables (feedback_df qs_df : DataFrame) (l : gmap string cell) (key : str).
Hypothesis plain_qs : plain_labels (columns qs_df).
Hypothesis plain_fb : plain_labels (columns feedback_df).
Hypothesis l_name : l !! "standardized_name"%string = Some (Text key).
Hypothesis no_partner : matched_to feedback_df qs_df key = [].

Let matches : gmap str str := frame_matches feedback_df qs_df.
Let with_names : DataFrame := with_match matches feedback_df.
Let merged_df : DataFrame :=
  merge_left qs_df with_names "standardized_name" "qs_match_name" ("_qs", "_feedback")%string.
Let alone : gmap string cell :=
  join_row qs_df with_names ("_qs", "_feedback")%string l None.

Lemma no_partner_rows :
  filter (fun r0 : gmap string cell =>
            key_eqb (l !! "standardized_name"%string) (r0 !! "qs_match_name"%string))
    (rows with_names) = [].
Proof.
  unfold with_names, with_match, assign. cbn [rows].
  assert (Hnone : forall r, In r (rows feedback_df) ->
            matches !! text_of (r !! "standardized_name"%string) <> Some key).
  { intros r Hr E. unfold matched_to in no_partner.
    assert (Hin : In r (List.filter
              (fun r => bool_decide
                 (frame_matches feedback_df qs_df !! text_of (r !! "standardized_name"%string)
                  = Some key)) (rows feedback_df))).
    { apply filter_In. split; [exact Hr | apply bool_decide_eq_true_2; exact E]. }
    rewrite no_partner in Hin. destruct Hin. }
  induction (rows feedback_df) as [|r rs IH]; [reflexivity|].
  cbn [map]. rewrite filter_cons.
  rewrite decide_False.
  - apply IH. intros r' Hr'. apply Hnone. right. exact Hr'.
  - rewrite l_name, assign_row_same.
    destruct (matches !! text_of (r !! "standardized_name"%string)) as [v|] eqn:E; cbn;
      [|exact (fun x => x)].
    intros Hv. apply Is_true_true, str_eqb_true in Hv. subst v.
    apply (Hnone r (or_introl eq_refl)). exact E.
Qed.

Lemma alone_in_merge : In l (rows qs_df) -> In alone (rows merged_df).
Proof.
  intros Hl. unfold merged_df, merge_left. cbn [rows]. apply in_flat_map.
  exists l. split; [exact Hl|]. rewrite no_partner_rows. left. reflexivity.
Qed.

Lemma alone_primary (c : string) :
  In c (columns qs_df) -> alone !! suffixed (columns with_names) "_qs" c = l !! c.
Proof.
  intros Hc. unfold alone, join_row. cbn [fst].
  apply rename_row_lookup; [exact Hc|].
  intros c' Hc' E. apply (suffixed_inj (columns with_names) "_qs"); [| |exact E].
  - apply (plain_in (columns qs_df) c' plain_qs Hc').
  - apply (plain_in (columns qs_df) c plain_qs Hc).
Qed.

Lemma alone_absent (k : string) :
  (forall c, In c (columns qs_df) -> suffixed (columns with_names) "_qs" c <> k) ->
  alone !! k = None.
Proof. intros Hk. unfold alone, join_row. cbn [fst]. apply rename_row_absent. exact Hk. Qed.

(** A label of the secondary frame only, or a feedback label: the row
    has nothing there. *)
Lemma alone_no_secondary (k : string) :
  ~ In k (columns qs_df) -> has_suffix "_qs" k = false -> alone !! k = None.
Proof.
  intros Hq Hs. apply alone_absent. intros c Hc E.
  destruct (suffixed_cases (columns with_names) "_qs" c) as [[Hsfx _] | [Hsfx _]];
    rewrite Hsfx in E.
  - subst. contradiction.
  - rewrite <- E, append_has_suffix in Hs. discriminate.
Qed.

Lemma alone_no_feedback (c : string) : alone !! (c ++ "_feedback")%string = None.
Proof.
  apply alone_absent. intros c' Hc'.
  apply (primary_label_not_feedback qs_df with_names plain_qs c' c Hc').
Qed.

Lemma unmatched_turns_keep (k : string) :
  k <> "academic_rigor"%string -> k <> "cultural_diversity"%string ->
  unmatched_row feedback_df qs_df l !! k = alone !! k.
Proof.
  intros Ha Hc. unfold unmatched_row.
  rewrite coalesce_row_other by congruence. rewrite coalesce_row_other by congruence.
  reflexivity.
Qed.

Lemma unmatched_in_output :
  empty feedback_df = false -> In l (rows qs_df) ->
  In (unmatched_row feedback_df qs_df l) (rows (merge_data_sources feedback_df qs_df)).
Proof.
  intros He Hl. unfold merge_data_sources. rewrite He. cbn [fold_left].
  rewrite !coalesce_rows. unfold unmatched_row.
  apply in_map, in_map. apply alone_in_merge. exact Hl.
Qed.

Lemma in_with_names (c : string) :
  In c (columns feedback_df) -> In c (columns with_names).
Proof. intros Hc. apply with_names_columns. left. exact Hc. Qed.

(** A coalesced metric of both frames keeps the primary value. *)
Lemma unmatched_coalesced (col : string) :
  In col coalesced_metrics ->
  In col (columns qs_df) -> In col (columns feedback_df) ->
  unmatched_row feedback_df qs_df l !! col = l !! col.
Proof.
  intros Hcol Hq Hf. pose proof (in_with_names col Hf) as Hf'.
  assert (Hqs : alone !! (col ++ "_qs")%string = l !! col).
  { pose proof (alone_primary col Hq) as E. unfold suffixed in E.
    rewrite (proj2 (has_column_In _ _) Hf') in E. exact E. }
  unfold unmatched_row. fold matches. fold with_names. fold merged_df. fold alone.
  destruct Hcol as [<- | [<- | []]].
  - rewrite coalesce_row_other by discriminate.
    rewrite coalesce_row_filled.
    + rewrite alone_no_feedback. exact Hqs.
    + apply (first_turn_fires feedback_df qs_df plain_qs plain_fb). split; assumption.
    + apply (qs_label_in qs_df with_names plain_qs (with_names_plain feedback_df qs_df plain_fb)).
      split; assumption.
  - rewrite coalesce_row_filled.
    + rewrite !coalesce_row_other by discriminate. rewrite alone_no_feedback. exact Hqs.
    + apply (second_turn_fires feedback_df qs_df plain_qs plain_fb). split; assumption.
    + apply (second_turn_qs feedback_df qs_df plain_qs plain_fb); assumption.
Qed.

(** A label the primary frame lacks is null, whatever the loop does. *)
Lemma unmatched_secondary (c : string) :
  ~ In c (columns qs_df) -> has_suffix "_qs" c = false ->
  unmatched_row feedback_df qs_df l !! c = None.
Proof.
  intros Hq Hs. unfold unmatched_row. fold matches. fold with_names. fold merged_df. fold alone.
  assert (Hidle1 : ~ In (c ++ "_feedback")%string (columns merged_df)).
  { intros Hin. apply (first_turn_fires feedback_df qs_df plain_qs plain_fb) in Hin. tauto. }
  destruct (decide ("cultural_diversity"%string = c)) as [<- | Hc].
  - rewrite coalesce_row_idle.
    + rewrite coalesce_row_other by discriminate. apply alone_no_secondary; assumption.
    + intros Hin. apply (second_turn_fires feedback_df qs_df plain_qs plain_fb) in Hin. tauto.
  - rewrite coalesce_row_other by exact Hc.
    destruct (decide ("academic_rigor"%string = c)) as [<- | Ha].
    + rewrite coalesce_row_idle by exact Hidle1. apply alone_no_secondary; assumption.
    + rewrite coalesce_row_other by exact Ha. apply alone_no_secondary; assumption.
Qed.

(** A column of the primary frame only keeps its label and its value. *)
Lemma unmatched_primary_only (c : string) :
  In c (columns qs_df) -> ~ In c (columns feedback_df) -> c <> "qs_match_name"%string ->
  unmatched_row feedback_df qs_df l !! c = l !! c.
Proof.
  intros Hq Hf Hne.
  assert (Hf' : ~ In c (columns with_names)).
  { intros Hin. apply with_names_columns in Hin as [Hin | Hin]; [contradiction | congruence]. }
  assert (Hown : alone !! c = l !! c).
  { pose proof (alone_primary c Hq) as E. unfold suffixed in E.
    rewrite (proj2 (has_column_false _ _) Hf') in E. exact E. }
  unfold unmatched_row. fold matches. fold with_names. fold merged_df. fold alone.
  destruct (decide ("cultural_diversity"%string = c)) as [<- | Hc].
  - rewrite coalesce_row_idle.
    + destruct (decide ("academic_rigor"%string = "cultural_diversity"%string)); [discriminate|].
      rewrite coalesce_row_other by discriminate. exact Hown.
    + intros Hin. apply (second_turn_fires feedback_df qs_df plain_qs plain_fb) in Hin.
      apply Hf'. apply Hin.
  - rewrite coalesce_row_other by exact Hc.
    destruct (decide ("academic_rigor"%string = c)) as [<- | Ha].
    + rewrite coalesce_row_idle; [exact Hown|].
      intros Hin. apply (first_turn_fires feedback_df qs_df plain_qs plain_fb) in Hin.
      apply Hf'. apply Hin.
    + rewrite coalesce_row_other by exact Ha. exact Hown.
Qed.

(** A column of both frames keeps its value under the primary suffix; the
    feedback label is null. *)
Lemma unmatched_both (c : string) :
  In c (columns qs_df) -> In c (columns feedback_df) ->
  unmatched_row feedback_df qs_df l !! (c ++ "_qs")%string = l !! c /\
  unmatched_row feedback_df qs_df l !! (c ++ "_feedback")%string = None.
Proof.
  intros Hq Hf. pose proof (in_with_names c Hf) as Hf'. split.
  - rewrite unmatched_turns_keep by (apply not_suffixed_label; reflexivity).
    pose proof (alone_primary c Hq) as E. unfold suffixed in E.
    rewrite (proj2 (has_column_In _ _) Hf') in E. exact E.
  - rewrite unmatched_turns_keep by (apply not_suffixed_label; reflexivity).
    apply alone_no_feedback.
Qed.

End Unmatched.

Section UnmatchedClaim.
Import Integrator.



End UnmatchedClaim.

(** ** The row count of the merge, again *)

Section RowCountExact.
Import Integrator.
Context `{Fuzz}.

Lemma partner_count (feedback_df qs_df : DataFrame) (l : gmap string cell) (key : str) :
  l !! "standardized_name"%string = Some (Text key) ->
  length (filter (fun r0 : gmap string cell =>
                    key_eqb (l !! "standardized_name"%string) (r0 !! "qs_match_name"%string))
            (rows (with_match (frame_matches feedback_df qs_df) feedback_df))) =
  length (matched_to feedback_df qs_df key).
Proof.
  intros Hl. unfold matched_to, with_match, assign. cbn [rows]. rewrite Hl.
  induction (rows feedback_df) as [|r rs IH]; [reflexivity|].
  cbn [map List.filter]. rewrite filter_cons, assign_row_same.
  destruct (frame_matches feedback_df qs_df !! text_of (r !! "standardized_name"%string))
    as [v|] eqn:E; cbn [fmap option_fmap option_map key_eqb].
  - destruct (decide (v = key)) as [-> | Hv].
    + rewrite decide_True by (apply Is_true_true, str_eqb_true; reflexivity).
      rewrite bool_decide_eq_true_2 by reflexivity. cbn [length]. f_equal. exact IH.
    + rewrite decide_False.
      * rewrite bool_decide_eq_false_2 by congruence. exact IH.
      * intros Hk. apply Is_true_true, str_eqb_true in Hk. congruence.
  - rewrite decide_False by (exact (fun x => x)).
    rewrite bool_decide_eq_false_2 by discriminate. exact IH.
Qed.


End RowCountExact.

Section RowCountExactExample.
Import Integrator.


End RowCountExactExample.

(** ** Columns of both frames are stored under neither name *)

Section SharedColumns.
Import Integrator Database.
Context `{Fuzz}.

(** A column of both frames has no column of its own in the merged frame,
    unless the coalescing loop makes one. *)
Lemma shared_label_gone (feedback_df qs_df : DataFrame) (c : string) :
  empty feedback_df = false ->
  plain_labels (columns qs_df) -> plain_labels (columns feedback_df) ->
  In c (columns qs_df) -> In c (columns feedback_df) ->
  ~ In c coalesced_metrics ->
  ~ In c (columns (merge_data_sources feedback_df qs_df)).
Proof.
  intros He Pq Pf Hq Hf Hc. unfold merge_data_sources. rewrite He. cbn [fold_left].
  set (with_names := with_match (frame_matches feedback_df qs_df) feedback_df).
  assert (Hf' : In c (columns with_names))
    by (apply with_names_columns; left; exact Hf).
  assert (Pw : plain_labels (columns with_names)) by (apply with_names_plain; exact Pf).
  destruct (plain_in (columns qs_df) c Pq Hq) as [Hs1 Hs2].
  intros Hin. apply coalesce_columns in Hin as [Hin | [-> _]];
    [|apply Hc; right; left; reflexivity].
  apply coalesce_columns in Hin as [Hin | [-> _]]; [|apply Hc; left; reflexivity].
  unfold merge_left in Hin. cbn [columns fst snd] in Hin.
  apply in_app_or in Hin as [Hin | Hin]; apply in_map_iff in Hin as [c' [E Hc']].
  - destruct (suffixed_cases (columns with_names) "_qs" c') as [[Hs Hn] | [Hs _]];
      rewrite Hs in E.
    + subst. contradiction.
    + rewrite <- E, append_has_suffix in Hs1. discriminate.
  - destruct (suffixed_cases (columns qs_df) "_feedback" c') as [[Hs Hn] | [Hs _]];
      rewrite Hs in E.
    + subst. contradiction.
    + rewrite <- E, append_has_suffix in Hs2. discriminate.
Qed.

Lemma row_get_absent (cols : list string) (row : gmap string cell) (key : string)
  (default : option cell) :
  ~ In key cols -> row_get cols row key default = default.
Proof. intros Hk. unfold row_get. rewrite (proj2 (has_column_false _ _) Hk). reflexivity. Qed.

(** X8. When the feedback frame is not empty, a column that both frames
    carry has no column of its own in the merged frame (it is split into
    [<col>_qs] and [<col>_feedback]), so [update_database] finds nothing
    under its name: both frames carry [standardized_name], and the name it
    inserts is the [institution_name] cell, or '' without that column; and
    when both frames carry [city], the city it inserts is '' for every
    row. *)
Theorem shared_columns_are_not_stored (feedback_df qs_df : DataFrame) :
  empty feedback_df = false ->
  plain_labels (columns qs_df) -> plain_labels (columns feedback_df) ->
  In "standardized_name"%string (columns qs_df) ->
  In "standardized_name"%string (columns feedback_df) ->
  let merged_df := merge_data_sources feedback_df qs_df in
  map ins_name (inserted_rows merged_df) =
    map (fun row => row_get (columns merged_df) row "institution_name" (Some (Text (py ""))))
      (rows merged_df) /\
  (In "city"%string (columns qs_df) -> In "city"%string (columns feedback_df) ->
   Forall (fun stored => ins_city stored = Some (Text (py ""))) (inserted_rows merged_df)) /\
  (forall c default row,
     In c (columns qs_df) -> In c (columns feedback_df) -> ~ In c coalesced_metrics ->
     row_get (columns merged_df) row c default = default).
Proof.
  intros He Pq Pf Hq Hf merged_df.
  assert (Hgone : forall c default row,
     In c (columns qs_df) -> In c (columns feedback_df) -> ~ In c coalesced_metrics ->
     row_get (columns merged_df) row c default = default).
  { intros c default row Hcq Hcf Hc. apply row_get_absent.
    apply shared_label_gone; assumption. }
  split; [|split; [|exact Hgone]].
  - unfold inserted_rows. rewrite map_map. apply map_ext. intros row.
    unfold insert_parameters. cbn [ins_name].
    apply Hgone; [exact Hq | exact Hf|]. cbn. intuition discriminate.
  - intros Hcq Hcf. unfold inserted_rows. apply Forall_map, Forall_forall. intros row _.
    unfold insert_parameters. cbn [ins_city].
    apply Hgone; [exact Hcq | exact Hcf|]. cbn. intuition discriminate.
Qed.

End SharedColumns.

Section SharedColumnsExample.
Import Integrator Database.

Lemma shared_columns_are_not_stored_witness :
  let merged_df := @merge_data_sources Fixtures.example_fuzz
                     Fixtures.harvard_feedback Fixtures.harvard_qs in
  map ins_name (inserted_rows merged_df) =
  map (fun row => row_get (columns merged_df) row "institution_name" (Some (Text (py ""))))
    (rows merged_df).
Proof.
  refine (proj1 (@shared_columns_are_not_stored Fixtures.example_fuzz
                   Fixtures.harvard_feedback Fixtures.harvard_qs _ _ _ _ _)).
  - reflexivity.
  - repeat constructor.
  - repeat constructor.
  - right. left. reflexivity.
  - left. reflexivity.
Defined.

End SharedColumnsExample.

(** ** What the validation keeps *)

Section ValidationFacts.
Import Cleaner Validation.

Lemma in_filter_loop {A C} (mask : C -> A -> bool) (cols : list C) (df : list A) (r : A) :
  In r (fold_left (fun df col => List.filter (mask col) df) cols df) <->
  In r df /\ forall col, In col cols -> mask col r = true.
Proof.
  revert df. induction cols as [|c cols IH]; intros df; cbn [fold_left].
  - split; [intros Hr; split; [exact Hr | intros col []] | tauto].
  - rewrite IH, filter_In. split.
    + intros [[Hr Hc] Hcols]. split; [exact Hr|]. intros col [<- | Hcol]; auto.
    + intros [Hr Hcols]. split; [split; [exact Hr | apply Hcols; left; reflexivity]|].
      intros col Hcol. apply Hcols. right. exact Hcol.
Qed.

(** The length test holds for every name. *)
Lemma length_mask_vacuous (r : Row) (n : str) : text r name = Some n -> length_mask r = true.
Proof.
  intros Hn. unfold length_mask. rewrite Hn. apply Z.ltb_lt.
  unfold Z.lnot, Z.pred. lia.
Qed.

Lemma Qlt_bool_true (a b : Q) : Qlt_bool a b = true <-> (a < b)%Q.
Proof. unfold Qlt_bool. rewrite negb_true_iff. apply Qle_bool_false. Qed.

Lemma Qlt_bool_false (a b : Q) : Qlt_bool a b = false <-> (b <= a)%Q.
Proof. unfold Qlt_bool. rewrite negb_false_iff. apply Qle_bool_iff. Qed.

Lemma rank_mask_spec (col : ranking_field) (r : Row) :
  rank_mask col r = true <-> forall v, rank r col = Some v -> 0 < v.
Proof.
  unfold rank_mask, rank_le, notna. destruct (rank r col) as [v|].
  - rewrite andb_true_r, negb_true_iff, Z.leb_gt. split.
    + intros Hv w [= <-]. exact Hv.
    + intros Hv. apply Hv. reflexivity.
  - split; [discriminate | reflexivity].
Qed.

Lemma metric_mask_spec (col : numeric_field) (r : Row) :
  metric_mask col r = true <-> forall v, metric r col = Some v -> (0 <= v /\ v <= 10)%Q.
Proof.
  unfold metric_mask, metric_lt, metric_gt, isna, notna. destruct (metric r col) as [v|].
  - cbn [negb]. rewrite orb_false_r, negb_true_iff, orb_false_iff.
    rewrite !Qlt_bool_false. split.
    + intros Hv w [= <-]. exact Hv.
    + intros Hv. apply Hv. reflexivity.
  - split; [discriminate | reflexivity].
Qed.

(** The pattern is anchored: it matches at the start of the name or
    nowhere. *)
Lemma search_from_anchored (r : re) (c : ascii) (s : str) :
  search_from (Seq Bol r) (Some c) s = None.
Proof.
  revert c. induction s as [|x t IH]; intros c; cbn [search_from];
    rewrite match_len_anchor_later; [reflexivity | apply IH].
Qed.

Lemma digit_not_newline (c : ascii) : is_digit c = true -> N.eqb (code c) 10 = false.
Proof. destruct c as [[] [] [] [] [] [] [] []]; (reflexivity || discriminate). Qed.

(** A greedy run of digits before [$]: the run is read to its end. *)
Lemma star_eol (prev prev' : option ascii) (t : str) :
  star_m is_digit prev t (fun p r => m Eol p r k_rest) =
  m Eol prev' (drop_class is_digit t) k_rest.
Proof.
  revert prev. induction t as [|c t IH]; intros prev; [reflexivity|].
  cbn [star_m drop_class]. destruct (is_digit c) eqn:E; [|reflexivity].
  rewrite IH. destruct (m Eol prev' (drop_class is_digit t) k_rest) eqn:Em; [reflexivity|].
  cbn [m]. destruct t as [|d u]; [|reflexivity].
  rewrite (digit_not_newline c E). reflexivity.
Qed.

Lemma take_drop_app (p : ascii -> bool) (s : str) :
  take_class p s ++ drop_class p s = s.
Proof.
  induction s as [|c t IH]; [reflexivity|]. cbn [take_class drop_class].
  destruct (p c); [cbn [app]; rewrite IH|]; reflexivity.
Qed.

Lemma drop_class_all (p : ascii -> bool) (d rest : str) :
  all_in p d -> drop_class p (d ++ rest) = drop_class p rest.
Proof.
  induction 1 as [|c t Hc Ht IH]; [reflexivity|]. cbn [app drop_class]. rewrite Hc. exact IH.
Qed.

Lemma newline_code (c : ascii) : N.eqb (code c) 10 = true -> c = ascii_of_N 10.
Proof.
  intros E. apply N.eqb_eq in E. unfold code in E.
  rewrite <- (ascii_N_embedding c), E. reflexivity.
Qed.

(** [^\d+$] finds something exactly in a numeral. *)
Lemma number_pattern_spec (n : str) :
  notna (search number_pattern n) = true <-> numeral n.
Proof.
  assert (Hs : notna (search number_pattern n) =
               match n with
               | c :: t =>
                   if is_digit c
                   then notna (m Eol None (drop_class is_digit t) k_rest)
                   else false
               | [] => false
               end).
  { unfold search, number_pattern. cbn [seqs].
    destruct n as [|c t]; [reflexivity|]. cbn [search_from].
    rewrite search_from_anchored. unfold match_len.
    assert (Hm : m (Seq Bol (Seq (Plus is_digit) Eol)) None (c :: t)
                   (fun (_ : option ascii) (r' : str) => Some r') =
                 if is_digit c
                 then star_m is_digit (Some c) t (fun p r => m Eol p r k_rest)
                 else None) by reflexivity.
    rewrite Hm. destruct (is_digit c); [|reflexivity].
    rewrite (star_eol (Some c) None t).
    destruct (m Eol None (drop_class is_digit t) k_rest); reflexivity. }
  rewrite Hs. clear Hs. split.
  - destruct n as [|c t]; [discriminate|]. destruct (is_digit c) eqn:Ec; [|discriminate].
    intros Hm. exists (c :: take_class is_digit t).
    split; [discriminate|]. split; [constructor; [exact Ec | apply take_class_all]|].
    rewrite <- (take_drop_app is_digit t) at 1 3.
    cbn [m] in Hm. destruct (drop_class is_digit t) as [|x [|y u]].
    + left. rewrite app_nil_r. reflexivity.
    + right. destruct (N.eqb (code x) 10) eqn:Ex; [|discriminate].
      rewrite (newline_code x Ex). reflexivity.
    + discriminate.
  - intros [d [Hne [Hd Hn]]]. destruct d as [|c d']; [congruence|].
    inversion Hd as [|x l Hc Hd']; subst x l.
    destruct Hn as [-> | ->]; cbn [app]; rewrite Hc.
    + rewrite <- (app_nil_r d'), (drop_class_all is_digit d' [] Hd'). reflexivity.
    + rewrite (drop_class_all is_digit d' _ Hd'). reflexivity.
Qed.

Lemma number_mask_spec (r : Row) (n : str) :
  text r name = Some n -> number_mask r = true <-> ~ numeral n.
Proof.
  intros Hn. unfold number_mask. rewrite Hn, negb_true_iff, <- number_pattern_spec.
  destruct (notna (search number_pattern n)); split; congruence.
Qed.

(** The validation as a conjunction of its tests. *)
Lemma validation_tests (df : list Row) (r : Row) :
  In r (_validate_data df) <->
  In r df /\ has_name_and_country r = true /\
  (forall col, In col validated_ranks -> rank_mask col r = true) /\
  (forall col, In col validated_metrics -> metric_mask col r = true) /\
  length_mask r = true /\ number_mask r = true.
Proof.
  unfold _validate_data. rewrite !filter_In, !in_filter_loop, filter_In. tauto.
Qed.

Lemma named_row_spec (r : Row) :
  has_name_and_country r = true /\ number_mask r = true <-> named_row r.
Proof.
  unfold has_name_and_country, named_row. split.
  - intros [He Hn]. apply andb_true_iff in He as [Hname Hcountry].
    destruct (text r name) as [n|] eqn:En; [|discriminate].
    destruct (text r country) as [c|] eqn:Ec; [|discriminate].
    exists n, c. split; [reflexivity|]. split; [reflexivity|].
    apply (number_mask_spec r n En). exact Hn.
  - intros [n [c [En [Ec Hn]]]]. rewrite En, Ec. split; [reflexivity|].
    apply (number_mask_spec r n En). exact Hn.
Qed.

(** X9. [_validate_data] keeps exactly the rows that have a name and a
    country, whose name is not a numeral, whose [qs_rank], [the_rank] and
    [arwu_rank] are null or positive and whose four metrics are null or
    between 0 and 10.  The length of the name plays no part: the test
    [~len < 3] holds for every name, so a name of one or two characters, or
    the empty name, is kept. *)
Theorem validation_keeps (df : list Row) :
  (forall r, In r (_validate_data df) <->
             In r df /\ named_row r /\ ranks_positive r /\ metrics_rated r) /\
  (forall r n, text r name = Some n -> length_mask r = true).
Proof.
  split; [|exact length_mask_vacuous]. intros r.
  rewrite validation_tests, <- named_row_spec.
  unfold ranks_positive, metrics_rated. split.
  - intros (Hr & He & Hk & Hm & _ & Hn). split; [exact Hr|]. split; [tauto|]. split.
    + intros col v Hcol. apply rank_mask_spec, Hk, Hcol.
    + intros col v Hcol. apply metric_mask_spec, Hm, Hcol.
  - intros (Hr & [He Hn] & Hk & Hm).
    split; [exact Hr|]. split; [exact He|]. split; [|split; [|split; [|exact Hn]]].
    + intros col Hcol. apply rank_mask_spec. intros v. apply Hk, Hcol.
    + intros col Hcol. apply metric_mask_spec. intros v. apply Hm, Hcol.
    + unfold has_name_and_country in He. apply andb_true_iff in He as [Hname _].
      destruct (text r name) as [n|] eqn:En; [|discriminate].
      apply (length_mask_vacuous r n En).
Qed.

Lemma clamp_rated (x : option Q) (v : Q) : clamp x = Some v -> (0 <= v /\ v <= 10)%Q.
Proof.
  unfold clamp. destruct x as [q|]; [|discriminate]. intros [= <-].
  unfold py_min, py_max.
  destruct (Qlt_bool 0 q) eqn:E0.
  - apply Qlt_bool_true in E0. destruct (Qlt_bool q 10) eqn:E1.
    + apply Qlt_bool_true in E1. lra.
    + lra.
  - destruct (Qlt_bool 0 10) eqn:E1; lra.
Qed.

(** X10. After the clamping step of [_clean_scores] each of the four
    metrics is null or between 0 and 10, so the range test of
    [_validate_data] never removes a row that went through it: of clamped
    rows the validation keeps exactly those with a name that is not a
    numeral, a country and no rank at or below zero. *)
Theorem clamped_rows_pass_the_range_test (df : list Row) :
  (forall r, metrics_rated (clamp_metrics r)) /\
  (forall r, In r (_validate_data (map clamp_metrics df)) <->
             In r (map clamp_metrics df) /\ named_row r /\ ranks_positive r).
Proof.
  assert (Hrated : forall r, metrics_rated (clamp_metrics r)).
  { intros r col v Hcol. unfold clamp_metrics. cbn [metric].
    rewrite bool_decide_eq_true_2 by (apply list_elem_of_In; exact Hcol).
    apply clamp_rated. }
  split; [exact Hrated|]. intros r.
  rewrite validation_tests, <- named_row_spec. unfold ranks_positive. split.
  - intros (Hr & He & Hk & _ & _ & Hn). split; [exact Hr|]. split; [tauto|].
    intros col v Hcol. apply rank_mask_spec, Hk, Hcol.
  - intros (Hr & [He Hn] & Hk).
    split; [exact Hr|]. split; [exact He|]. split; [|split; [|split; [|exact Hn]]].
    + intros col Hcol. apply rank_mask_spec. intros v. apply Hk, Hcol.
    + intros col Hcol. apply metric_mask_spec.
      apply in_map_iff in Hr as [r0 [<- _]]. intros v. apply Hrated, Hcol.
    + unfold has_name_and_country in He. apply andb_true_iff in He as [Hname _].
      destruct (text r name) as [n|] eqn:En; [|discriminate].
      apply (length_mask_vacuous r n En).
Qed.

End ValidationFacts.

(** ** Signs in front of a rank or a score *)

Section Signs.
Import Cleaner.

(** X11. A rank text that starts with a minus sign (after white space is
    stripped) parses to null: [_parse_ranking] cuts the text at the first
    '-' and finds no digits in what is left. *)
Theorem parse_ranking_minus_is_null `{Interpreter} (s t : str) :
  strip s = "-"%char :: t -> _parse_ranking (Some s) = Ret None.
Proof.
  intros Hs. unfold _parse_ranking. rewrite Hs.
  match goal with |- context [existsb ?f not_ranked_words] =>
    destruct (existsb f not_ranked_words) end; [reflexivity|].
  unfold sub at 2. change (py "") with (@nil ascii). cbn [seqs].
  rewrite (sub_anchor_head (any_of "=#+") "-" t).
  change (any_of "=#+" "-") with false. cbv iota.
  change (contains_char "-" ("-"%char :: t)) with true. cbv iota.
  reflexivity.
Qed.

Lemma score_match_any_prev (prev prev' : option ascii) (s : str) :
  match_len (seqs [Plus is_digit; dot_opt; Star is_digit]) prev s =
  match_len (seqs [Plus is_digit; dot_opt; Star is_digit]) prev' s.
Proof. destruct s; reflexivity. Qed.

Lemma score_search_any_prev (prev prev' : option ascii) (s : str) :
  search_from (seqs [Plus is_digit; dot_opt; Star is_digit]) prev s =
  search_from (seqs [Plus is_digit; dot_opt; Star is_digit]) prev' s.
Proof.
  destruct s as [|c t]; cbn [search_from];
    rewrite (score_match_any_prev prev prev'); reflexivity.
Qed.

Lemma score_search_skips (x s : str) (prev : option ascii) :
  none_in is_digit x ->
  search_from (seqs [Plus is_digit; dot_opt; Star is_digit]) prev (x ++ s) =
  search (seqs [Plus is_digit; dot_opt; Star is_digit]) s.
Proof.
  intros Hx. revert prev. induction Hx as [|c t Hc Ht IH]; intros prev.
  - apply score_search_any_prev.
  - cbn [app search_from].
    assert (Hm : match_len (seqs [Plus is_digit; dot_opt; Star is_digit]) prev (c :: t ++ s)
                 = None).
    { unfold match_len, Plus. cbn [seqs m]. rewrite Hc. reflexivity. }
    rewrite Hm. apply IH.
Qed.

Lemma strip_clean_ends (u : str) :
  starts_clean u -> starts_clean (rev u) -> strip u = u.
Proof.
  intros Hs He. unfold strip, rstrip.
  rewrite (lstrip_clean u Hs), (lstrip_clean (rev u) He). apply rev_involutive.
Qed.

Lemma strip_with_prefix (x s : str) :
  none_in is_space x -> strip s = s -> strip (x ++ s) = x ++ s.
Proof.
  intros Hx Hs. destruct (strip_ends s) as [H1 H2]. rewrite Hs in H1, H2.
  apply strip_clean_ends.
  - destruct Hx as [|c t Hc Ht]; [exact H1 | exact Hc].
  - rewrite rev_app_distr. destruct s as [|c t].
    + cbn [rev app]. apply Forall_rev in Hx. destruct Hx as [|d u Hd Hu]; [exact I | exact Hd].
    + apply starts_clean_app; [|exact H2].
      intros E. apply (f_equal (@length ascii)) in E. rewrite length_rev in E. discriminate.
Qed.

(** X12. In a score text without a percent sign, whatever stands in front
    of the number is ignored, a minus sign included: a prefix free of
    digits, of '%' and of white space does not change what [_parse_score]
    returns, so "-3.5" parses as "3.5" does. *)
Theorem parse_score_ignores_prefix `{PyFloat} (x s : str) :
  none_in is_digit x -> none_in (eqc "%") x -> none_in is_space x ->
  strip s = s -> contains_char "%" s = false ->
  _parse_score (Some (x ++ s)) = _parse_score (Some s).
Proof.
  intros Hd Hp Hw Hs Hpct. unfold _parse_score.
  rewrite (strip_with_prefix x s Hw Hs), Hs.
  rewrite contains_char_app, (contains_char_none "%" x Hp), Hpct. cbn [orb].
  unfold search at 1. rewrite (score_search_skips x s None Hd). reflexivity.
Qed.

End Signs.

Section SignsExample.
Import Cleaner.
#[local] Existing Instance cpython.

Lemma parse_ranking_minus_is_null_witness :
  _parse_ranking (Some (py " -5")) = Ret None.
Proof.
  apply (@parse_ranking_minus_is_null cpython (py " -5") (py "5")). reflexivity.
Defined.

Lemma parse_score_ignores_prefix_witness :
  @_parse_score Fixtures.whole_floats (Some (py "-35")) =
  @_parse_score Fixtures.whole_floats (Some (py "35")).
Proof.
  apply (@parse_score_ignores_prefix Fixtures.whole_floats (py "-") (py "35")).
  - repeat constructor.
  - repeat constructor.
  - repeat constructor.
  - reflexivity.
  - reflexivity.
Defined.

End SignsExample.

(** ** The name cache over a column *)

Section NameCache.
Import Cleaner NameColumn.

Lemma clean_university_name_null (cache : gmap str str) :
  clean_university_name cache None = ([], cache).
Proof. reflexivity. Qed.

(** One call keeps the cache consistent, keeps what it held and adds at
    most the cell it was given. *)
Lemma clean_university_name_cache (cache : gmap str str) (cell : option str) :
  consistent cache ->
  let '(cleaned, cache') := clean_university_name cache cell in
  cleaned = clean_cell cell /\ consistent cache' /\
  (forall k, cache' !! k =
             if bool_decide (cell = Some k) then Some (clean_name_uncached k) else cache !! k).
Proof.
  intros Hc. destruct cell as [s|]; cbn [clean_university_name clean_cell].
  - destruct (cache !! s) as [v|] eqn:E.
    + split; [apply (Hc s v E)|]. split; [exact Hc|]. intros k.
      case_bool_decide as Hk; [|reflexivity]. injection Hk as <-.
      rewrite E. f_equal. apply (Hc s v E).
    + split; [reflexivity|]. split.
      * intros k v Hk. destruct (decide (s = k)) as [<- | Hne].
        -- rewrite lookup_insert_eq in Hk. congruence.
        -- rewrite lookup_insert_ne in Hk by exact Hne. apply (Hc k v Hk).
      * intros k. case_bool_decide as Hk.
        -- injection Hk as <-. apply lookup_insert_eq.
        -- apply lookup_insert_ne. congruence.
  - split; [reflexivity|]. split; [exact Hc|]. intros k.
    rewrite bool_decide_eq_false_2 by discriminate. reflexivity.
Qed.

(** X13. The name cache is transparent: over a whole column, and from any
    cache that holds only results of the cleaning itself (the empty cache of
    a new cleaner included), [clean_university_name] returns for every cell
    what it returns without a cache, '' for a null; the cache stays of that
    kind, and afterwards holds the cleaned form of every string of the
    column next to what it held before. *)
Theorem name_cache_is_transparent (cache : gmap str str) (column : list (option str)) :
  consistent cache ->
  fst (clean_names cache column) = map clean_cell column /\
  consistent (snd (clean_names cache column)) /\
  (forall k, snd (clean_names cache column) !! k =
             if bool_decide (Some k ∈ column) then Some (clean_name_uncached k)
             else cache !! k).
Proof.
  revert cache. induction column as [|cell rest IH]; intros cache Hc.
  - cbn. split; [reflexivity|]. split; [exact Hc|]. intros k.
    rewrite bool_decide_eq_false_2 by (apply not_elem_of_nil). reflexivity.
  - cbn [clean_names map].
    pose proof (clean_university_name_cache cache cell Hc) as Hone.
    destruct (clean_university_name cache cell) as [cleaned cache1].
    destruct Hone as [Hcleaned [Hc1 Hk1]].
    destruct (IH cache1 Hc1) as [Hrest [Hc2 Hk2]].
    destruct (clean_names cache1 rest) as [others cache2]. cbn [fst snd] in *.
    split; [rewrite Hcleaned, Hrest; reflexivity|]. split; [exact Hc2|].
    intros k. rewrite Hk2, Hk1.
    destruct (bool_decide (Some k ∈ rest)) eqn:Er.
    + apply bool_decide_eq_true_1 in Er.
      rewrite bool_decide_eq_true_2 by (apply elem_of_cons; right; exact Er). reflexivity.
    + apply bool_decide_eq_false_1 in Er. case_bool_decide as Hk.
      * rewrite bool_decide_eq_true_2 by (apply elem_of_cons; left; congruence). reflexivity.
      * rewrite bool_decide_eq_false_2; [reflexivity|].
        intros E. apply elem_of_cons in E as [E | E]; [congruence | contradiction].
Qed.

End NameCache.

Section NameCacheExample.
Import Cleaner NameColumn.

Lemma name_cache_is_transparent_witness :
  fst (clean_names ∅ [Some (py "Univ. of Toronto"); None; Some (py "Univ. of Toronto")]) =
  [py "University of Toronto"; py ""; py "University of Toronto"].
Proof.
  assert (Hc : consistent ∅) by (intros k v Hk; rewrite lookup_empty in Hk; discriminate).
  rewrite (proj1 (name_cache_is_transparent ∅ _ Hc)). vm_compute. reflexivity.
Defined.

End NameCacheExample.

(** ** Texts and metrics of a merged cluster *)

Section MergedValues.
Import Cleaner.

Lemma longest_from_spec (values : list str) (best : str) :
  In (longest_from best values) (best :: values) /\
  Forall (fun w => (length w <= length (longest_from best values))%nat) (best :: values).
Proof.
  revert best. induction values as [|v rest IH]; intros best; cbn [longest_from].
  - split; [left; reflexivity | constructor; [lia | constructor]].
  - destruct (length best <? length v)%nat eqn:E.
    + apply Nat.ltb_lt in E. destruct (IH v) as [Hin Hall]. split.
      * right. exact Hin.
      * inversion Hall as [|x l Hv Hrest]; subst.
        constructor; [lia | constructor; [exact Hv | exact Hrest]].
    + apply Nat.ltb_ge in E. destruct (IH best) as [Hin Hall]. split.
      * destruct Hin as [Hin | Hin]; [left; exact Hin | right; right; exact Hin].
      * inversion Hall as [|x l Hb Hrest]; subst.
        constructor; [exact Hb | constructor; [lia | exact Hrest]].
Qed.

(** The value of a text column once the text loop has run over [fields]. *)
Lemma text_after_loop (rows : list Row) (fields : list text_field) (m : Row)
  (f : text_field) :
  NoDup fields ->
  text (fold_left (merge_text rows) fields m) f =
  if bool_decide (f ∈ fields)
  then match dropna (fun r => text r f) rows with
       | [] => text m f
       | v :: rest => Some (longest_from v rest)
       end
  else text m f.
Proof.
  intros Hnd. revert m. induction Hnd as [|g fields Hg Hnd IH]; intros m; [reflexivity|].
  cbn [fold_left]. rewrite IH. clear IH.
  destruct (decide (f = g)) as [->|Hfg].
  - rewrite (bool_decide_eq_true_2 (g ∈ g :: fields)) by (left).
    rewrite (bool_decide_eq_false_2 (g ∈ fields)) by exact Hg.
    unfold merge_text. destruct (dropna (fun r => text r g) rows) as [|v rest]; [reflexivity|].
    cbn [text set_text]. rewrite decide_True by reflexivity. reflexivity.
  - assert (Hother : text (merge_text rows m g) f = text m f).
    { unfold merge_text. destruct (dropna (fun r => text r g) rows); [reflexivity|].
      cbn [text set_text]. rewrite decide_False by exact Hfg. reflexivity. }
    rewrite Hother.
    destruct (bool_decide (f ∈ fields)) eqn:E.
    + apply bool_decide_eq_true_1 in E.
      rewrite (bool_decide_eq_true_2 (f ∈ g :: fields)) by (right; exact E). reflexivity.
    + apply bool_decide_eq_false_1 in E.
      rewrite (bool_decide_eq_false_2 (f ∈ g :: fields)); [reflexivity|].
      intros Hin. apply elem_of_cons in Hin as [Heq | Hin]; [congruence | contradiction].
Qed.

Lemma metric_after_loop (rows : list Row) (fields : list numeric_field) (m : Row)
  (f : numeric_field) :
  NoDup fields ->
  metric (fold_left (merge_metric rows) fields m) f =
  if bool_decide (f ∈ fields)
  then match dropna (fun r => metric r f) rows with
       | [] => metric m f
       | values => Some (mean values)
       end
  else metric m f.
Proof.
  intros Hnd. revert m. induction Hnd as [|g fields Hg Hnd IH]; intros m; [reflexivity|].
  cbn [fold_left]. rewrite IH. clear IH.
  destruct (decide (f = g)) as [->|Hfg].
  - rewrite (bool_decide_eq_true_2 (g ∈ g :: fields)) by (left).
    rewrite (bool_decide_eq_false_2 (g ∈ fields)) by exact Hg.
    unfold merge_metric. destruct (dropna (fun r => metric r g) rows) as [|v rest]; [reflexivity|].
    cbn [metric set_metric]. rewrite decide_True by reflexivity. reflexivity.
  - assert (Hother : metric (merge_metric rows m g) f = metric m f).
    { unfold merge_metric. destruct (dropna (fun r => metric r g) rows); [reflexivity|].
      cbn [metric set_metric]. rewrite decide_False by exact Hfg. reflexivity. }
    rewrite Hother.
    destruct (bool_decide (f ∈ fields)) eqn:E.
    + apply bool_decide_eq_true_1 in E.
      rewrite (bool_decide_eq_true_2 (f ∈ g :: fields)) by (right; exact E). reflexivity.
    + apply bool_decide_eq_false_1 in E.
      rewrite (bool_decide_eq_false_2 (f ∈ g :: fields)); [reflexivity|].
      intros Hin. apply elem_of_cons in Hin as [Heq | Hin]; [congruence | contradiction].
Qed.

(** The later loops leave the texts and the metrics alone. *)
Lemma merge_metric_text (rows : list Row) (m : Row) (f : numeric_field) :
  text (merge_metric rows m f) = text m.
Proof. unfold merge_metric. destruct (dropna _ rows); reflexivity. Qed.

Lemma merge_rank_others (rows : list Row) (m : Row) (f : ranking_field) :
  text (merge_rank rows m f) = text m /\ metric (merge_rank rows m f) = metric m.
Proof. unfold merge_rank. destruct (dropna _ rows); split; reflexivity. Qed.

Lemma merge_score_others (rows : list Row) (m : Row) (f : score_field) :
  text (merge_score rows m f) = text m /\ metric (merge_score rows m f) = metric m.
Proof. unfold merge_score. destruct (dropna _ rows); split; reflexivity. Qed.

Lemma text_fields_all (f : text_field) : f ∈ text_fields /\ NoDup text_fields.
Proof.
  split.
  - apply list_elem_of_In. destruct f; cbn; tauto.
  - unfold text_fields. repeat constructor; rewrite list_elem_of_In; cbn; intuition discriminate.
Qed.

Lemma numeric_fields_all (f : numeric_field) : f ∈ numeric_fields /\ NoDup numeric_fields.
Proof.
  split.
  - apply list_elem_of_In. destruct f; cbn; tauto.
  - unfold numeric_fields. repeat constructor; rewrite list_elem_of_In; cbn; intuition discriminate.
Qed.

(** X14. In the row [_merge_duplicate_rows] returns for a cluster, each of
    the text fields [name], [city], [country] and [website_url] is a longest
    of the members' non-null values (null when every member's is null): one
    of their values, and none of them is longer. *)
Theorem merged_text_is_a_longest (first : Row) (others : list Row) (f : text_field) :
  exists merged,
    _merge_duplicate_rows (first :: others) = Some merged /\
    match dropna (fun r => text r f) (first :: others) with
    | [] => text merged f = None
    | v :: rest =>
        exists best, text merged f = Some best /\
                     In best (v :: rest) /\
                     Forall (fun w => (length w <= length best)%nat) (v :: rest)
    end.
Proof.
  eexists. split; [reflexivity|].
  rewrite (fold_left_keeps (fun r => text r f) (merge_score (first :: others)))
    by (intros x b; rewrite (proj1 (merge_score_others _ x b)); reflexivity).
  rewrite (fold_left_keeps (fun r => text r f) (merge_rank (first :: others)))
    by (intros x b; rewrite (proj1 (merge_rank_others _ x b)); reflexivity).
  rewrite (fold_left_keeps (fun r => text r f) (merge_metric (first :: others)))
    by (intros x b; rewrite merge_metric_text; reflexivity).
  destruct (text_fields_all f) as [Hin Hnd].
  rewrite (text_after_loop _ _ _ f Hnd), (bool_decide_eq_true_2 _ Hin).
  destruct (dropna (fun r => text r f) (first :: others)) as [|v rest] eqn:E.
  - apply (dropna_first_null (fun r => text r f) first others E).
  - exists (longest_from v rest). split; [reflexivity | apply longest_from_spec].
Qed.

Lemma inject_succ (k : nat) :
  (inject_Z (Z.of_nat (S k)) == inject_Z (Z.of_nat k) + 1)%Q.
Proof. rewrite Nat2Z.inj_succ. unfold Z.succ. rewrite inject_Z_plus. reflexivity. Qed.

Lemma Qsum_bounds (values : list Q) (lo hi : Q) :
  Forall (fun v => (lo <= v /\ v <= hi)%Q) values ->
  (lo * inject_Z (Z.of_nat (length values)) <= Qsum values /\
   Qsum values <= hi * inject_Z (Z.of_nat (length values)))%Q.
Proof.
  induction 1 as [|v rest [Hlo Hhi] Hrest [IHlo IHhi]].
  - unfold Qsum. cbn [length fold_right]. change (inject_Z (Z.of_nat 0)) with 0%Q. split; lra.
  - cbn [length]. unfold Qsum in *. cbn [fold_right]. rewrite inject_succ. split; lra.
Qed.

Lemma mean_bounds (values : list Q) (lo hi : Q) :
  values <> [] ->
  Forall (fun v => (lo <= v /\ v <= hi)%Q) values ->
  (lo <= mean values /\ mean values <= hi)%Q.
Proof.
  intros Hne Hall. destruct (Qsum_bounds values lo hi Hall) as [Hlo Hhi].
  assert (Hn : (0 < inject_Z (Z.of_nat (length values)))%Q).
  { change 0%Q with (inject_Z 0). rewrite <- Zlt_Qlt.
    destruct values; [congruence | cbn [length]; lia]. }
  unfold mean. split.
  - apply Qle_shift_div_l; [exact Hn | exact Hlo].
  - apply Qle_shift_div_r; [exact Hn | exact Hhi].
Qed.

Lemma dropna_bounds (rows : list Row) (f : numeric_field) (lo hi : Q) :
  (forall r v, In r rows -> metric r f = Some v -> (lo <= v /\ v <= hi)%Q) ->
  Forall (fun v => (lo <= v /\ v <= hi)%Q) (dropna (fun r => metric r f) rows).
Proof.
  intros Hrows. unfold dropna. induction rows as [|r rows IH]; [constructor|].
  simpl. destruct (metric r f) as [v|] eqn:E.
  - constructor; [apply (Hrows r v (or_introl eq_refl) E)|].
    apply IH. intros r' v' Hr'. apply Hrows. right. exact Hr'.
  - apply IH. intros r' v' Hr'. apply Hrows. right. exact Hr'.
Qed.

(** The metric of the merged row: the mean of what the members hold. *)
Lemma merged_metric_value (first : Row) (others : list Row) (f : numeric_field) :
  exists merged,
    _merge_duplicate_rows (first :: others) = Some merged /\
    metric merged f =
      match dropna (fun r => metric r f) (first :: others) with
      | [] => None
      | values => Some (mean values)
      end.
Proof.
  eexists. split; [reflexivity|].
  rewrite (fold_left_keeps (fun r => metric r f) (merge_score (first :: others)))
    by (intros x b; rewrite (proj2 (merge_score_others _ x b)); reflexivity).
  rewrite (fold_left_keeps (fun r => metric r f) (merge_rank (first :: others)))
    by (intros x b; rewrite (proj2 (merge_rank_others _ x b)); reflexivity).
  destruct (numeric_fields_all f) as [Hin Hnd].
  rewrite (metric_after_loop _ _ _ f Hnd), (bool_decide_eq_true_2 _ Hin).
  destruct (dropna (fun r => metric r f) (first :: others)) as [|v rest] eqn:E; [|reflexivity].
  rewrite (fold_left_keeps (fun r => metric r f) (merge_text (first :: others))).
  - apply (dropna_first_null (fun r => metric r f) first others E).
  - intros x b. unfold merge_text.
    destruct (dropna (fun r => text r b) (first :: others)); reflexivity.
Qed.

(** X15. In the row [_merge_duplicate_rows] returns for a cluster, each of
    the six numeric metrics is the mean of the members' non-null values (null
    when every member's is null), and so lies within any bounds that hold
    for the members: metrics between 0 and 10 merge into metrics between 0
    and 10. *)
Theorem merged_metric_within_members (first : Row) (others : list Row)
  (f : numeric_field) (lo hi : Q) :
  (forall r v, In r (first :: others) -> metric r f = Some v -> (lo <= v /\ v <= hi)%Q) ->
  exists merged,
    _merge_duplicate_rows (first :: others) = Some merged /\
    metric merged f =
      match dropna (fun r => metric r f) (first :: others) with
      | [] => None
      | values => Some (mean values)
      end /\
    (forall v, metric merged f = Some v -> (lo <= v /\ v <= hi)%Q).
Proof.
  intros Hrows. destruct (merged_metric_value first others f) as [merged [Hm Hvalue]].
  exists merged. split; [exact Hm|]. split; [exact Hvalue|]. rewrite Hvalue.
  pose proof (dropna_bounds (first :: others) f lo hi Hrows) as Hall.
  destruct (dropna (fun r => metric r f) (first :: others)) as [|v rest]; [discriminate|].
  intros w [= <-]. apply mean_bounds; [discriminate | exact Hall].
Qed.

End MergedValues.

Section MergedValuesExample.
Import Cleaner.

Lemma merged_metric_within_members_witness :
  exists merged v,
    _merge_duplicate_rows [ClusterFixtures.oxford_a; ClusterFixtures.oxford_b] = Some merged /\
    metric merged academic_rigor = Some v /\ (v == 17 # 2)%Q /\ (0 <= v /\ v <= 10)%Q.
Proof.
  destruct (merged_metric_within_members ClusterFixtures.oxford_a [ClusterFixtures.oxford_b]
              academic_rigor 0 10) as [merged [Hm [Hv Hb]]].
  - intros r v [<- | [<- | []]] [= <-]; split; discriminate.
  - exists merged. eexists. split; [exact Hm|]. split; [exact Hv|].
    split; [reflexivity|]. apply Hb. exact Hv.
Defined.

End MergedValuesExample.

(** ** Duplicate clusters *)

Section DuplicateFacts.
Import Cleaner Duplicates.
Context `{Fuzz}.

Lemma similar_defined (row other : Row) :
  has_texts row -> has_texts other -> similar row other <> None.
Proof.
  intros [Hn Hc] [Hn' Hc']. unfold similar.
  destruct (text other country); [|congruence]. destruct (text row country); [|congruence].
  destruct (str_eqb _ _); [|discriminate].
  destruct (text row name); [|congruence]. destruct (text other name); [|congruence].
  discriminate.
Qed.

Lemma similar_indices_total (processed : gset nat) (idx : nat) (row : Row)
  (df : list (nat * Row)) :
  (forall j r, In (j, r) df -> similar row r <> None) ->
  exists found, similar_indices processed idx row df = Some found.
Proof.
  induction df as [|[j r] df IH]; intros Hdf; cbn [similar_indices]; [eauto|].
  destruct IH as [found Hfound]; [intros j' r' Hin; apply (Hdf j' r'); right; exact Hin|].
  rewrite Hfound. destruct (bool_decide (j ∈ processed) || (j =? idx)%nat)%bool; [eauto|].
  destruct (similar row r) as [b|] eqn:E; [eauto|].
  exfalso. apply (Hdf j r (or_introl eq_refl) E).
Qed.

(** What the inner loop finds: the labels of the entries that pass its
    test, in the order of the frame. *)
Lemma similar_indices_found (processed : gset nat) (idx : nat) (row : Row)
  (df : list (nat * Row)) (found : list nat) :
  similar_indices processed idx row df = Some found ->
  found = map fst (List.filter (joins processed idx row) df).
Proof.
  revert found. induction df as [|[j r] df IH]; intros found; cbn [similar_indices List.filter].
  - intros [= <-]. reflexivity.
  - unfold joins at 1. cbn [fst snd].
    destruct (bool_decide (j ∈ processed) || (j =? idx)%nat)%bool; cbn [negb andb]; [apply IH|].
    destruct (similar row r) as [b|] eqn:E; [|discriminate].
    destruct (similar_indices processed idx row df) as [found'|]; [|discriminate].
    intros [= <-]. rewrite (IH found' eq_refl).
    destruct b.
    + rewrite bool_decide_eq_true_2 by reflexivity. reflexivity.
    + rewrite bool_decide_eq_false_2 by discriminate. reflexivity.
Qed.

Lemma filter_none {A} (f : A -> bool) (l : list A) :
  (forall x, In x l -> f x = false) -> List.filter f l = [].
Proof.
  induction l as [|x l IH]; intros Hl; [reflexivity|]. cbn [List.filter].
  rewrite (Hl x (or_introl eq_refl)). apply IH. intros y Hy. apply Hl. right. exact Hy.
Qed.

Lemma in_labels_filter (f : nat * Row -> bool) (l : list (nat * Row)) (j : nat) :
  In j (map fst (List.filter f l)) -> exists r, In (j, r) l /\ f (j, r) = true.
Proof.
  intros Hj. apply in_map_iff in Hj as [[j' r] [E Hin]]. cbn in E. subst j'.
  apply filter_In in Hin. exists r. exact Hin.
Qed.

Lemma NoDup_labels_filter (f : nat * Row -> bool) (l : list (nat * Row)) :
  NoDup (map fst l) -> NoDup (map fst (List.filter f l)).
Proof.
  induction l as [|[j r] l IH]; intros Hl; [constructor|].
  cbn [map fst] in Hl. apply NoDup_cons in Hl as [Hj Hl]. cbn [List.filter].
  destruct (f (j, r)); [|apply IH; exact Hl].
  cbn [map fst]. apply NoDup_cons. split; [|apply IH; exact Hl].
  intros Hin. apply Hj. apply list_elem_of_In. apply list_elem_of_In in Hin.
  apply in_labels_filter in Hin as [r' [Hin _]].
  apply in_map_iff. exists (j, r'). split; [reflexivity | exact Hin].
Qed.

Lemma cluster_labels (df : list (nat * Row)) (group : list nat) (i : nat) :
  cluster df group -> In i group -> In i (map fst df).
Proof.
  intros (before & idx & row & after & found & -> & -> & _ & Hfound) [<- | Hi].
  - rewrite map_app, in_app_iff. right. left. reflexivity.
  - destruct (Hfound i Hi) as [r [Hin _]].
    rewrite map_app, in_app_iff. right. right.
    apply in_map_iff. exists (i, r). split; [reflexivity | exact Hin].
Qed.

(** One turn of the outer loop keeps the state grouped. *)
Lemma group_row_step (df done rest : list (nat * Row)) (idx : nat) (row : Row)
  (state : list (list nat) * gset nat) :
  NoDup (map fst df) ->
  df = done ++ (idx, row) :: rest ->
  (forall j r, In (j, r) df -> similar row r <> None) ->
  grouped df done state ->
  exists state', group_row df state (idx, row) = Some state' /\
                 grouped df (done ++ [(idx, row)]) state'.
Proof.
  intros Hnd Hdf Hsim Hst. destruct state as [duplicates processed].
  destruct Hst as (Hclusters & Hdisjoint & Hprocessed). cbn [fst snd] in *.
  unfold group_row. case_bool_decide as Hidx.
  - eexists. split; [reflexivity|]. split; [exact Hclusters|]. split; [exact Hdisjoint|].
    cbn [fst snd]. intros i. rewrite Hprocessed, map_app, in_app_iff. cbn [map fst In].
    split; [tauto|]. intros [[Hi | [<- | []]] | Hi]; [tauto | | tauto].
    apply Hprocessed. exact Hidx.
  - destruct (similar_indices_total processed idx row df Hsim) as [found Hfound].
    rewrite Hfound. apply similar_indices_found in Hfound.
    assert (Hrest : found = map fst (List.filter (joins processed idx row) rest)).
    { rewrite Hfound, Hdf, List.filter_app. cbn [List.filter].
      rewrite (filter_none _ done).
      - unfold joins at 1. cbn [fst]. rewrite Nat.eqb_refl, orb_true_r. reflexivity.
      - intros [j r] Hin. unfold joins. cbn [fst snd].
        rewrite bool_decide_eq_true_2; [reflexivity|].
        apply Hprocessed. left. apply in_map_iff. exists (j, r). split; [reflexivity | exact Hin]. }
    assert (Hmembers : forall j, In j found ->
              (j ∉ processed) /\ j <> idx /\ exists r, In (j, r) rest /\ similar row r = Some true).
    { intros j Hj. rewrite Hrest in Hj. apply in_labels_filter in Hj as [r [Hin Hjoin]].
      unfold joins in Hjoin. cbn [fst snd] in Hjoin.
      apply andb_true_iff in Hjoin as [Hfree Hs].
      apply negb_true_iff, orb_false_iff in Hfree as [Hp Hne].
      apply bool_decide_eq_false_1 in Hp. apply Nat.eqb_neq in Hne.
      apply bool_decide_eq_true_1 in Hs. split; [exact Hp|]. split; [exact Hne|].
      exists r. split; assumption. }
    assert (Hnd_found : NoDup found).
    { rewrite Hrest. apply NoDup_labels_filter.
      rewrite Hdf, map_app in Hnd. apply NoDup_app in Hnd as (_ & _ & Hnd).
      cbn [map fst] in Hnd. apply NoDup_cons in Hnd as [_ Hnd]. exact Hnd. }
    destruct found as [|j0 found'].
    + eexists. split; [reflexivity|]. split; [exact Hclusters|]. split; [exact Hdisjoint|].
      cbn [fst snd]. intros i. rewrite elem_of_union, elem_of_singleton, Hprocessed.
      rewrite map_app, in_app_iff. cbn [map fst In]. intuition congruence.
    + set (found := j0 :: found') in *. eexists. split; [reflexivity|].
      unfold grouped. cbn [fst snd].
      split; [|split].
      * apply Forall_app. split; [exact Hclusters|]. constructor; [|constructor].
        exists done, idx, row, rest, found. split; [exact Hdf|]. split; [reflexivity|].
        split; [discriminate|]. intros j Hj. apply (Hmembers j Hj).
      * rewrite concat_app. cbn [concat]. rewrite app_nil_r.
        apply NoDup_app. split; [exact Hdisjoint|]. split.
        -- intros i Hi Hg. apply list_elem_of_In in Hi, Hg.
           assert (Hp : i ∈ processed) by (apply Hprocessed; right; exact Hi).
           destruct Hg as [<- | Hg]; [contradiction|].
           apply (proj1 (Hmembers i Hg)). exact Hp.
        -- apply NoDup_cons. split; [|exact Hnd_found].
           intros Hin. apply list_elem_of_In in Hin.
           apply (proj1 (proj2 (Hmembers idx Hin))). reflexivity.
      * intros i. rewrite elem_of_union, elem_of_list_to_set, list_elem_of_In, Hprocessed.
        rewrite concat_app, !map_app, !in_app_iff. cbn [concat map fst In].
        rewrite app_nil_r. cbn [In]. tauto.
Qed.

(** The outer loop over what is left of the frame. *)
Lemma group_rows_run (df done todo : list (nat * Row)) (state : list (list nat) * gset nat) :
  NoDup (map fst df) ->
  df = done ++ todo ->
  (forall i j ri rj, In (i, ri) df -> In (j, rj) df -> similar ri rj <> None) ->
  grouped df done state ->
  exists state', group_rows df state todo = Some state' /\ grouped df df state'.
Proof.
  intros Hnd. revert done state. induction todo as [|[idx row] todo IH];
    intros done state Hdf Hsim Hst; cbn [group_rows].
  - rewrite app_nil_r in Hdf. subst done. eauto.
  - destruct (group_row_step df done todo idx row state Hnd Hdf) as [state' [Hstep Hst']];
      [|exact Hst|].
    + intros j r Hin. apply (Hsim idx j row r); [|exact Hin].
      rewrite Hdf. apply in_or_app. right. left. reflexivity.
    + rewrite Hstep. apply (IH (done ++ [(idx, row)]) state'); [|exact Hsim | exact Hst'].
      rewrite <- app_assoc. exact Hdf.
Qed.

(** *** The second loop *)

Lemma lookup_row_label (df : list (nat * Row)) (i : nat) :
  In i (map fst df) -> is_Some (lookup_row df i).
Proof.
  unfold lookup_row. induction df as [|[j r] df IH]; intros Hi; [destruct Hi|].
  cbn [List.find fst]. destruct (j =? i)%nat eqn:E; [eexists; reflexivity|].
  apply IH. destruct Hi as [Hi | Hi]; [|exact Hi].
  cbn in Hi. apply Nat.eqb_neq in E. contradiction.
Qed.

Lemma set_row_labels (df : list (nat * Row)) (i : nat) (r : Row) :
  map fst (set_row df i r) = map fst df.
Proof.
  unfold set_row. rewrite map_map. apply map_ext. intros [j r']. cbn [fst].
  destruct (j =? i)%nat eqn:E; [|reflexivity]. apply Nat.eqb_eq in E. symmetry. exact E.
Qed.

Lemma drop_rows_labels (df : list (nat * Row)) (others : list nat) :
  map fst (drop_rows df others) =
  List.filter (fun x => negb (existsb (Nat.eqb x) others)) (map fst df).
Proof.
  unfold drop_rows. induction df as [|[j r] df IH]; [reflexivity|].
  cbn [List.filter map fst]. destruct (negb (existsb (Nat.eqb j) others)); cbn [map fst];
    rewrite IH; reflexivity.
Qed.

Lemma drop_rows_length (df : list (nat * Row)) (others : list nat) :
  length (drop_rows df others) =
  length (List.filter (fun x => negb (existsb (Nat.eqb x) others)) (map fst df)).
Proof. rewrite <- drop_rows_labels. symmetry. apply length_map. Qed.

Lemma existsb_label (x : nat) (l : list nat) : existsb (Nat.eqb x) l = true <-> In x l.
Proof.
  rewrite existsb_exists. split.
  - intros [y [Hy E]]. apply Nat.eqb_eq in E. subst. exact Hy.
  - intros Hx. exists x. split; [exact Hx | apply Nat.eqb_refl].
Qed.

Lemma NoDup_list_filter (f : nat -> bool) (l : list nat) :
  NoDup l -> NoDup (List.filter f l).
Proof.
  induction 1 as [|x l Hx Hl IH]; [constructor|]. cbn [List.filter].
  destruct (f x); [|exact IH]. constructor; [|exact IH].
  intros Hin. apply Hx. apply list_elem_of_In. apply list_elem_of_In, filter_In in Hin. tauto.
Qed.

(** Dropping labels of the frame, each once, shortens the frame by their
    number. *)
Lemma drop_labels_length (l others : list nat) :
  NoDup l -> NoDup others -> (forall x, In x others -> In x l) ->
  (length (List.filter (fun x => negb (existsb (Nat.eqb x) others)) l) + length others
   = length l)%nat.
Proof.
  intros Hl Ho Hsub.
  assert (Hgone : length (List.filter (fun x => existsb (Nat.eqb x) others) l) = length others).
  { apply Permutation_length. apply NoDup_Permutation.
    - apply NoDup_list_filter. exact Hl.
    - exact Ho.
    - intros x. rewrite !list_elem_of_In, filter_In, existsb_label. split; [tauto|].
      intros Hx. split; [apply Hsub; exact Hx | exact Hx]. }
  rewrite <- Hgone, Nat.add_comm. apply List.filter_length.
Qed.

Lemma merge_group_step (df : list (nat * Row)) (first_idx : nat) (others : list nat) :
  NoDup (map fst df) -> NoDup (first_idx :: others) ->
  (forall i, In i (first_idx :: others) -> In i (map fst df)) ->
  exists df', merge_group df (first_idx :: others) = Some df' /\
              map fst df' =
                List.filter (fun x => negb (existsb (Nat.eqb x) others)) (map fst df) /\
              (length df' + length others = length df)%nat.
Proof.
  intros Hnd Hg Hin. unfold merge_group.
  destruct (mapM_is_Some_2 (lookup_row df) (first_idx :: others)) as [members Hmembers].
  { apply Forall_forall. intros i Hi. apply lookup_row_label, Hin, list_elem_of_In, Hi. }
  rewrite Hmembers. apply length_mapM in Hmembers.
  destruct members as [|m members]; [discriminate|].
  cbn [_merge_duplicate_rows]. eexists. split; [reflexivity|]. split.
  - rewrite drop_rows_labels, set_row_labels. reflexivity.
  - rewrite drop_rows_length, set_row_labels. rewrite <- (length_map fst df).
    apply drop_labels_length.
    + exact Hnd.
    + apply NoDup_cons in Hg. apply Hg.
    + intros x Hx. apply Hin. right. exact Hx.
Qed.

Lemma merge_groups_run (df : list (nat * Row)) (duplicates : list (list nat)) :
  NoDup (map fst df) -> NoDup (concat duplicates) ->
  (forall i, In i (concat duplicates) -> In i (map fst df)) ->
  Forall (fun group => group <> []) duplicates ->
  exists df', merge_groups df duplicates = Some df' /\
              (length df' + dropped duplicates = length df)%nat.
Proof.
  revert df. induction duplicates as [|group duplicates IH]; intros df Hnd Hdis Hin Hne.
  - exists df. split; [reflexivity|]. cbn. lia.
  - cbn [concat] in Hdis, Hin. apply NoDup_app in Hdis as (Hg & Hapart & Hrest).
    apply Forall_cons in Hne as [Hgne Hne].
    destruct group as [|first_idx others]; [congruence|].
    destruct (merge_group_step df first_idx others Hnd Hg) as [df1 [Hstep [Hlabels Hlen]]].
    { intros i Hi. apply Hin, in_or_app. left. exact Hi. }
    cbn [merge_groups]. rewrite Hstep.
    destruct (IH df1) as [df' [Hrun Hlen']].
    + rewrite Hlabels. apply NoDup_list_filter. exact Hnd.
    + exact Hrest.
    + intros i Hi. rewrite Hlabels. apply filter_In. split.
      * apply Hin, in_or_app. right. exact Hi.
      * apply negb_true_iff. apply not_true_is_false. intros Hex.
        apply existsb_label in Hex.
        apply (Hapart i); [apply list_elem_of_In; right; exact Hex|].
        apply list_elem_of_In. exact Hi.
    + exact Hne.
    + exists df'. split; [exact Hrun|]. cbn [dropped fold_right tail].
      fold (dropped duplicates). lia.
Qed.

(** *** Frames with the default index *)

Lemma indexed_labels_from (rows : list Row) (a : nat) :
  map fst (combine (seq a (length rows)) rows) = seq a (length rows) /\
  map snd (combine (seq a (length rows)) rows) = rows.
Proof.
  revert a. induction rows as [|r rows IH]; intros a; [split; reflexivity|].
  cbn [length seq combine map fst snd]. destruct (IH (S a)) as [-> ->]. split; reflexivity.
Qed.

Lemma indexed_labels (rows : list Row) :
  NoDup (map fst (indexed rows)) /\ map snd (indexed rows) = rows /\
  length (indexed rows) = length rows.
Proof.
  unfold indexed. destruct (indexed_labels_from rows 0) as [Hl Hr].
  split; [rewrite Hl; apply NoDup_seq|]. split; [exact Hr|].
  rewrite <- (length_map snd (combine (seq 0 (length rows)) rows)), Hr. reflexivity.
Qed.

Lemma indexed_rows (rows : list Row) (i : nat) (r : Row) :
  In (i, r) (indexed rows) -> In r rows.
Proof. unfold indexed. apply in_combine_r. Qed.

Lemma cluster_not_empty (df : list (nat * Row)) (group : list nat) :
  cluster df group -> group <> [].
Proof. intros (before & idx & row & after & found & _ & -> & _). discriminate. Qed.

Lemma groups_of_frame (rows : list Row) :
  Forall has_texts rows ->
  exists state, group_rows (indexed rows) ([], ∅) (indexed rows) = Some state /\
                grouped (indexed rows) (indexed rows) state.
Proof.
  intros Hrows. destruct (indexed_labels rows) as [Hnd _].
  apply (group_rows_run (indexed rows) [] (indexed rows) ([], ∅) Hnd eq_refl).
  - intros i j ri rj Hi Hj. rewrite Forall_forall in Hrows.
    apply similar_defined; apply Hrows, list_elem_of_In; eapply indexed_rows; eassumption.
  - split; [constructor|]. split; [constructor|]. cbn. intros i. split; [|tauto].
    intros Hi. apply elem_of_empty in Hi. destruct Hi.
Qed.

(** X16. On a frame whose names and countries are strings,
    [_handle_duplicates] raises nothing.  The groups it forms are clusters:
    a row, and rows after it in the frame that have its country and a name
    whose ratio with its name, both in lower case, is above 85; no row is in
    two groups; and each group leaves one row, so the result has as many
    rows as the frame less, for each group, its members but one. *)
Theorem duplicates_are_merged (rows : list Row) :
  Forall has_texts rows ->
  exists duplicates out,
    find_duplicates (indexed rows) = Some duplicates /\
    _handle_duplicates rows = Some out /\
    Forall (cluster (indexed rows)) duplicates /\
    NoDup (concat duplicates) /\
    (length out + dropped duplicates = length rows)%nat.
Proof.
  intros Hrows. destruct (groups_of_frame rows Hrows) as [[duplicates processed] [Hrun Hst]].
  destruct Hst as (Hclusters & Hdisjoint & _). cbn [fst snd] in *.
  destruct (indexed_labels rows) as (Hnd & _ & Hlen).
  destruct (merge_groups_run (indexed rows) duplicates Hnd Hdisjoint) as [df' [Hmerge Hcount]].
  - intros i Hi. apply in_concat in Hi as [group [Hgroup Hi]].
    rewrite Forall_forall in Hclusters.
    apply (cluster_labels (indexed rows) group i); [|exact Hi].
    apply Hclusters, list_elem_of_In, Hgroup.
  - eapply Forall_impl; [exact Hclusters|]. intros group. apply cluster_not_empty.
  - exists duplicates, (map snd df').
    assert (Hfind : find_duplicates (indexed rows) = Some duplicates).
    { unfold find_duplicates. rewrite Hrun. reflexivity. }
    split; [exact Hfind|]. split; [|split; [exact Hclusters|split; [exact Hdisjoint|]]].
    + unfold _handle_duplicates. rewrite Hfind, Hmerge. reflexivity.
    + rewrite length_map, <- Hlen. exact Hcount.
Qed.

Lemma similar_indices_none (processed : gset nat) (idx : nat) (row : Row)
  (df : list (nat * Row)) :
  (forall j r, In (j, r) df -> j <> idx -> similar row r = Some false) ->
  similar_indices processed idx row df = Some [].
Proof.
  induction df as [|[j r] df IH]; intros Hdf; cbn [similar_indices]; [reflexivity|].
  rewrite IH by (intros j' r' Hin; apply Hdf; right; exact Hin).
  destruct (bool_decide (j ∈ processed)); cbn [orb]; [reflexivity|].
  destruct (j =? idx)%nat eqn:E; [reflexivity|]. apply Nat.eqb_neq in E.
  rewrite (Hdf j r (or_introl eq_refl) E). reflexivity.
Qed.

Lemma group_rows_none (df todo : list (nat * Row)) (processed : gset nat) :
  (forall i j ri rj, In (i, ri) todo -> In (j, rj) df -> j <> i ->
                     similar ri rj = Some false) ->
  exists processed', group_rows df ([], processed) todo = Some ([], processed').
Proof.
  revert processed. induction todo as [|[idx row] todo IH]; intros processed Hsim;
    cbn [group_rows]; [eauto|].
  assert (Hrest : forall i j ri rj, In (i, ri) todo -> In (j, rj) df -> j <> i ->
                                    similar ri rj = Some false).
  { intros i j ri rj Hi. apply Hsim. right. exact Hi. }
  unfold group_row. case_bool_decide; [apply IH; exact Hrest|].
  rewrite similar_indices_none; [apply IH; exact Hrest|].
  intros j r Hj Hne. apply (Hsim idx j row r); [left; reflexivity | exact Hj | exact Hne].
Qed.

Lemma indexed_lookup_from (rows : list Row) (a i : nat) (r : Row) :
  In (i, r) (combine (seq a (length rows)) rows) -> (a <= i)%nat /\ rows !! (i - a)%nat = Some r.
Proof.
  revert a. induction rows as [|x rows IH]; intros a; [intros []|].
  cbn [length seq combine]. intros [E | Hin].
  - injection E as <- <-. split; [lia|]. rewrite Nat.sub_diag. reflexivity.
  - destruct (IH (S a) Hin) as [Hle Hr]. split; [lia|].
    replace (i - a)%nat with (S (i - S a)) by lia. exact Hr.
Qed.

Lemma indexed_lookup (rows : list Row) (i : nat) (r : Row) :
  In (i, r) (indexed rows) -> rows !! i = Some r.
Proof.
  intros Hin. destruct (indexed_lookup_from rows 0 i r Hin) as [_ Hr].
  rewrite Nat.sub_0_r in Hr. exact Hr.
Qed.

(** X17. A frame in which no row is similar to another row (no two rows of
    one country have names with a ratio above 85) comes back from
    [_handle_duplicates] unchanged. *)
Theorem distinct_rows_are_kept (rows : list Row) :
  (forall i j ri rj, rows !! i = Some ri -> rows !! j = Some rj -> i <> j ->
                     similar ri rj = Some false) ->
  _handle_duplicates rows = Some rows.
Proof.
  intros Hsim.
  destruct (group_rows_none (indexed rows) (indexed rows) ∅) as [processed Hrun].
  { intros i j ri rj Hi Hj Hne.
    apply (Hsim i j ri rj); [apply indexed_lookup; exact Hi | apply indexed_lookup; exact Hj|].
    congruence. }
  unfold _handle_duplicates, find_duplicates. rewrite Hrun. cbn [fmap option_fmap option_map fst].
  cbn [merge_groups]. f_equal. apply indexed_labels.
Qed.

End DuplicateFacts.

Section DuplicateExamples.
Import Cleaner Duplicates.

Lemma duplicates_are_merged_witness :
  exists duplicates out,
    @find_duplicates DuplicateFixtures.spelling_fuzz (indexed DuplicateFixtures.frame)
      = Some duplicates /\
    @_handle_duplicates DuplicateFixtures.spelling_fuzz DuplicateFixtures.frame = Some out /\
    Forall (@cluster DuplicateFixtures.spelling_fuzz (indexed DuplicateFixtures.frame))
      duplicates /\
    NoDup (concat duplicates) /\
    (length out + dropped duplicates = length DuplicateFixtures.frame)%nat.
Proof.
  apply (@duplicates_are_merged DuplicateFixtures.spelling_fuzz DuplicateFixtures.frame).
  repeat constructor; discriminate.
Defined.

Lemma distinct_rows_are_kept_witness :
  @_handle_duplicates Fixtures.example_fuzz DuplicateFixtures.frame = Some DuplicateFixtures.frame.
Proof.
  apply (@distinct_rows_are_kept Fixtures.example_fuzz DuplicateFixtures.frame).
  intros [|[|[|i]]] [|[|[|j]]] ri rj Hi Hj Hne; try discriminate; try congruence;
    cbn in Hi, Hj; injection Hi as <-; injection Hj as <-; vm_compute; reflexivity.
Defined.

End DuplicateExamples.

(** ** City names *)

Section CityNames.
Import CaseNotions Cleaner.

(** X18. For a null cell or a cell that holds ASCII text, [clean_city_name]
    returns text without white space at its ends, with single spaces
    between its words, in title case, with no two capital letters in a
    row; so the state-suffix step ([,\s*[A-Z]{2,}$]) finds nothing to
    remove in a cleaned city. *)
Theorem clean_city_name_is_tidy (city : option str) :
  (forall s, city = Some s -> ascii_text s) ->
  let out := clean_city_name city in
  tidy out = true /\ title out = out /\ no_capital_pair false out = true /\
  sub state_suffix "" out = out.
Proof.
  intros _. cbv zeta.
  assert (Hpair : no_capital_pair false (clean_city_name city) = true).
  { destruct city as [s|]; [|reflexivity].
    cbn [clean_city_name]. unfold title. apply title_from_no_capital_pair. discriminate. }
  split; [|split; [|split; [exact Hpair | apply state_suffix_idle; exact Hpair]]].
  - destruct city as [s|]; [|reflexivity].
    cbn [clean_city_name]. apply title_tidy. unfold rewrite_city. apply collapse_strip_tidy.
  - destruct city as [s|]; [|reflexivity].
    cbn [clean_city_name]. apply title_idempotent.
Qed.

Lemma clean_city_name_is_tidy_witness :
  let out := clean_city_name (Some (py "new   york, NY")) in
  out = py "New York" /\
  tidy out = true /\ title out = out /\ no_capital_pair false out = true /\
  sub state_suffix "" out = out.
Proof.
  split; [vm_compute; reflexivity|].
  apply (clean_city_name_is_tidy (Some (py "new   york, NY"))).
  intros s [= <-]. repeat constructor.
Defined.

End CityNames.

(** ** The metric range through the merging of duplicates *)

Section RatedFrames.
Import Cleaner Validation Duplicates.

(** A merged row is rated when the members of its cluster are. *)
Lemma merged_row_rated (members : list Row) (merged : Row) :
  Forall metrics_rated members ->
  _merge_duplicate_rows members = Some merged -> metrics_rated merged.
Proof.
  intros Hall Hm. destruct members as [|first others]; [discriminate|].
  intros col v Hcol Hv.
  destruct (merged_metric_value first others col) as [merged' [Hm' Hvalue]].
  rewrite Hm in Hm'. injection Hm' as <-. rewrite Hvalue in Hv.
  assert (Hb : Forall (fun v => (0 <= v /\ v <= 10)%Q)
                 (dropna (fun r => metric r col) (first :: others))).
  { apply dropna_bounds. intros r w Hr Hw.
    rewrite Forall_forall in Hall. apply (Hall r (proj2 (list_elem_of_In _ _) Hr) col w Hcol Hw). }
  destruct (dropna (fun r => metric r col) (first :: others)) as [|x rest]; [discriminate|].
  injection Hv as <-. apply mean_bounds; [discriminate | exact Hb].
Qed.

Lemma lookup_row_in (df : list (nat * Row)) (i : nat) (r : Row) :
  lookup_row df i = Some r -> In r (map snd df).
Proof.
  unfold lookup_row. destruct (List.find _ df) as [[j x]|] eqn:E; [|discriminate].
  intros [= <-]. apply find_some in E as [Hin _]. apply (in_map snd) in Hin. exact Hin.
Qed.

Lemma lookup_rows_in (df : list (nat * Row)) (labels : list nat) (members : list Row) :
  mapM (lookup_row df) labels = Some members ->
  forall r, In r members -> In r (map snd df).
Proof.
  intros Hm r Hr. apply list_elem_of_In in Hr.
  rewrite mapM_Some in Hm.
  destruct (proj1 (list_elem_of_lookup _ _) Hr) as [k Hk].
  destruct (Forall2_lookup_r _ _ _ _ _ Hm Hk) as [i [_ Hi]].
  apply (lookup_row_in df i r Hi).
Qed.

Lemma set_row_rated (df : list (nat * Row)) (label : nat) (row : Row) :
  metrics_rated row -> Forall metrics_rated (map snd df) ->
  Forall metrics_rated (map snd (set_row df label row)).
Proof.
  intros Hrow. unfold set_row. induction df as [|[j r] df IH]; intros Hall; [constructor|].
  cbn [map fst snd] in *. apply Forall_cons in Hall as [Hr Hall].
  constructor; [|apply IH; exact Hall].
  destruct (j =? label)%nat; [exact Hrow | exact Hr].
Qed.

Lemma drop_rows_rated (df : list (nat * Row)) (labels : list nat) :
  Forall metrics_rated (map snd df) -> Forall metrics_rated (map snd (drop_rows df labels)).
Proof.
  unfold drop_rows. induction df as [|[j r] df IH]; intros Hall; [constructor|].
  cbn [map fst snd] in Hall. apply Forall_cons in Hall as [Hr Hall].
  cbn [List.filter fst]. destruct (negb _); [|apply IH; exact Hall].
  cbn [map snd]. constructor; [exact Hr | apply IH; exact Hall].
Qed.

Lemma merge_group_rated (df df' : list (nat * Row)) (group : list nat) :
  Forall metrics_rated (map snd df) -> merge_group df group = Some df' ->
  Forall metrics_rated (map snd df').
Proof.
  intros Hall. unfold merge_group.
  destruct (mapM (lookup_row df) group) as [members|] eqn:Hm; [|discriminate].
  destruct (_merge_duplicate_rows members) as [merged|] eqn:E; [|discriminate].
  destruct group as [|first_idx others]; [discriminate|]. intros [= <-].
  apply drop_rows_rated, set_row_rated; [|exact Hall].
  apply (merged_row_rated members merged); [|exact E].
  apply Forall_forall. intros r Hr. rewrite Forall_forall in Hall. apply Hall.
  apply list_elem_of_In, (lookup_rows_in df _ members Hm), list_elem_of_In, Hr.
Qed.

Lemma merge_groups_rated (df df' : list (nat * Row)) (duplicates : list (list nat)) :
  Forall metrics_rated (map snd df) -> merge_groups df duplicates = Some df' ->
  Forall metrics_rated (map snd df').
Proof.
  revert df. induction duplicates as [|group duplicates IH]; intros df Hall.
  - intros [= <-]. exact Hall.
  - cbn [merge_groups]. destruct (merge_group df group) as [df1|] eqn:E; [|discriminate].
    apply IH. apply (merge_group_rated df df1 group Hall E).
Qed.

Lemma filter_all (A : Type) (f : A -> bool) (l : list A) :
  Forall (fun x => f x = true) l -> List.filter f l = l.
Proof.
  induction 1 as [|x l Hx _ IH]; [reflexivity|]. cbn [List.filter]. rewrite Hx, IH. reflexivity.
Qed.

(** X19. Merging duplicates keeps the 0-10 range of the four rated
    metrics (in exact arithmetic): when every row that enters
    [_handle_duplicates] holds null or a value between 0 and 10 in each of
    them, so does every row it returns, and the range test that
    [_validate_data] runs on the result removes no row. *)
Theorem merged_frames_stay_rated `{Fuzz} (rows out : list Row) :
  Forall metrics_rated rows ->
  _handle_duplicates rows = Some out ->
  Forall metrics_rated out /\
  fold_left (fun df col => List.filter (metric_mask col) df) validated_metrics out = out.
Proof.
  intros Hall Hrun.
  assert (Hout : Forall metrics_rated out).
  { unfold _handle_duplicates in Hrun.
    destruct (find_duplicates (indexed rows)) as [duplicates|]; [|discriminate].
    destruct (merge_groups (indexed rows) duplicates) as [df|] eqn:E; [|discriminate].
    injection Hrun as <-. apply (merge_groups_rated (indexed rows) df duplicates); [|exact E].
    destruct (indexed_labels rows) as (_ & -> & _). exact Hall. }
  split; [exact Hout|].
  assert (Hcols : forall cols, (forall col, In col cols -> In col validated_metrics) ->
            fold_left (fun df col => List.filter (metric_mask col) df) cols out = out).
  { induction cols as [|col cols IH]; intros Hsub; [reflexivity|].
    cbn [fold_left]. rewrite filter_all.
    - apply IH. intros c Hc. apply Hsub. right. exact Hc.
    - apply Forall_forall. intros r Hr. apply metric_mask_spec. intros v.
      rewrite Forall_forall in Hout. apply (Hout r Hr). apply Hsub. left. reflexivity. }
  apply Hcols. intros col Hcol. exact Hcol.
Qed.

End RatedFrames.

Section RatedFramesExample.
Import Cleaner Validation Duplicates.

Lemma merged_frames_stay_rated_witness :
  exists out,
    @_handle_duplicates Fixtures.example_fuzz
       [ClusterFixtures.oxford_a; ClusterFixtures.oxford_b] = Some out /\
    length out = 1%nat /\
    Forall metrics_rated out /\
    fold_left (fun df col => List.filter (metric_mask col) df) validated_metrics out = out.
Proof.
  eexists. split; [vm_compute; reflexivity|]. split; [reflexivity|].
  apply (@merged_frames_stay_rated Fixtures.example_fuzz
           [ClusterFixtures.oxford_a; ClusterFixtures.oxford_b]).
  - constructor; [|constructor; [|constructor]]; intros col v Hcol Hv;
      cbn in Hcol; destruct Hcol as [<-|[<-|[<-|[<-|[]]]]]; cbn in Hv;
      try discriminate; injection Hv as <-; split; vm_compute; discriminate.
  - vm_compute. reflexivity.
Defined.

End RatedFramesExample.

(** ** Matching texts that differ in case only *)

Section Blind.
Import CaseNotions.

Variable R : ascii -> ascii -> Prop.
Hypothesis R_word : respects R is_word.
Hypothesis R_newline : respects R (fun c => N.eqb (code c) 10).

Lemma same_edge_some (a b : ascii) : R a b -> same_edge (Some a) (Some b).
Proof. intros H. unfold same_edge. cbn [word_opt]. apply R_word, H. Qed.

Lemma same_edge_head (s s' : str) :
  Forall2 R s s' -> word_opt (head s) = word_opt (head s').
Proof. intros [|a b t t' H _]; [reflexivity|]. cbn. apply R_word, H. Qed.

Lemma alike_first {A : Type} (x x' y y' : option A) :
  alike x x' -> alike y y' ->
  alike (match x with Some v => Some v | None => y end)
        (match x' with Some v => Some v | None => y' end).
Proof.
  unfold alike. intros Hx Hy. destruct x as [a|], x' as [b|].
  - split; intros E; discriminate E.
  - exfalso. destruct Hx as [_ Hx]. discriminate (Hx eq_refl).
  - exfalso. destruct Hx as [Hx _]. discriminate (Hx eq_refl).
  - exact Hy.
Qed.

Lemma star_blind (p : ascii -> bool) (s s' : str) (prev prev' : option ascii) (k k' : K) :
  respects R p -> same_edge prev prev' -> Forall2 R s s' -> k_alike R k k' ->
  alike (star_m p prev s k) (star_m p prev' s' k').
Proof.
  intros Hp He Hs Hk. revert prev prev' He.
  induction Hs as [|a b t t' Hab Ht IH]; intros prev prev' He; cbn [star_m].
  - apply Hk; [exact He | constructor].
  - rewrite (Hp a b Hab). destruct (p b).
    + apply alike_first.
      * apply IH. apply same_edge_some, Hab.
      * apply Hk; [exact He | constructor; assumption].
    + apply Hk; [exact He | constructor; assumption].
Qed.

(** A blind pattern matches at a position of one text when it matches at
    the same position of a related text. *)
Lemma m_blind (r : re) :
  blind R r ->
  forall (prev prev' : option ascii) (s s' : str) (k k' : K),
    same_edge prev prev' -> Forall2 R s s' -> k_alike R k k' ->
    alike (m r prev s k) (m r prev' s' k').
Proof.
  induction 1 as [|p Hp|a b _ IHa _ IHb|a _ IHa|p Hp| | |a _ IHa];
    intros prev prev' s s' k k' He Hs Hk; cbn [m].
  - apply Hk; assumption.
  - destruct Hs as [|x y t t' Hxy Ht]; [split; reflexivity|].
    rewrite (Hp x y Hxy). destruct (p y); [|split; reflexivity].
    apply Hk; [apply same_edge_some, Hxy | exact Ht].
  - apply IHa; [exact He | exact Hs|].
    intros q q' t t' Hq Ht. apply IHb; assumption.
  - apply alike_first; [apply IHa; assumption | apply Hk; assumption].
  - apply star_blind; assumption.
  - destruct Hs as [|x y t t' Hxy Ht]; [apply Hk; [exact He | constructor]|].
    destruct Ht as [|x2 y2 t2 t2' Hxy2 Ht2].
    + pose proof (R_newline x y Hxy) as Hn. cbv beta in Hn. rewrite Hn.
      destruct (N.eqb (code y) 10).
      * apply Hk; [exact He | constructor; [exact Hxy | constructor]].
      * split; reflexivity.
    + split; reflexivity.
  - unfold same_edge in He. rewrite He, (same_edge_head s s' Hs).
    destruct (xorb _ _); [apply Hk; assumption | split; reflexivity].
  - assert (Ha : alike (m a prev s (fun _ r' => Some r')) (m a prev' s' (fun _ r' => Some r'))).
    { apply IHa; [exact He | exact Hs|]. intros q q' t t' _ _. split; discriminate. }
    destruct (m a prev s _) as [x|], (m a prev' s' _) as [y|].
    + apply Hk; assumption.
    + destruct Ha as [_ Ha]. discriminate (Ha eq_refl).
    + destruct Ha as [Ha _]. discriminate (Ha eq_refl).
    + split; reflexivity.
Qed.

Lemma match_len_blind (r : re) (prev prev' : option ascii) (s s' : str) :
  blind R r -> same_edge prev prev' -> Forall2 R s s' ->
  match_len r prev s = None -> match_len r prev' s' = None.
Proof.
  intros Hr He Hs. unfold match_len.
  assert (Ha : alike (m r prev s (fun _ r' => Some r')) (m r prev' s' (fun _ r' => Some r'))).
  { apply m_blind; [exact Hr | exact He | exact Hs|]. intros q q' t t' _ _. split; discriminate. }
  destruct (m r prev s _) as [x|]; [discriminate|].
  destruct Ha as [Ha _]. rewrite (Ha eq_refl). reflexivity.
Qed.

(** A blind pattern found nowhere in a text is found nowhere in a related
    text. *)
Lemma search_blind (r : re) (prev prev' : option ascii) (s s' : str) :
  blind R r -> same_edge prev prev' -> Forall2 R s s' ->
  search_from r prev s = None -> search_from r prev' s' = None.
Proof.
  intros Hr He Hs. revert prev prev' He.
  induction Hs as [|a b t t' Hab Ht IH]; intros prev prev' He; cbn [search_from].
  - destruct (match_len r prev []) eqn:E; [discriminate|]. intros _.
    rewrite (match_len_blind r prev prev' [] [] Hr He (List.Forall2_nil R) E). reflexivity.
  - destruct (match_len r prev (a :: t)) eqn:E; [discriminate|]. intros Hrest.
    rewrite (match_len_blind r prev prev' (a :: t) (b :: t') Hr He
               (List.Forall2_cons a b Hab Ht) E).
    apply (IH (Some a) (Some b)); [apply same_edge_some, Hab | exact Hrest].
Qed.

End Blind.

(** ** Patterns under [re.IGNORECASE] and texts that differ in case *)

Section Caseless.
Import CaseNotions Cleaner.

Lemma same_letter_refl (s : str) : Forall2 same_letter s s.
Proof. induction s; constructor; [reflexivity | assumption]. Qed.

(** A class that does not look at the case of a letter. *)
Lemma caseless_respects (p : ascii -> bool) :
  (forall c, p (lower_c c) = p c) -> respects same_letter p.
Proof. intros Hp a b Hab. rewrite <- (Hp a), <- (Hp b), Hab. reflexivity. Qed.

Lemma chr_ci_respects (c : ascii) : respects same_letter (chr_ci c).
Proof. intros a b Hab. unfold chr_ci. rewrite Hab. reflexivity. Qed.

Lemma same_letter_word : respects same_letter is_word.
Proof.
  apply caseless_respects. intros c.
  destruct c as [[] [] [] [] [] [] [] []]; reflexivity.
Qed.

Lemma same_letter_newline : respects same_letter (fun c => N.eqb (code c) 10).
Proof.
  apply caseless_respects. intros c.
  destruct c as [[] [] [] [] [] [] [] []]; reflexivity.
Qed.

Lemma same_letter_space : respects same_letter is_space.
Proof.
  apply caseless_respects. intros c.
  destruct c as [[] [] [] [] [] [] [] []]; reflexivity.
Qed.

Ltac blind_class :=
  first [ apply chr_ci_respects
        | apply caseless_respects;
          let c := fresh "c" in
          intros c; destruct c as [[] [] [] [] [] [] [] []]; reflexivity ].

Ltac blind_re :=
  repeat first [ apply blind_seq | apply blind_opt | apply blind_ahead
               | apply blind_wordb | apply blind_eol | apply blind_eps
               | apply blind_chr; blind_class
               | apply blind_star; blind_class ].

Lemma standardizations_blind : Forall (blind same_letter) (map fst standardizations).
Proof.
  cbv [standardizations map fst seqs LitI Lit ci lit_with py list_ascii_of_string dot_opt].
  repeat (constructor; [solve [blind_re]|]). constructor.
Qed.

Lemma abbreviations_blind : Forall (blind same_letter) (map fst abbreviations).
Proof.
  cbv [abbreviations abbr map fst seqs LitI Lit lit_with py list_ascii_of_string dot_opt].
  repeat (constructor; [solve [blind_re]|]). constructor.
Qed.

Lemma paren_suffix_blind : blind same_letter paren_suffix.
Proof.
  cbv [paren_suffix seqs Lit lit_with py list_ascii_of_string]. blind_re.
Qed.

(** A pattern found nowhere in a text is found nowhere in a text that
    differs from it in case only. *)
Lemma search_caseless (r : re) (prev prev' : option ascii) (s s' : str) :
  blind same_letter r -> same_edge prev prev' -> Forall2 same_letter s s' ->
  search_from r prev s = None -> search_from r prev' s' = None.
Proof. apply search_blind; [exact same_letter_word | exact same_letter_newline]. Qed.

(** [re.sub] leaves a text alone in which [re.search] finds nothing. *)
Lemma search_none_sub (r : re) (repl : str) (prev : option ascii) (s : str) :
  search_from r prev s = None -> sub_from r repl prev s 0 = s.
Proof.
  revert prev. induction s as [|c t IH]; intros prev; cbn [search_from sub_from];
    destruct (match_len r prev _); try discriminate; [reflexivity|].
  intros Ht. rewrite (IH _ Ht). reflexivity.
Qed.

Lemma subs_idle (table : list (re * string)) (x : str) :
  Forall (fun p => search p x = None) (map fst table) ->
  fold_left (fun n '(pattern, replacement) => sub pattern replacement n) table x = x.
Proof.
  induction table as [|[p r] table IH]; intros Hx; [reflexivity|].
  cbn [map fst] in Hx. apply Forall_cons in Hx as [Hp Hx].
  cbn [fold_left]. unfold sub at 2. rewrite (search_none_sub p (py r) None x Hp).
  apply IH, Hx.
Qed.

(** The patterns of a table that are found nowhere in a text are found
    nowhere in a text that differs from it in case only. *)
Lemma none_found_caseless (patterns : list re) (x y : str) :
  Forall (blind same_letter) patterns -> Forall2 same_letter x y ->
  Forall (fun p => search p x = None) patterns ->
  Forall (fun p => search p y = None) patterns.
Proof.
  intros Hb Hxy Hx. induction Hb as [|p l Hp Hl IH]; [constructor|].
  apply Forall_cons in Hx as [Hpx Hlx]. constructor; [|apply IH, Hlx].
  apply (search_caseless p None None x y Hp eq_refl Hxy Hpx).
Qed.

End Caseless.

(** ** Countries *)

Section CountryIdempotence.
Import CaseNotions Cleaner.

Lemma same_letter_title (x : str) : Forall2 same_letter x (title x).
Proof.
  unfold title. generalize false. induction x as [|c t IH]; intros b; [constructor|].
  cbn [title_from]. constructor; [|apply IH].
  unfold same_letter. destruct (is_alpha c); [|reflexivity].
  destruct b; symmetry; apply (case_facts c).
Qed.

(** No alias is its own name. *)
Lemma alias_moves (k v : str) : lookup_mapping k country_mappings = Some v -> k <> v.
Proof.
  unfold country_mappings. cbn [lookup_mapping].
  repeat (destruct (str_eqb k _) eqn:E;
          [apply str_eqb_true in E; subst k; intros [= <-]; discriminate | clear E]).
  discriminate.
Qed.

Lemma alias_values (k v : str) :
  lookup_mapping k country_mappings = Some v ->
  In v (map (fun e => py (snd e)) country_mappings).
Proof.
  generalize country_mappings. intros tbl. induction tbl as [|[a b] tbl IH]; [discriminate|].
  cbn [lookup_mapping map snd]. destruct (str_eqb k (py a)).
  - intros [= <-]. left. reflexivity.
  - intros H. right. apply IH, H.
Qed.

End CountryIdempotence.

(** ** What a match reads *)

Section Consumed.
Import CaseNotions CountryPatterns.

Variable P : ascii -> Prop.

Lemma star_consumes (p : ascii -> bool) (prev : option ascii) (s : str) (k : K) (out : str) :
  (forall c, p c = true -> P c) ->
  star_m p prev s k = Some out ->
  exists w rest prev', s = w ++ rest /\ Forall P w /\ k prev' rest = Some out.
Proof.
  intros Hp. revert prev. induction s as [|c t IH]; intros prev; cbn [star_m].
  - intros Hk. exists [], [], prev. repeat split; [constructor | exact Hk].
  - destruct (p c) eqn:Ec.
    + destruct (star_m p (Some c) t k) as [x|] eqn:E.
      * intros [= <-]. destruct (IH _ E) as (w & rest & prev' & -> & Hw & Hk).
        exists (c :: w), rest, prev'. repeat split; [|exact Hk].
        constructor; [apply Hp, Ec | exact Hw].
      * intros Hk. exists [], (c :: t), prev. repeat split; [constructor | exact Hk].
    + intros Hk. exists [], (c :: t), prev. repeat split; [constructor | exact Hk].
Qed.

(** A match reads a piece of the text made of characters its classes
    accept, and goes on behind it. *)
Lemma m_consumes (r : re) :
  classes_in P r ->
  forall (prev : option ascii) (s : str) (k : K) (out : str),
    m r prev s k = Some out ->
    exists w rest prev', s = w ++ rest /\ Forall P w /\ k prev' rest = Some out.
Proof.
  induction 1 as [|p Hp|a b _ IHa _ IHb|a _ IHa|p Hp| | | |a];
    intros prev s k out; cbn [m].
  - intros Hk. exists [], s, prev. repeat split; [constructor | exact Hk].
  - destruct s as [|c t]; [discriminate|]. destruct (p c) eqn:Ec; [|discriminate].
    intros Hk. exists [c], t, (Some c). repeat split; [|exact Hk].
    constructor; [apply Hp, Ec | constructor].
  - intros Hm. destruct (IHa _ _ _ _ Hm) as (w1 & rest1 & prev1 & -> & Hw1 & Hm1).
    destruct (IHb _ _ _ _ Hm1) as (w2 & rest2 & prev2 & -> & Hw2 & Hk).
    exists (w1 ++ w2), rest2, prev2. rewrite <- app_assoc. repeat split; [|exact Hk].
    apply Forall_app. split; assumption.
  - destruct (m a prev s k) as [x|] eqn:E.
    + intros [= <-]. apply (IHa _ _ _ _ E).
    + intros Hk. exists [], s, prev. repeat split; [constructor | exact Hk].
  - apply star_consumes. exact Hp.
  - destruct prev; [discriminate|]. intros Hk.
    exists [], s, None. repeat split; [constructor | exact Hk].
  - intros Hk. exists [], s, prev. repeat split; [constructor|].
    destruct s as [|c [|d t]]; [exact Hk | | discriminate].
    destruct (N.eqb (code c) 10); [exact Hk | discriminate].
  - destruct (xorb _ _); [|discriminate]. intros Hk.
    exists [], s, prev. repeat split; [constructor | exact Hk].
  - destruct (m a prev s _); [|discriminate]. intros Hk.
    exists [], s, prev. repeat split; [constructor | exact Hk].
Qed.

Lemma match_len_consumes (r : re) (prev : option ascii) (s : str) (n : nat) :
  classes_in P r -> match_len r prev s = Some n ->
  (n <= length s)%nat /\ Forall P (firstn n s).
Proof.
  intros Hr. unfold match_len.
  destruct (m r prev s (fun _ r' => Some r')) as [out|] eqn:E; [|discriminate].
  intros [= <-]. destruct (m_consumes r Hr _ _ _ _ E) as (w & rest & prev' & -> & Hw & Hk).
  injection Hk as <-. rewrite length_app.
  replace (length w + length rest - length rest)%nat with (length w) by lia.
  split; [lia|]. rewrite firstn_app, Nat.sub_diag, firstn_all. cbn [firstn].
  rewrite app_nil_r. exact Hw.
Qed.

End Consumed.

(** ** Matches that start a word with U *)

Section UPatterns.
Import CaseNotions CountryPatterns.

Lemma ulike_word (c : ascii) : ulike c = true -> is_word c = true.
Proof. destruct c as [[] [] [] [] [] [] [] []]; (reflexivity || discriminate). Qed.

Lemma ulike_not_newline (c : ascii) : ulike c = true -> N.eqb (code c) 10 = false.
Proof. destruct c as [[] [] [] [] [] [] [] []]; (reflexivity || discriminate). Qed.

Lemma ulike_not_space (c : ascii) : ulike c = true -> is_space c = false.
Proof. destruct c as [[] [] [] [] [] [] [] []]; (reflexivity || discriminate). Qed.

Lemma uhead_needs_u (r : re) (prev : option ascii) (s : str) (k : K) :
  uhead r -> no_u_head s -> m r prev s k = None.
Proof.
  intros Hr. revert prev s k. induction Hr as [|a b Ha IHa Hb]; intros prev s k Hs; cbn [m].
  - destruct s as [|c t]; [reflexivity|]. cbn in Hs. unfold ulike in Hs. rewrite Hs. reflexivity.
  - apply IHa. exact Hs.
Qed.

Lemma ustart_needs_u (q : re) (prev : option ascii) (s : str) :
  ustart q -> no_u_head s -> match_len q prev s = None.
Proof.
  intros [r Hr] Hs. unfold match_len. cbn [m].
  destruct (xorb _ _); [|reflexivity]. rewrite (uhead_needs_u r prev s _ Hr Hs). reflexivity.
Qed.

(** No word starts behind a word character. *)
Lemma ustart_needs_edge (q : re) (prev : option ascii) (s : str) :
  ustart q -> word_opt prev = true -> match_len q prev s = None.
Proof.
  intros Hq Hprev. destruct s as [|c t]; [apply ustart_needs_u; [exact Hq | exact I]|].
  destruct (ulike c) eqn:Ec; [|apply ustart_needs_u; [exact Hq | exact Ec]].
  destruct Hq as [r Hr]. unfold match_len. cbn [m head word_opt].
  rewrite Hprev, (ulike_word c Ec). reflexivity.
Qed.

Lemma cut_head (s s' : str) : cut s s' -> word_opt (head s) = word_opt (head s').
Proof.
  intros [|c t t' _|a a' t t' Ha Ha']; [reflexivity | reflexivity|].
  cbn. rewrite (ulike_word a Ha), (ulike_word a' Ha'). reflexivity.
Qed.

Lemma star_cut (p : ascii -> bool) (prev : option ascii) (s s' : str) (k k' : K) :
  (forall c, ulike c = true -> p c = false) -> cut s s' -> k_cut k k' ->
  alike (star_m p prev s k) (star_m p prev s' k').
Proof.
  intros Hp Hs Hk. revert prev.
  induction Hs as [|c t t' Ht IH|a a' t t' Ha Ha']; intros prev; cbn [star_m].
  - apply Hk. constructor.
  - destruct (p c).
    + apply alike_first; [apply IH | apply Hk; constructor; exact Ht].
    + apply Hk. constructor. exact Ht.
  - rewrite (Hp a Ha), (Hp a' Ha'). apply Hk. constructor; assumption.
Qed.

(** A pattern that rejects the letter U cannot tell two texts apart that
    agree up to a U. *)
Lemma m_cut (r : re) :
  ufree r ->
  forall (prev : option ascii) (s s' : str) (k k' : K),
    cut s s' -> k_cut k k' -> alike (m r prev s k) (m r prev s' k').
Proof.
  induction 1 as [|p Hp|a b _ IHa _ IHb|a _ IHa|p Hp| | |a _ IHa];
    intros prev s s' k k' Hs Hk; cbn [m].
  - apply Hk, Hs.
  - destruct Hs as [|c t t' Ht|a a' t t' Ha Ha'].
    + split; reflexivity.
    + destruct (p c); [apply Hk, Ht | split; reflexivity].
    + rewrite (Hp a Ha), (Hp a' Ha'). split; reflexivity.
  - apply IHa; [exact Hs|]. intros q t t' Ht. apply IHb; assumption.
  - apply alike_first; [apply IHa; assumption | apply Hk, Hs].
  - apply star_cut; assumption.
  - destruct Hs as [|c t t' Ht|a a' t t' Ha Ha'].
    + apply Hk. constructor.
    + destruct Ht as [|d u u' Hu|b b' u u' Hb Hb'].
      * destruct (N.eqb (code c) 10); [apply Hk; repeat constructor | split; reflexivity].
      * split; reflexivity.
      * split; reflexivity.
    + rewrite (ulike_not_newline a Ha), (ulike_not_newline a' Ha').
      destruct t, t'; split; reflexivity.
  - rewrite (cut_head s s' Hs). destruct (xorb _ _); [apply Hk, Hs | split; reflexivity].
  - assert (Ha : alike (m a prev s (fun _ r' => Some r')) (m a prev s' (fun _ r' => Some r'))).
    { apply IHa; [exact Hs|]. intros q t t' _. split; discriminate. }
    destruct (m a prev s _) as [x|], (m a prev s' _) as [y|].
    + apply Hk, Hs.
    + destruct Ha as [_ Ha]. discriminate (Ha eq_refl).
    + destruct Ha as [Ha _]. discriminate (Ha eq_refl).
    + split; reflexivity.
Qed.

Lemma uhead_cut (r : re) :
  uhead r ->
  forall (prev : option ascii) (c : ascii) (t t' : str) (k k' : K),
    cut t t' -> k_cut k k' -> alike (m r prev (c :: t) k) (m r prev (c :: t') k').
Proof.
  induction 1 as [|a b Ha IHa Hb]; intros prev c t t' k k' Ht Hk; cbn [m].
  - destruct (chr_ci "U" c); [apply Hk, Ht | split; reflexivity].
  - apply IHa; [exact Ht|]. intros q u u' Hu. apply m_cut; assumption.
Qed.

(** A match attempt at a place before which the two texts agree. *)
Lemma ustart_cut (q : re) (prev : option ascii) (c : ascii) (t t' : str) :
  ustart q -> cut t t' ->
  match_len q prev (c :: t) = None -> match_len q prev (c :: t') = None.
Proof.
  intros [r Hr] Ht. unfold match_len. cbn [m head].
  destruct (xorb _ _); [|reflexivity].
  assert (Ha : alike (m r prev (c :: t) (fun _ r' => Some r'))
                     (m r prev (c :: t') (fun _ r' => Some r'))).
  { apply uhead_cut; [exact Hr | exact Ht|]. intros x u u' _. split; discriminate. }
  destruct (m r prev (c :: t) _); [discriminate|]. intros _.
  destruct Ha as [Ha _]. rewrite (Ha eq_refl). reflexivity.
Qed.

End UPatterns.

(** ** [re.sub] with a pattern that starts a word with U *)

Section SubU.
Import CaseNotions CountryPatterns.

(** The pattern [p] is replaced by [rep], a text that starts with "Un",
    holds no other U and ends in a word character; [q] is a pattern of
    the same kind that does not match at the start of [rep]. *)
Variables (p q : re) (rep' : str) (last : ascii).
Let rep : str := "U"%char :: "n"%char :: rep' ++ [last].
Hypothesis p_start : ustart p.
Hypothesis q_start : ustart q.
Hypothesis rep_fresh : forall prev tail, match_len q prev ("U"%char :: "n"%char :: tail) = None.
Hypothesis rep_no_u : Forall (fun c => ulike c = false) ("n"%char :: rep' ++ [last]).
Hypothesis last_word : is_word last = true.

Lemma matched_head (prev : option ascii) (s : str) (n : nat) :
  match_len p prev s = Some n -> exists c t, s = c :: t /\ ulike c = true.
Proof.
  intros E. destruct s as [|c t].
  - rewrite (ustart_needs_u p prev [] p_start I) in E. discriminate.
  - destruct (ulike c) eqn:Ec; [exists c, t; split; [reflexivity | exact Ec]|].
    rewrite (ustart_needs_u p prev (c :: t) p_start Ec) in E. discriminate.
Qed.

(** The text and what [re.sub] makes of it agree up to each replacement. *)
Lemma sub_cut (prev : option ascii) (s : str) : cut s (sub_from p rep prev s 0).
Proof.
  revert prev. induction s as [|c t IH]; intros prev; cbn [sub_from].
  - destruct (match_len p prev []) as [n|] eqn:E; [|constructor].
    destruct (matched_head _ _ _ E) as (c & t & Hs & _). discriminate.
  - destruct (match_len p prev (c :: t)) as [n|] eqn:E.
    + destruct (matched_head _ _ _ E) as (c' & t' & Hs & Hc). injection Hs as <- <-.
      destruct n; apply cut_u; (exact Hc || reflexivity).
    + constructor. apply IH.
Qed.

Lemma search_no_u (prev : option ascii) (w rest : str) :
  Forall (fun c => ulike c = false) w ->
  search_from q prev (w ++ rest) = search_from q (last_of prev w) rest.
Proof.
  intros Hw. revert prev. induction Hw as [|c t Hc Ht IH]; intros prev; [reflexivity|].
  cbn [app search_from]. rewrite (ustart_needs_u q prev (c :: t ++ rest) q_start Hc).
  rewrite IH. f_equal. unfold last_of. cbn [rev].
  destruct (rev t) as [|x u]; reflexivity.
Qed.

Lemma search_rep (prev : option ascii) (rest : str) :
  search_from q prev (rep ++ rest) = search_from q (Some last) rest.
Proof.
  assert (Hstep : search_from q prev (rep ++ rest) =
                  search_from q (Some "U"%char) (("n"%char :: rep' ++ [last]) ++ rest)).
  { unfold rep. change (("U"%char :: "n"%char :: rep' ++ [last]) ++ rest)
      with ("U"%char :: "n"%char :: (rep' ++ [last]) ++ rest).
    change (search_from q prev ("U"%char :: "n"%char :: (rep' ++ [last]) ++ rest))
      with (match match_len q prev ("U"%char :: "n"%char :: (rep' ++ [last]) ++ rest) with
            | Some n => Some (firstn n ("U"%char :: "n"%char :: (rep' ++ [last]) ++ rest))
            | None => search_from q (Some "U"%char) ("n"%char :: (rep' ++ [last]) ++ rest)
            end).
    rewrite rep_fresh. reflexivity. }
  rewrite Hstep, (search_no_u _ _ rest rep_no_u). f_equal. unfold last_of.
  change ("n"%char :: rep' ++ [last]) with (("n"%char :: rep') ++ [last]).
  rewrite rev_app_distr. reflexivity.
Qed.

(** After the replacement [q] is found nowhere, when it was found nowhere
    before or is the pattern replaced. *)
Lemma sub_clean (s : str) :
  forall (skip : nat) (prev_in prev_out : option ascii),
    (skip = 0%nat /\ prev_out = prev_in) \/ word_opt prev_out = true ->
    q = p \/ search_from q prev_in s = None ->
    search_from q prev_out (sub_from p rep prev_in s skip) = None.
Proof.
  induction s as [|c t IH]; intros skip prev_in prev_out Hedge Hq.
  - assert (Hout : sub_from p rep prev_in [] skip = []).
    { destruct skip; cbn [sub_from]; [|reflexivity].
      rewrite (ustart_needs_u p prev_in [] p_start I). reflexivity. }
    rewrite Hout. cbn [search_from].
    rewrite (ustart_needs_u q prev_out [] q_start I). reflexivity.
  - assert (Htail : q = p \/ search_from q (Some c) t = None).
    { destruct Hq as [Hq | Hq]; [left; exact Hq | right].
      cbn [search_from] in Hq. destruct (match_len q prev_in (c :: t)); [discriminate | exact Hq]. }
    destruct skip as [|n]; cbn [sub_from].
    + destruct (match_len p prev_in (c :: t)) as [[|n]|] eqn:E.
      * rewrite search_rep. cbn [search_from].
        rewrite (ustart_needs_edge q (Some last) _ q_start last_word).
        apply IH; [left; split; reflexivity | exact Htail].
      * rewrite search_rep. apply IH; [right; exact last_word | exact Htail].
      * assert (Eq : match_len q prev_in (c :: t) = None).
        { destruct Hq as [-> | Hq]; [exact E|].
          cbn [search_from] in Hq. destruct (match_len q prev_in (c :: t)); [discriminate|].
          reflexivity. }
        cbn [search_from].
        assert (Eout : match_len q prev_out (c :: sub_from p rep (Some c) t 0) = None).
        { destruct Hedge as [[_ ->] | Hw].
          - apply (ustart_cut q prev_in c t _ q_start (sub_cut (Some c) t) Eq).
          - apply (ustart_needs_edge q prev_out _ q_start Hw). }
        rewrite Eout. apply IH; [left; split; reflexivity | exact Htail].
    + apply IH; [|exact Htail]. right. destruct Hedge as [[Hs _] | Hw]; [discriminate | exact Hw].
Qed.

(** *** White space *)

Hypothesis p_no_space : classes_in (fun c => is_space c = false) p.
Hypothesis rep_tidy : forall b rest, tidy_from b (rep ++ rest) = tidy_from false rest.

Lemma sub_tidy_from (s : str) :
  forall (skip : nat) (b : bool) (prev : option ascii),
    tidy_from b s = true ->
    (skip = 0%nat \/ (b = false /\ Forall (fun c => is_space c = false) (firstn skip s))) ->
    tidy_from b (sub_from p rep prev s skip) = true.
Proof.
  induction s as [|c t IH]; intros skip b prev Hs Hskip.
  - assert (Hout : sub_from p rep prev [] skip = []).
    { destruct skip; cbn [sub_from]; [|reflexivity].
      rewrite (ustart_needs_u p prev [] p_start I). reflexivity. }
    rewrite Hout. exact Hs.
  - destruct skip as [|n]; cbn [sub_from].
    + destruct (match_len p prev (c :: t)) as [k|] eqn:E.
      * destruct (match_len_consumes _ p prev (c :: t) k p_no_space E) as [_ Hw].
        destruct (matched_head _ _ _ E) as (c' & t' & Hc & Hu). injection Hc as <- <-.
        pose proof (ulike_not_space c Hu) as Hsp.
        cbn [tidy_from] in Hs. rewrite Hsp in Hs.
        destruct k as [|n]; rewrite rep_tidy.
        -- cbn [tidy_from]. rewrite Hsp. apply IH; [exact Hs | left; reflexivity].
        -- apply IH; [exact Hs | right]. split; [reflexivity|].
           cbn [firstn] in Hw. apply Forall_cons in Hw as [_ Hw]. exact Hw.
      * cbn [tidy_from] in Hs |- *. destruct (is_space c).
        -- apply andb_true_iff in Hs as [Hb Ht]. rewrite Hb. cbn [andb].
           apply IH; [exact Ht | left; reflexivity].
        -- apply IH; [exact Hs | left; reflexivity].
    + destruct Hskip as [Hz | [-> Hw]]; [discriminate|].
      cbn [firstn] in Hw. apply Forall_cons in Hw as [Hc Hw].
      cbn [tidy_from] in Hs. rewrite Hc in Hs.
      apply IH; [exact Hs | right; split; [reflexivity | exact Hw]].
Qed.

Lemma sub_tidy (s : str) : tidy s = true -> tidy (sub_from p rep None s 0) = true.
Proof.
  intros Hs. destruct s as [|c t].
  - cbn [sub_from]. rewrite (ustart_needs_u p None [] p_start I). reflexivity.
  - assert (H : tidy_from true (sub_from p rep None (c :: t) 0) = true).
    { apply sub_tidy_from; [exact Hs | left; reflexivity]. }
    unfold tidy. destruct (sub_from p rep None (c :: t) 0); [reflexivity | exact H].
Qed.

End SubU.

(** ** The US / UK patterns of [clean_country_name] *)

Section Standardizations.
Import CaseNotions CountryPatterns Cleaner.

Ltac u_class :=
  let c := fresh "c" in
  intros c; destruct c as [[] [] [] [] [] [] [] []]; intros; (reflexivity || discriminate).

Ltac standard :=
  split; [|split];
  [ constructor; repeat (first [apply uhead_chr | apply uhead_seq | apply ufree_seq
                               | apply ufree_opt | apply ufree_wordb
                               | apply ufree_chr; u_class])
  | intros prev tail; unfold match_len; cbn [m head word_opt];
    destruct (xorb (word_opt prev) _); reflexivity
  | repeat (first [apply in_seq | apply in_opt | apply in_wordb | apply in_chr; u_class]) ].

Lemma standard_patterns : Forall standard_pattern (map fst standardizations).
Proof.
  cbv [standardizations map fst seqs LitI Lit ci lit_with py list_ascii_of_string dot_opt].
  repeat (apply List.Forall_cons; [solve [standard]|]). apply List.Forall_nil.
Qed.

Lemma standard_names : Forall (fun e => standard_name (snd e)) standardizations.
Proof.
  unfold standardizations.
  assert (Hs : standard_name "United States").
  { exists (py "ited State"), "s"%char. split; [reflexivity|]. split; [|split; [reflexivity|]].
    - repeat constructor.
    - intros b rest. destruct b; reflexivity. }
  assert (Hk : standard_name "United Kingdom").
  { exists (py "ited Kingdo"), "m"%char. split; [reflexivity|]. split; [|split; [reflexivity|]].
    - repeat constructor.
    - intros b rest. destruct b; reflexivity. }
  repeat (apply List.Forall_cons; [assumption|]). apply List.Forall_nil.
Qed.

Lemma standard_step (p q : re) (r : string) (z : str) :
  standard_pattern p -> standard_pattern q -> standard_name r ->
  q = p \/ search q z = None -> search q (sub p r z) = None.
Proof.
  intros (Hp & _ & _) (Hq & Hfresh & _) (rep' & last & Hr & Hnou & Hlast & _) Hz.
  unfold sub, search. rewrite Hr.
  apply (sub_clean p q rep' last Hp Hq Hfresh Hnou Hlast z 0 None None);
    [left; split; reflexivity | exact Hz].
Qed.

Lemma standard_tidy (p : re) (r : string) (z : str) :
  standard_pattern p -> standard_name r -> tidy z = true -> tidy (sub p r z) = true.
Proof.
  intros (Hp & _ & Hsp) (rep' & last & Hr & _ & _ & Htidy) Hz.
  unfold sub. rewrite Hr in Htidy |- *.
  apply (sub_tidy p rep' last Hp Hsp Htidy z Hz).
Qed.

(** After the replacements of a table, none of its patterns is found, nor
    any pattern that was found nowhere before. *)
Lemma subs_clean (table : list (re * string)) :
  Forall standard_pattern (map fst table) ->
  Forall (fun e => standard_name (snd e)) table ->
  forall (done : list re) (z : str),
    Forall standard_pattern done ->
    Forall (fun q => search q z = None) done ->
    let out := fold_left (fun c '(pattern, replacement) => sub pattern replacement c) table z in
    Forall (fun q => search q out = None) (done ++ map fst table).
Proof.
  induction table as [|[p r] table IH]; intros Hps Hrs done z Hdone Hz.
  - cbn. rewrite app_nil_r. exact Hz.
  - cbn [map fst] in Hps. apply Forall_cons in Hps as [Hp Hps].
    apply Forall_cons in Hrs as [Hr Hrs]. cbn [snd] in Hr.
    cbn [fold_left map fst]. cbv zeta.
    replace (done ++ p :: map fst table) with ((done ++ [p]) ++ map fst table)
      by (rewrite <- app_assoc; reflexivity).
    apply (IH Hps Hrs (done ++ [p]) (sub p r z)).
    + apply Forall_app. split; [exact Hdone | constructor; [exact Hp | constructor]].
    + apply Forall_app. split.
      * clear IH. induction Hdone as [|q l Hq Hl IHl]; [constructor|].
        apply Forall_cons in Hz as [Hqz Hlz]. constructor; [|apply IHl, Hlz].
        apply (standard_step p q r z Hp Hq Hr). right. exact Hqz.
      * constructor; [|constructor].
        apply (standard_step p p r z Hp Hp Hr). left. reflexivity.
Qed.

Lemma subs_tidy (table : list (re * string)) (z : str) :
  Forall standard_pattern (map fst table) ->
  Forall (fun e => standard_name (snd e)) table ->
  tidy z = true ->
  tidy (fold_left (fun c '(pattern, replacement) => sub pattern replacement c) table z) = true.
Proof.
  revert z. induction table as [|[p r] table IH]; intros z Hps Hrs Hz; [exact Hz|].
  cbn [map fst] in Hps. apply Forall_cons in Hps as [Hp Hps].
  apply Forall_cons in Hrs as [Hr Hrs]. cbn [snd] in Hr.
  cbn [fold_left]. apply (IH _ Hps Hrs). apply (standard_tidy p r z Hp Hr Hz).
Qed.

(** The second pass of [clean_country_name] over the result of the first:
    it looks the result up in the alias table and otherwise changes
    nothing. *)
Lemma clean_country_name_twice (s : str) :
  lookup_mapping (strip s) country_mappings = None ->
  clean_country_name (Some (clean_country_name (Some s))) =
    match lookup_mapping (clean_country_name (Some s)) country_mappings with
    | Some mapped => mapped
    | None => clean_country_name (Some s)
    end.
Proof.
  intros Hs.
  set (y := rewrite_country (strip s)).
  assert (Hone : clean_country_name (Some s) = title y).
  { unfold clean_country_name. rewrite Hs. reflexivity. }
  rewrite Hone.
  assert (Hy : tidy y = true).
  { unfold y, rewrite_country.
    apply (subs_tidy standardizations _ standard_patterns standard_names).
    apply collapse_strip_tidy. }
  assert (Hfound : Forall (fun q => search q y = None) (map fst standardizations)).
  { apply (subs_clean standardizations standard_patterns standard_names [] _);
      constructor. }
  assert (Ht : tidy (title y) = true) by (apply title_tidy, Hy).
  unfold clean_country_name at 1. rewrite (strip_tidy _ Ht).
  destruct (lookup_mapping (title y) country_mappings); [reflexivity|].
  unfold rewrite_country. rewrite (collapse_ws_tidy _ Ht).
  rewrite (subs_idle standardizations (title y)).
  - apply title_idempotent.
  - apply (none_found_caseless _ y (title y) standardizations_blind (same_letter_title y) Hfound).
Qed.

End Standardizations.

(** ** University names *)

Section NameIdempotence.
Import CaseNotions Cleaner.

Lemma join_split_from (cur s : str) :
  tidy_from (match cur with [] => true | _ => false end) s = true ->
  join (py " ") (split_from cur s) = rev cur ++ s.
Proof.
  revert cur. induction s as [|c t IH]; intros cur Hs.
  - destruct cur as [|x u]; [discriminate|]. cbn [split_from join]. rewrite app_nil_r. reflexivity.
  - cbn [tidy_from] in Hs. cbn [split_from]. destruct (is_space c) eqn:E.
    + destruct cur as [|x u]; [discriminate|]. cbn [negb andb] in Hs.
      apply andb_true_iff in Hs as [Hc Ht]. apply eqc_true in Hc. subst c.
      specialize (IH [] Ht). cbn [rev app] in IH.
      destruct (split_from [] t) as [|w ws] eqn:Ew.
      * cbn [join] in IH. subst t. discriminate.
      * change (join (py " ") (rev (x :: u) :: w :: ws))
          with (rev (x :: u) ++ py " " ++ join (py " ") (w :: ws)).
        rewrite IH. reflexivity.
    + specialize (IH (c :: cur) Hs). rewrite IH. cbn [rev]. rewrite <- app_assoc. reflexivity.
Qed.

(** A tidy text is its words joined by single spaces. *)
Lemma join_split (x : str) : tidy x = true -> join (py " ") (split x) = x.
Proof.
  intros Hx. destruct x as [|c t]; [reflexivity|].
  unfold split. rewrite (join_split_from [] (c :: t)); [reflexivity | exact Hx].
Qed.

Lemma same_letter_lower (w : str) : Forall2 same_letter w (lower w).
Proof.
  induction w as [|c t IH]; [constructor|]. cbn [lower map]. constructor; [|exact IH].
  unfold same_letter. symmetry. apply (case_facts c).
Qed.

Lemma same_letter_capitalize (w : str) : Forall2 same_letter w (capitalize w).
Proof.
  destruct w as [|c t]; [constructor|]. cbn [capitalize].
  constructor; [|apply same_letter_lower].
  unfold same_letter. symmetry. apply (case_facts c).
Qed.

Lemma same_letter_later_word (w : str) : Forall2 same_letter w (later_word w).
Proof.
  unfold later_word. destruct (in_words _ _);
    [apply same_letter_lower | apply same_letter_capitalize].
Qed.

Lemma same_letter_join (ws ws' : list str) :
  Forall2 (Forall2 same_letter) ws ws' ->
  Forall2 same_letter (join (py " ") ws) (join (py " ") ws').
Proof.
  induction 1 as [|w w' l l' Hw Hl IH]; [constructor|].
  cbn [join]. destruct Hl as [|v v' m m' Hv Hm].
  - exact Hw.
  - apply Forall2_app; [exact Hw|]. apply Forall2_app; [|exact IH].
    apply same_letter_refl.
Qed.

(** The casing step changes the case of letters only, in a tidy text. *)
Lemma same_letter_title_case (x : str) :
  tidy x = true -> Forall2 same_letter x (_title_case_university_name x).
Proof.
  intros Hx. rewrite title_case_unfold. destruct (split x) as [|first others] eqn:E.
  - apply same_letter_refl.
  - rewrite <- (join_split x Hx) at 1. rewrite E. apply same_letter_join.
    constructor; [apply same_letter_capitalize|]. clear E.
    induction others as [|w ws IH]; [constructor|].
    cbn [map]. constructor; [apply same_letter_later_word | exact IH].
Qed.

Lemma title_case_tidy (x : str) :
  tidy x = true -> tidy (_title_case_university_name x) = true.
Proof.
  intros Hx. rewrite title_case_unfold. pose proof (split_words x) as Hw.
  destruct (split x) as [|first others]; [exact Hx|].
  inversion Hw as [|w l Hf Ho]; subst. apply join_words_tidy.
  constructor; [apply capitalize_word, Hf|].
  apply Forall_map. eapply Forall_impl; [exact Ho|]. intros w. apply later_word_word.
Qed.

Lemma lower_tail_pair (t r : str) (b : bool) :
  no_capital_pair b (lower t ++ " "%char :: r) = no_capital_pair false r.
Proof.
  revert b. induction t as [|c t IH]; intros b.
  - cbn [lower map app no_capital_pair]. change (is_upper " ") with false.
    rewrite andb_false_r. reflexivity.
  - cbn [lower map app no_capital_pair]. fold (lower t).
    destruct (case_facts c) as (_ & _ & _ & _ & _ & _ & Hu & _). rewrite Hu.
    rewrite andb_false_r. apply IH.
Qed.

Lemma lower_tail_end (t : str) (b : bool) : no_capital_pair b (lower t) = true.
Proof.
  revert b. induction t as [|c t IH]; intros b; [reflexivity|].
  cbn [lower map no_capital_pair]. fold (lower t).
  destruct (case_facts c) as (_ & _ & _ & _ & _ & _ & Hu & _). rewrite Hu.
  rewrite andb_false_r. apply IH.
Qed.

Lemma cased_pair (w r : str) :
  (w = capitalize w \/ w = lower w) ->
  no_capital_pair false (w ++ " "%char :: r) = no_capital_pair false r /\
  no_capital_pair false w = true.
Proof.
  intros [E | E]; rewrite E.
  - destruct w as [|c t]; [split; reflexivity|]. cbn [capitalize app no_capital_pair].
    cbn [andb negb]. split; [apply lower_tail_pair | apply lower_tail_end].
  - split; [apply lower_tail_pair | apply lower_tail_end].
Qed.

Lemma cased_join (ws : list str) :
  Forall (fun w => w = capitalize w \/ w = lower w) ws ->
  no_capital_pair false (join (py " ") ws) = true.
Proof.
  induction 1 as [|w l Hw Hl IH]; [reflexivity|].
  cbn [join]. destruct l as [|v m].
  - apply (cased_pair w [] Hw).
  - change (py " " ++ join (py " ") (v :: m)) with (" "%char :: join (py " ") (v :: m)).
    rewrite (proj1 (cased_pair w _ Hw)). exact IH.
Qed.

(** The casing step leaves no two capitals in a row. *)
Lemma title_case_no_capital_pair (x : str) :
  tidy x = true -> no_capital_pair false (_title_case_university_name x) = true.
Proof.
  intros Hx. rewrite title_case_unfold. destruct (split x) as [|first others] eqn:E.
  - rewrite <- (join_split x Hx), E. reflexivity.
  - apply cased_join. constructor.
    + left. symmetry. apply capitalize_capitalize.
    + apply Forall_map. apply Forall_forall. intros w _. unfold later_word.
      destruct (in_words _ _).
      * right. symmetry. apply lower_lower.
      * left. symmetry. apply capitalize_capitalize.
Qed.

(** *** The leading "The" *)

Lemma sub_anchor_none (r : re) (repl x : str) :
  match_len (Seq Bol r) None x = None -> sub_from (Seq Bol r) repl None x 0 = x.
Proof.
  intros E. destruct x as [|c t]; cbn [sub_from]; rewrite E; [reflexivity|].
  rewrite sub_anchor_later. reflexivity.
Qed.

Lemma leading_the_shape (x : str) :
  match_len leading_the None x <> None ->
  exists d r, x = "T"%char :: "h"%char :: "e"%char :: d :: r /\ is_space d = true.
Proof.
  unfold match_len, leading_the, Plus.
  cbn [seqs Lit lit_with py list_ascii_of_string m]. unfold chr_is.
  destruct x as [|a [|b [|c [|d r]]]]; cbn [m];
    repeat match goal with
           | |- context [eqc ?u ?v] =>
               let E := fresh "E" in
               destruct (eqc u v) eqn:E; [apply eqc_true in E; subst|]
           end;
    try (intros H; exfalso; apply H; reflexivity).
  destruct (is_space d) eqn:Ed; [|intros H; exfalso; apply H; reflexivity].
  intros _. exists d, r. split; [reflexivity | exact Ed].
Qed.

Lemma leading_the_match (r : str) :
  tidy_from true r = true ->
  sub_from leading_the [] None ("T"%char :: "h"%char :: "e"%char :: " "%char :: r) 0 = r.
Proof.
  intros Hr. destruct r as [|e r']; [discriminate|].
  cbn [tidy_from] in Hr. destruct (is_space e) eqn:Ee; [discriminate|].
  assert (Hm : match_len leading_the None
                 ("T"%char :: "h"%char :: "e"%char :: " "%char :: e :: r') = Some 4%nat).
  { unfold match_len, leading_the, Plus.
    cbn [seqs Lit lit_with py list_ascii_of_string m]. unfold chr_is.
    change (eqc "T" "T") with true. change (eqc "h" "h") with true.
    change (eqc "e" "e") with true. change (is_space " ") with true.
    cbv iota. cbn [star_m]. rewrite Ee. f_equal. cbn [length]. lia. }
  cbn [sub_from]. rewrite Hm. cbn [app sub_from].
  unfold leading_the. cbn [seqs]. rewrite match_len_anchor_later, sub_anchor_later.
  reflexivity.
Qed.

(** What [re.sub(r'^The\s+', '', x)] leaves of a tidy text. *)
Lemma leading_the_sub (x : str) :
  tidy x = true ->
  tidy (sub leading_the "" x) = true /\
  (sub leading_the "" x = x \/ x = py "The " ++ sub leading_the "" x).
Proof.
  intros Hx. unfold sub. change (py "") with (@nil ascii).
  destruct (match_len leading_the None x) as [n|] eqn:E.
  - destruct (leading_the_shape x) as (d & r & -> & Hd); [rewrite E; discriminate|].
    unfold tidy in Hx. cbn [tidy_from] in Hx.
    change (is_space "T") with false in Hx. change (is_space "h") with false in Hx.
    change (is_space "e") with false in Hx. cbv iota in Hx. rewrite Hd in Hx.
    cbn [negb andb] in Hx. apply andb_true_iff in Hx as [Hsp Hr].
    apply eqc_true in Hsp. subst d.
    rewrite (leading_the_match r Hr). split; [|right; reflexivity].
    destruct r; [reflexivity | exact Hr].
  - unfold leading_the in *. cbn [seqs] in *.
    rewrite (sub_anchor_none _ [] x E). split; [exact Hx | left; reflexivity].
Qed.

(** The step is idle on a text that does not begin with "the", whatever
    the casing. *)
Lemma leading_the_idle (x y : str) :
  Forall2 same_letter x y -> starts_with_the x = false -> sub leading_the "" y = y.
Proof.
  intros Hxy Hx. unfold sub.
  destruct (match_len leading_the None y) as [n|] eqn:E.
  - exfalso. destruct (leading_the_shape y) as (d & r & -> & Hd); [rewrite E; discriminate|].
    inversion Hxy as [|a ? ? ? Ha H1]; subst. inversion H1 as [|b ? ? ? Hb H2]; subst.
    inversion H2 as [|c ? ? ? Hc H3]; subst. inversion H3 as [|d' ? ? ? Hd' H4]; subst.
    unfold starts_with_the in Hx. rewrite (same_letter_space d' d Hd'), Hd in Hx.
    unfold same_letter in Ha, Hb, Hc. cbn [lower map] in Hx. rewrite Ha, Hb, Hc in Hx.
    vm_compute in Hx. discriminate.
  - unfold leading_the in *. cbn [seqs] in *. apply (sub_anchor_none _ _ y E).
Qed.

(** *** The noise suffixes *)

Lemma noise_idle (y : str) :
  search paren_suffix y = None -> no_capital_pair false y = true ->
  fold_left (fun n pattern => sub pattern "" n) noise_patterns y = y.
Proof.
  intros Hp Hy. unfold noise_patterns. cbn [fold_left].
  unfold sub at 3. rewrite (search_none_sub paren_suffix _ None y Hp).
  assert (Hidle : forall a b, sub (seqs [Star is_space; a; Star is_space; AtLeast2 is_upper; b])
                                "" y = y).
  { intros a b. unfold sub. apply sub_no_match. intros prev' s' Hs'.
    apply match_len_none. cbn [seqs].
    apply m_seq_fails. intros p1 s1 H1. apply m_seq_fails. intros p2 s2 H2.
    apply m_seq_fails. intros p3 s3 H3.
    destruct (no_capital_pair_suffix y s3 false Hy) as [b' Hb'].
    { etransitivity; [exact H3|]. etransitivity; [exact H2|]. etransitivity; eassumption. }
    apply (capital_pair_needed _ _ _ _ b' Hb'). }
  rewrite !Hidle. reflexivity.
Qed.

(** *** Patterns found in what follows the leading "The" *)

Lemma search_after_the (p : re) (x y : str) :
  blind same_letter p -> (y = x \/ x = py "The " ++ y) ->
  search p x = None -> search p y = None.
Proof.
  intros Hb [-> | ->]; [tauto|]. unfold search.
  change (py "The " ++ y) with ("T"%char :: "h"%char :: "e"%char :: " "%char :: y).
  cbn [search_from].
  repeat (destruct (match_len p _ (_ :: _)); [discriminate|]).
  apply (search_caseless p (Some " "%char) None y y Hb eq_refl (same_letter_refl y)).
Qed.

(** A name without abbreviations and noise suffixes that, once a leading
    "The" is dropped, does not begin with "the" again: the first pass only
    drops the "The" and sets the case, and the second pass changes
    nothing. *)
Lemma clean_name_plain (s : str) :
  Forall (fun p => search p (collapse_ws (strip s)) = None) (map fst abbreviations) ->
  Forall (fun p => search p (collapse_ws (strip s)) = None) noise_patterns ->
  starts_with_the (sub leading_the "" (collapse_ws (strip s))) = false ->
  clean_name_uncached s =
    _title_case_university_name (sub leading_the "" (collapse_ws (strip s))) /\
  clean_name_uncached (clean_name_uncached s) = clean_name_uncached s.
Proof.
  intros Ha Hn Hthe. set (x := collapse_ws (strip s)) in *.
  assert (Hx : tidy x = true) by apply collapse_strip_tidy.
  assert (Hnoise : fold_left (fun n pattern => sub pattern "" n) noise_patterns x = x).
  { clear -Hn. induction noise_patterns as [|p l IH]; [reflexivity|].
    apply Forall_cons in Hn as [Hp Hl]. cbn [fold_left]. unfold sub at 2.
    rewrite (search_none_sub p _ None x Hp). apply IH, Hl. }
  assert (Hfirst : rewrite_name s = sub leading_the "" x).
  { unfold rewrite_name. fold x. rewrite (subs_idle abbreviations x Ha), Hnoise. reflexivity. }
  set (x2 := sub leading_the "" x) in *.
  destruct (leading_the_sub x Hx) as [Hx2 Hshape]. fold x2 in Hx2, Hshape.
  set (y := _title_case_university_name x2).
  assert (Hy : tidy y = true) by apply (title_case_tidy x2 Hx2).
  assert (Hxy : Forall2 same_letter x2 y) by apply (same_letter_title_case x2 Hx2).
  assert (Hsecond : rewrite_name y = y).
  { unfold rewrite_name. rewrite (strip_tidy y Hy), (collapse_ws_tidy y Hy).
    rewrite (subs_idle abbreviations y).
    - rewrite (noise_idle y).
      + apply (leading_the_idle x2 y Hxy Hthe).
      + apply (search_caseless paren_suffix None None x2 y paren_suffix_blind eq_refl Hxy).
        apply (search_after_the paren_suffix x x2 paren_suffix_blind Hshape).
        unfold noise_patterns in Hn. apply Forall_cons in Hn as [Hp _]. exact Hp.
      + apply (title_case_no_capital_pair x2 Hx2).
    - apply (none_found_caseless _ x2 y abbreviations_blind Hxy).
      clear -Ha Hshape. pose proof abbreviations_blind as Hb.
      induction Hb as [|p l Hp Hl IH]; [constructor|].
      apply Forall_cons in Ha as [Hpx Hlx]. constructor; [|apply IH, Hlx].
      apply (search_after_the p x x2 Hp Hshape Hpx). }
  assert (Hone : clean_name_uncached s = y).
  { unfold clean_name_uncached. rewrite Hfirst. reflexivity. }
  split; [exact Hone|]. rewrite Hone. unfold clean_name_uncached. rewrite Hsecond.
  apply title_case_idempotent.
Qed.

End NameIdempotence.

(** ** Idempotence of the normalizers on plain inputs *)

Section PlainInputs.
Import CaseNotions Cleaner.

Lemma recased (v : str) :
  In v (map (fun e => py (snd e)) country_mappings) ->
  clean_country_name (Some v) = v <-> ~ In v recased_aliases.
Proof.
  intros Hv. cbn [country_mappings map snd] in Hv.
  repeat (destruct Hv as [<- | Hv];
          [first [ split; [intros _ Hin; vm_compute in Hin; intuition discriminate
                          | intros _; vm_compute; reflexivity]
                 | split; [intros E; vm_compute in E; discriminate
                          | intros Hn; exfalso; apply Hn; vm_compute; tauto] ] |]).
  destruct Hv.
Qed.



End PlainInputs.
